(** * Guardrails rule language and engine: a shallow embedding

    The development follows [backend/src/guardrails]: [rules.py] (the builtin
    predicates, the path resolver, the literal parser and the rule
    evaluator), [models.py] (configuration, results, the execution context
    and the request summary), [engine.py] (the stage entry points and the
    output remediation), [behavioral.py] (the guards of an agent loop) and
    [config.py] (the loader of the configuration document).

    Conventions.
    - Python text is an ASCII [string]; the whitespace, word and digit classes
      are the ASCII parts of the classes [str.strip], [\s], [\w] and [int()]
      use.
    - Python integers are unbounded: [Z].  Floats are binary64 values
      ([spec_float]); the decimal-to-binary rounding, the digit limit of
      [int()], [str()] of a float or a container, [json.loads], [re.match]
      and the clock are functions of the interpreter and its libraries, and
      are taken from a [runtime] record.
    - A mapping is an association list in insertion order, read by its first
      binding of a key.
    - A raised exception is the [Raise] case of [result].
    - The output stage runs on a store of objects, so that copying an
      output, rebinding a variable to another object and writing into a
      mapping in place are told apart.  A place of a container holds a
      value of its own or an object of the store, which other containers
      and the configuration may hold too: a write through one holder is
      seen by all.  An object that holds itself, directly or not, or that
      holds an object the store does not have, is read as [None].
    - The details of a result are values: they record what an object was
      when the detail was set. *)

From Stdlib Require Import ZArith String Ascii List Bool Lia.
From Stdlib Require Import Floats.SpecFloat.
From stdpp Require Import base option list gmap strings.

Set Warnings "-register-all".

Local Open Scope string_scope.
Local Open Scope Z_scope.

(** ** Characters and text *)

Module PyStr.

Definition code (c : ascii) : N := N_of_ascii c.

(** The ASCII characters [str.isspace] accepts; [str.strip] and the regex
    class [\s] remove or match exactly these. *)
Definition is_space (c : ascii) : bool :=
  let n := code c in
  ((9 <=? n) && (n <=? 13) || (28 <=? n) && (n <=? 32))%N.

Definition is_digit (c : ascii) : bool :=
  let n := code c in ((48 <=? n) && (n <=? 57))%N.

Definition is_upper (c : ascii) : bool :=
  let n := code c in ((65 <=? n) && (n <=? 90))%N.

Definition is_lower (c : ascii) : bool :=
  let n := code c in ((97 <=? n) && (n <=? 122))%N.

(** The regex class [\w] on ASCII text. *)
Definition is_word (c : ascii) : bool :=
  is_digit c || is_upper c || is_lower c || Ascii.eqb c "_"%char.

Definition lower_char (c : ascii) : ascii :=
  if is_upper c then ascii_of_N (code c + 32) else c.

(** [s.lower()] *)
Fixpoint lower (s : string) : string :=
  match s with
  | EmptyString => EmptyString
  | String c r => String (lower_char c) (lower r)
  end.

(** [s.lstrip()] *)
Fixpoint lstrip (s : string) : string :=
  match s with
  | EmptyString => EmptyString
  | String c r => if is_space c then lstrip r else s
  end.

(** [s.rstrip()] *)
Fixpoint rstrip (s : string) : string :=
  match s with
  | EmptyString => EmptyString
  | String c r =>
      match rstrip r with
      | EmptyString => if is_space c then EmptyString else String c EmptyString
      | r' => String c r'
      end
  end.

(** [s.strip()] *)
Definition strip (s : string) : string := rstrip (lstrip s).

(** [s.split(sep)] for a one-character separator: never the empty list. *)
Fixpoint split (sep : ascii) (s : string) : list string :=
  match s with
  | EmptyString => [EmptyString]
  | String c r =>
      if Ascii.eqb c sep then EmptyString :: split sep r
      else match split sep r with
           | [] => [String c EmptyString]
           | p :: ps => String c p :: ps
           end
  end.

(** [c in s] for a one-character [c]. *)
Fixpoint contains_char (c : ascii) (s : string) : bool :=
  match s with
  | EmptyString => false
  | String d r => Ascii.eqb d c || contains_char c r
  end.

(** [s.startswith(c)] and [s.endswith(c)] for a one-character [c]. *)
Definition startswith (c : ascii) (s : string) : bool :=
  match s with
  | EmptyString => false
  | String d _ => Ascii.eqb d c
  end.

Fixpoint endswith (c : ascii) (s : string) : bool :=
  match s with
  | EmptyString => false
  | String d EmptyString => Ascii.eqb d c
  | String _ r => endswith c r
  end.

(** [s[:-1]] *)
Fixpoint drop_last (s : string) : string :=
  match s with
  | EmptyString => EmptyString
  | String _ EmptyString => EmptyString
  | String c r => String c (drop_last r)
  end.

(** [s[1:-1]] *)
Definition slice_1_m1 (s : string) : string :=
  match s with
  | EmptyString => EmptyString
  | String _ r => drop_last r
  end.

Fixpoint take (n : nat) (s : string) : string :=
  match n, s with
  | O, _ => EmptyString
  | _, EmptyString => EmptyString
  | S n', String c r => String c (take n' r)
  end.

Definition len (s : string) : Z := Z.of_nat (String.length s).

(** [s[:n]] for any integer [n]: a negative [n] counts from the end. *)
Definition slice_to (n : Z) (s : string) : string :=
  if 0 <=? n then take (Z.to_nat n) s
  else take (Z.to_nat (len s + n)) s.

(** [sub in s] for text. *)
Fixpoint is_substring (sub s : string) : bool :=
  String.prefix sub s
  || match s with
     | EmptyString => false
     | String _ r => is_substring sub r
     end.

(** ** [int(text)] in base 10

    An optional sign, then digits; single underscores may separate digits.
    The caller has stripped the text. *)

Definition digit_val (c : ascii) : Z := Z.of_N (code c) - 48.

(** Digits with single interior underscores, most significant first;
    [after_digit] says whether the previous character was a digit, [acc] is
    the value read so far. *)
Fixpoint digits_from (after_digit : bool) (acc : Z) (s : string) : option Z :=
  match s with
  | EmptyString => if after_digit then Some acc else None
  | String c r =>
      if is_digit c then digits_from true (10 * acc + digit_val c) r
      else if Ascii.eqb c "_"%char && after_digit then digits_from false acc r
      else None
  end.

Definition split_sign (s : string) : bool * string :=
  match s with
  | String "-"%char r => (true, r)
  | String "+"%char r => (false, r)
  | _ => (false, s)
  end.

Definition py_int (s : string) : option Z :=
  let '(neg, body) := split_sign s in
  match digits_from false 0 body with
  | Some n => Some (if neg then - n else n)
  | None => None
  end.

End PyStr.

(** ** Values, exceptions and the interpreter's own functions *)

(** The values rules are evaluated on: JSON-like data; record objects (the
    execution context), read by attribute; and, since a path may name an
    attribute of any object, the objects that are no data (a bound method, a
    class), known by the name of their type and a tag that tells apart those
    that do not compare equal. *)
Inductive value : Type :=
| VNone
| VBool (b : bool)
| VInt (n : Z)
| VFloat (f : spec_float)
| VStr (s : string)
| VList (l : list value)
| VDict (d : list (string * value))
| VObj (cls : string) (fields : list (string * value))
| VOther (tname ident : string).

(** The exceptions the modelled code raises or lets through. *)
Inductive exn : Type :=
| RuleParseError (msg : string)
| TypeError (msg : string)
| ValueError (msg : string)
| AttributeError (msg : string)
| OverflowError (msg : string)
| GuardrailBlockError (guardrail_name stage message : string)
    (details : list (string * value)).

(** [str(e)] for an exception. *)
Definition exn_text (e : exn) : string :=
  match e with
  | RuleParseError m | TypeError m | ValueError m | AttributeError m
  | OverflowError m => m
  | GuardrailBlockError _ _ m _ => m
  end.

Inductive result (A : Type) : Type :=
| Ok (a : A)
| Raise (e : exn).
Arguments Ok {A} a.
Arguments Raise {A} e.

Definition bind {A B} (m : result A) (k : A -> result B) : result B :=
  match m with
  | Ok a => k a
  | Raise e => Raise e
  end.

Notation "'let*' x ':=' m 'in' k" := (bind m (fun x => k))
  (at level 10, x pattern, m at level 100, k at level 200).

(** What the interpreter and its libraries compute, and this development
    does not: the digit limit of [int()], binary64 rounding, [repr] of
    floats and of containers, the JSON parser, the regex engine and the
    clock. *)
Record runtime : Type := {
  (** [sys.get_int_max_str_digits()]: the longest digit text [int()]
      converts, [0] for no limit *)
  int_max_str_digits : nat;
  (** the float nearest to [(-1)^neg * m * 10^e] *)
  round_decimal : bool -> Z -> Z -> spec_float;
  (** [float(n)] for an integer; [None] is [OverflowError] *)
  float_of_int : Z -> option spec_float;
  (** [str(v)] for a float, a list, a mapping or an object; it raises on a
      container that holds an integer too long to print *)
  repr_other : value -> result string;
  (** whether [json.loads(s)] returns *)
  json_loads_ok : string -> bool;
  (** [bool(re.match(pattern, s))]; [None] is [re.error] *)
  re_match : string -> string -> option bool;
  (** [ctx.elapsed_ms()] at the time of the call *)
  clock_elapsed_ms : value -> Z;
  (** [getattr(v, name)] for an attribute that is no field of a record: a
      method or a property of the type of [v]; [None] when [v] has no such
      attribute *)
  builtin_attr : value -> string -> option value
}.

(** *** Mappings *)

Fixpoint dict_get {A} (k : string) (d : list (string * A)) : option A :=
  match d with
  | [] => None
  | (k', v) :: r => if String.eqb k k' then Some v else dict_get k r
  end.

(** [d[k] = v]: the binding is replaced in place, or added at the end. *)
Fixpoint dict_set {A} (k : string) (v : A) (d : list (string * A))
  : list (string * A) :=
  match d with
  | [] => [(k, v)]
  | (k', v') :: r =>
      if String.eqb k k' then (k, v) :: r else (k', v') :: dict_set k v r
  end.

(** [d.get(k)]: a missing key reads as [None]. *)
Definition py_dict_get (k : string) (d : list (string * value)) : value :=
  match dict_get k d with
  | Some v => v
  | None => VNone
  end.

(** *** Type names, truth, [len] and [str] *)

Definition type_name (v : value) : string :=
  match v with
  | VNone => "NoneType"
  | VBool _ => "bool"
  | VInt _ => "int"
  | VFloat _ => "float"
  | VStr _ => "str"
  | VList _ => "list"
  | VDict _ => "dict"
  | VObj cls _ => cls
  | VOther tname _ => tname
  end.

Definition is_none (v : value) : bool :=
  match v with VNone => true | _ => false end.

Definition is_str (v : value) : bool :=
  match v with VStr _ => true | _ => false end.

Definition is_dict (v : value) : bool :=
  match v with VDict _ => true | _ => false end.

Fixpoint pos_digits (fuel : nat) (n : Z) (acc : string) : string :=
  match fuel with
  | O => acc
  | S fuel' =>
      let d := String (ascii_of_N (Z.to_N (n mod 10) + 48)) acc in
      if n <? 10 then d else pos_digits fuel' (n / 10) d
  end.

(** [str(n)] for an integer. *)
Definition str_of_int (n : Z) : string :=
  if n <? 0 then String "-"%char (pos_digits (Z.to_nat (Z.log2 (- n) + 1)) (- n) "")
  else pos_digits (Z.to_nat (Z.log2 n + 1)) n "".

Fixpoint count_digits (s : string) : nat :=
  match s with
  | EmptyString => O
  | String c r => if PyStr.is_digit c then S (count_digits r) else count_digits r
  end.

(** Whether a digit text is longer than the interpreter converts. *)
Definition over_digit_limit (rt : runtime) (s : string) : bool :=
  match int_max_str_digits rt with
  | O => false
  | limit => (limit <? count_digits s)%nat
  end.

(** [str(v)] *)
Definition py_str (rt : runtime) (v : value) : result string :=
  match v with
  | VStr s => Ok s
  | VNone => Ok "None"
  | VBool true => Ok "True"
  | VBool false => Ok "False"
  | VInt n =>
      let s := str_of_int n in
      if over_digit_limit rt s
      then Raise (ValueError "Exceeds the limit for integer string conversion")
      else Ok s
  | _ => repr_other rt v
  end.

(** *** Numbers *)

Inductive num : Type :=
| NInt (n : Z)
| NFloat (f : spec_float).

Definition num_of (v : value) : option num :=
  match v with
  | VBool b => Some (NInt (if b then 1 else 0))
  | VInt n => Some (NInt n)
  | VFloat f => Some (NFloat f)
  | _ => None
  end.

(** An integer against a float, exactly, as Python compares them; [None]
    when the float is a NaN. *)
Definition cmp_int_float (n : Z) (f : spec_float) : option comparison :=
  match f with
  | S754_nan => None
  | S754_infinity neg => Some (if neg then Gt else Lt)
  | S754_zero _ => Some (n ?= 0)
  | S754_finite neg m e =>
      let mz := if neg then Z.neg m else Z.pos m in
      if 0 <=? e then Some (n ?= mz * 2 ^ e) else Some (n * 2 ^ (- e) ?= mz)
  end.

Definition num_cmp (a b : num) : option comparison :=
  match a, b with
  | NInt x, NInt y => Some (x ?= y)
  | NInt x, NFloat g => cmp_int_float x g
  | NFloat f, NInt y => option_map CompOpp (cmp_int_float y f)
  | NFloat f, NFloat g => SFcompare f g
  end.

Inductive ordering_op : Type := OpLt | OpLe | OpGt | OpGe.

Definition op_symbol (op : ordering_op) : string :=
  match op with
  | OpLt => "<" | OpLe => "<=" | OpGt => ">" | OpGe => ">="
  end.

(** An ordering operator read on a three-way comparison; an unordered pair
    (a NaN) satisfies none. *)
Definition holds (op : ordering_op) (c : option comparison) : bool :=
  match op, c with
  | OpLt, Some Lt => true
  | OpLe, Some (Lt | Eq) => true
  | OpGt, Some Gt => true
  | OpGe, Some (Gt | Eq) => true
  | _, _ => false
  end.

Definition num_eq (a b : num) : bool :=
  match num_cmp a b with
  | Some Eq => true
  | _ => false
  end.

(** *** Equality, ordering and containment *)

(** [a == b].  Numbers compare across [bool], [int] and [float]; lists
    compare element by element; mappings compare as sets of bindings; record
    objects of one class compare field by field. *)
Fixpoint py_eq (a b : value) {struct a} : bool :=
  match a, b with
  | VNone, VNone => true
  | VStr s, VStr t => String.eqb s t
  | VList l, VList m =>
      (fix go (l m : list value) {struct l} : bool :=
         match l, m with
         | [], [] => true
         | x :: l', y :: m' => py_eq x y && go l' m'
         | _, _ => false
         end) l m
  | VDict d, VDict e =>
      (length d =? length e)%nat
      && (fix go (d : list (string * value)) {struct d} : bool :=
            match d with
            | [] => true
            | (k, v) :: d' =>
                match dict_get k e with
                | Some w => py_eq v w
                | None => false
                end && go d'
            end) d
  | VObj c f, VObj c' f' =>
      String.eqb c c'
      && (fix go (f g : list (string * value)) {struct f} : bool :=
            match f, g with
            | [], [] => true
            | (_, v) :: f', (_, w) :: g' => py_eq v w && go f' g'
            | _, _ => false
            end) f f'
  | VOther t i, VOther t' i' => String.eqb t t' && String.eqb i i'
  | _, _ =>
      match num_of a, num_of b with
      | Some x, Some y => num_eq x y
      | _, _ => false
      end
  end.

Definition order_type_error (op : ordering_op) (a b : value) : exn :=
  TypeError ("'" ++ op_symbol op ++ "' not supported between instances of '"
             ++ type_name a ++ "' and '" ++ type_name b ++ "'").

(** [a op b] for an ordering operator: numbers, text against text, lists
    against lists (by their first differing elements); anything else is a
    [TypeError]. *)
Fixpoint py_order (op : ordering_op) (a b : value) {struct a} : result bool :=
  match a, b with
  | VStr s, VStr t => Ok (holds op (Some (String.compare s t)))
  | VList l, VList m =>
      (fix go (l m : list value) {struct l} : result bool :=
         match l, m with
         | x :: l', y :: m' => if py_eq x y then go l' m' else py_order op x y
         | [], [] => Ok (holds op (Some Eq))
         | [], _ :: _ => Ok (holds op (Some Lt))
         | _ :: _, [] => Ok (holds op (Some Gt))
         end) l m
  | _, _ =>
      match num_of a, num_of b with
      | Some x, Some y => Ok (holds op (num_cmp x y))
      | _, _ => Raise (order_type_error op a b)
      end
  end.

(** Whether [hash(v)] returns: lists, mappings and the (unfrozen) record
    objects are unhashable. *)
Definition hashable (v : value) : bool :=
  match v with
  | VList _ | VDict _ | VObj _ _ => false
  | _ => true
  end.

Definition unhashable_error (v : value) : exn :=
  TypeError ("unhashable type: '" ++ type_name v ++ "'").

(** [x in c] *)
Definition py_in (x c : value) : result bool :=
  match c with
  | VStr s =>
      match x with
      | VStr sub => Ok (PyStr.is_substring sub s)
      | _ => Raise (TypeError ("'in <string>' requires string as left operand, not "
                               ++ type_name x))
      end
  | VList l => Ok (existsb (py_eq x) l)
  | VDict d =>
      if hashable x then
        match x with
        | VStr k => Ok (match dict_get k d with Some _ => true | None => false end)
        | _ => Ok false
        end
      else Raise (unhashable_error x)
  | _ => Raise (TypeError ("argument of type '" ++ type_name c ++ "' is not iterable"))
  end.

(** [bool(v)] *)
Definition truthy (v : value) : bool :=
  match v with
  | VNone => false
  | VBool b => b
  | VInt n => negb (n =? 0)
  | VFloat f => negb (SFeqb f (S754_zero false))
  | VStr s => negb (String.eqb s "")
  | VList l => match l with [] => false | _ => true end
  | VDict d => match d with [] => false | _ => true end
  | VObj _ _ => true
  | VOther _ _ => true
  end.

(** The elements a [for] loop over [v] visits. *)
Fixpoint chars (s : string) : list value :=
  match s with
  | EmptyString => []
  | String c r => VStr (String c EmptyString) :: chars r
  end.

Definition py_iter (v : value) : result (list value) :=
  match v with
  | VList l => Ok l
  | VStr s => Ok (chars s)
  | VDict d => Ok (map (fun kv => VStr (fst kv)) d)
  | _ => Raise (TypeError ("'" ++ type_name v ++ "' object is not iterable"))
  end.

(** Every character of a text is in a class. *)
Fixpoint all_chars (p : ascii -> bool) (s : string) : bool :=
  match s with
  | EmptyString => true
  | String c r => p c && all_chars p r
  end.

(** An identifier: the names the attributes of a type have. *)
Definition is_identifier (s : string) : bool :=
  match s with
  | EmptyString => false
  | String c r => PyStr.is_word c && negb (PyStr.is_digit c)
                  && all_chars PyStr.is_word r
  end.

(** [hasattr(v, name)] and [getattr(v, name)] in one: a field of a record
    object, or an attribute of the type of [v], whose name is an
    identifier. *)
Definition attribute (rt : runtime) (v : value) (name : string) : option value :=
  let of_type := if is_identifier name then builtin_attr rt v name else None in
  match v with
  | VObj _ fields =>
      match dict_get name fields with
      | Some x => Some x
      | None => of_type
      end
  | _ => of_type
  end.

(** [obj.name] where the code reads an attribute without a guard. *)
Definition py_getattr (rt : runtime) (obj : value) (name : string) : result value :=
  match attribute rt obj name with
  | Some v => Ok v
  | None => Raise (AttributeError ("'" ++ type_name obj
                                   ++ "' object has no attribute '" ++ name ++ "'"))
  end.

(** *** [int(text)] and [float(x)] *)

(** [int(text)]; [None] is [ValueError], raised on text that is not an
    integer literal and on one with more digits than the interpreter's
    limit. *)
Definition int_of_text (rt : runtime) (s : string) : option Z :=
  match PyStr.py_int s with
  | Some n => if over_digit_limit rt s then None else Some n
  | None => None
  end.

(** A maximal run [digit (_? digit)*] at the head of [s]: its value, its
    number of digits, and what follows.  No digit at the head reads as an
    empty run. *)
Fixpoint read_digits (acc : Z) (n : nat) (s : string) : Z * nat * string :=
  match s with
  | String c r =>
      if PyStr.is_digit c then read_digits (10 * acc + PyStr.digit_val c) (S n) r
      else if Ascii.eqb c "_"%char then
        match n, r with
        | S _, String d r' =>
            if PyStr.is_digit d
            then read_digits (10 * acc + PyStr.digit_val d) (S n) r'
            else (acc, n, s)
        | _, _ => (acc, n, s)
        end
      else (acc, n, s)
  | EmptyString => (acc, n, s)
  end.

(** The exponent part [e[+-]digits], or nothing. *)
Definition read_exponent (s : string) : option (Z * string) :=
  match s with
  | String c r =>
      if Ascii.eqb (PyStr.lower_char c) "e"%char then
        let '(neg, body) := PyStr.split_sign r in
        let '(v, n, rest) := read_digits 0 0 body in
        match n with
        | O => None
        | S _ => Some (if neg then - v else v, rest)
        end
      else Some (0, s)
  | EmptyString => Some (0, s)
  end.

(** A decimal float literal without its sign: mantissa and power of ten. *)
Definition read_decimal (s : string) : option (Z * Z) :=
  let '(ip, ni, r1) := read_digits 0 0 s in
  let '(m, nf, r2) :=
    match r1 with
    | String "."%char r => let '(v, n, r') := read_digits ip 0 r in (v, n, r')
    | _ => (ip, O, r1)
    end in
  match (ni + nf)%nat with
  | O => None
  | S _ =>
      match read_exponent r2 with
      | Some (e, EmptyString) => Some (m, e - Z.of_nat nf)
      | _ => None
      end
  end.

(** [float(text)]; [None] is [ValueError]. *)
Definition float_of_text (rt : runtime) (s : string) : option spec_float :=
  let '(neg, body) := PyStr.split_sign (PyStr.strip s) in
  let low := PyStr.lower body in
  if String.eqb low "inf" || String.eqb low "infinity" then Some (S754_infinity neg)
  else if String.eqb low "nan" then Some S754_nan
  else match read_decimal body with
       | Some (m, e) => Some (round_decimal rt neg m e)
       | None => None
       end.

(** [float(v)] *)
Definition py_float (rt : runtime) (v : value) : result spec_float :=
  match v with
  | VFloat f => Ok f
  | VBool _ | VInt _ =>
      let n := match v with VInt n => n | VBool true => 1 | _ => 0 end in
      match float_of_int rt n with
      | Some f => Ok f
      | None => Raise (OverflowError "int too large to convert to float")
      end
  | VStr s =>
      match float_of_text rt s with
      | Some f => Ok f
      | None => Raise (ValueError ("could not convert string to float: '" ++ s ++ "'"))
      end
  | _ => Raise (TypeError ("float() argument must be a string or a real number, not '"
                           ++ type_name v ++ "'"))
  end.

(** ** The builtin rules ([rules.py]) *)

Section Rules.

Variable rt : runtime.

(** [max_length(value, limit)] *)
Definition max_length (value limit : value) : result bool :=
  if is_none value then Ok true
  else let* text := py_str rt value in py_order OpLe (VInt (PyStr.len text)) limit.

(** [min_length(value, limit)] *)
Definition min_length (value limit : value) : result bool :=
  if is_none value then Ok false
  else let* text := py_str rt value in
       py_order OpGe (VInt (PyStr.len (PyStr.strip text))) limit.

(** [required(value)] *)
Definition required (value : value) : bool :=
  match value with
  | VNone => false
  | VStr s => negb (String.eqb (PyStr.strip s) "")
  | VList [] => false
  | VDict [] => false
  | _ => true
  end.

(** [valid_json(value)] *)
Definition valid_json (value : value) : bool :=
  match value with
  | VNone => false
  | VDict _ | VList _ => true
  | VStr s => json_loads_ok rt s
  | _ => false
  end.

(** [valid_enum(value, allowed)] *)
Definition valid_enum (value allowed : value) : result bool :=
  py_in value allowed.

(** [in_range(value, min_val, max_val)]: the [try] block turns a
    [TypeError] or a [ValueError] into [False] and lets anything else
    through. *)
Definition in_range (value min_val max_val : value) : result bool :=
  if is_none value then Ok false
  else
    let body :=
      let* num := py_float rt value in
      let* lo := py_order OpLe min_val (VFloat num) in
      if lo then py_order OpLe (VFloat num) max_val else Ok false in
    match body with
    | Raise (TypeError _) | Raise (ValueError _) => Ok false
    | r => r
    end.

(** The loop of [required_fields] over the field names still to visit. *)
Fixpoint required_fields_loop (obj : list (string * value)) (fields : list value)
  : result bool :=
  match fields with
  | [] => Ok true
  | field_name :: rest =>
      if hashable field_name then
        let value := match field_name with
                     | VStr k => py_dict_get k obj
                     | _ => VNone
                     end in
        if required value then required_fields_loop obj rest else Ok false
      else Raise (unhashable_error field_name)
  end.

(** [required_fields(obj, fields)] *)
Definition required_fields (obj fields : value) : result bool :=
  match obj with
  | VDict d => let* names := py_iter fields in required_fields_loop d names
  | _ => Ok false
  end.

(** [matches_pattern(value, pattern)] *)
Definition matches_pattern (value pattern : value) : result bool :=
  if is_none value then Ok false
  else
    let* text := py_str rt value in
    match pattern with
    | VStr p =>
        match re_match rt p text with
        | Some b => Ok b
        | None => Ok false
        end
    | _ => Raise (TypeError "first argument must be string or compiled pattern")
    end.

(** [max_tool_calls(context, limit)] *)
Definition max_tool_calls (context limit : value) : result bool :=
  let* n := py_getattr rt context "tool_call_count" in py_order OpLe n limit.

(** [max_iterations(context, limit)] *)
Definition max_iterations (context limit : value) : result bool :=
  let* n := py_getattr rt context "iteration_count" in py_order OpLe n limit.

(** [all(tool in allowed for tool in tools)] *)
Fixpoint all_in (allowed : value) (tools : list value) : result bool :=
  match tools with
  | [] => Ok true
  | tool :: rest =>
      let* b := py_in tool allowed in
      if b then all_in allowed rest else Ok false
  end.

(** [allowed_tools(context, allowed)] *)
Definition allowed_tools (context allowed : value) : result bool :=
  let* calls := py_getattr rt context "tool_calls" in
  if negb (truthy calls) then Ok true
  else let* tools := py_iter calls in all_in allowed tools.

(** [timeout(context, limit_ms)]: [elapsed_ms] is a method of the execution
    context only. *)
Definition timeout (context limit_ms : value) : result bool :=
  match context with
  | VObj "GuardrailContext" _ =>
      py_order OpLe (VInt (clock_elapsed_ms rt context)) limit_ms
  | _ => Raise (AttributeError ("'" ++ type_name context
                                ++ "' object has no attribute 'elapsed_ms'"))
  end.

(** *** Calling a rule on an unpacked argument list *)

Fixpoint quote_names (names : list string) : string :=
  match names with
  | [] => ""
  | [a] => "'" ++ a ++ "'"
  | [a; b] => "'" ++ a ++ "' and '" ++ b ++ "'"
  | a :: rest =>
      "'" ++ a ++ "', "
      ++ match rest with
         | [b; c] => "'" ++ b ++ "', and '" ++ c ++ "'"
         | _ => quote_names rest
         end
  end.

Definition plural (n : nat) (word : string) : string :=
  match n with
  | 1%nat => word
  | _ => word ++ "s"
  end.

(** The [TypeError] of a call with the wrong number of positional
    arguments. *)
Definition arity_error (fname : string) (params : list string) (given : nat) : exn :=
  let need := length params in
  if (given <? need)%nat then
    let missing := drop given params in
    TypeError (fname ++ "() missing " ++ str_of_int (Z.of_nat (length missing))
               ++ " required positional " ++ plural (length missing) "argument"
               ++ ": " ++ quote_names missing)
  else
    TypeError (fname ++ "() takes " ++ str_of_int (Z.of_nat need)
               ++ " positional " ++ plural need "argument" ++ " but "
               ++ str_of_int (Z.of_nat given)
               ++ (match given with 1%nat => " was given" | _ => " were given" end)).

(** A registered rule: a function of the positional arguments. *)
Definition rule_fn : Type := list value -> result bool.

Definition call1 (fname p1 : string) (f : value -> result bool) : rule_fn :=
  fun args =>
    match args with
    | [a] => f a
    | _ => Raise (arity_error fname [p1] (length args))
    end.

Definition call2 (fname p1 p2 : string) (f : value -> value -> result bool)
  : rule_fn :=
  fun args =>
    match args with
    | [a; b] => f a b
    | _ => Raise (arity_error fname [p1; p2] (length args))
    end.

Definition call3 (fname p1 p2 p3 : string)
  (f : value -> value -> value -> result bool) : rule_fn :=
  fun args =>
    match args with
    | [a; b; c] => f a b c
    | _ => Raise (arity_error fname [p1; p2; p3] (length args))
    end.

(** The registry [_rules] once [rules.py] is imported. *)
Definition builtin_rules : gmap string rule_fn :=
  list_to_map
    [ ("max_length", call2 "max_length" "value" "limit" max_length);
      ("min_length", call2 "min_length" "value" "limit" min_length);
      ("required", call1 "required" "value" (fun v => Ok (required v)));
      ("valid_json", call1 "valid_json" "value" (fun v => Ok (valid_json v)));
      ("valid_enum", call2 "valid_enum" "value" "allowed" valid_enum);
      ("in_range", call3 "in_range" "value" "min_val" "max_val" in_range);
      ("required_fields", call2 "required_fields" "obj" "fields" required_fields);
      ("matches_pattern", call2 "matches_pattern" "value" "pattern" matches_pattern);
      ("max_tool_calls", call2 "max_tool_calls" "context" "limit" max_tool_calls);
      ("max_iterations", call2 "max_iterations" "context" "limit" max_iterations);
      ("allowed_tools", call2 "allowed_tools" "context" "allowed" allowed_tools);
      ("timeout", call2 "timeout" "context" "limit_ms" timeout) ].

End Rules.

(** ** The rule parser and evaluator ([rules.py]) *)

Definition squote : ascii := ascii_of_nat 39.
Definition dquote : ascii := ascii_of_nat 34.
Definition newline : ascii := ascii_of_nat 10.

(** The loop of [_get_nested_value] over the segments still to follow. *)
Fixpoint follow (rt : runtime) (current : value) (parts : list string) : value :=
  match parts with
  | [] => current
  | part :: rest =>
      match current with
      | VDict d => follow rt (py_dict_get part d) rest
      | _ =>
          match attribute rt current part with
          | Some v => follow rt v rest
          | None => VNone
          end
      end
  end.

(** [_get_nested_value(obj, path)] *)
Definition _get_nested_value (rt : runtime) (obj : value) (path : string) : value :=
  follow rt obj (PyStr.split "." path).

(** The marker [{"__path__": token}] of a path reference. *)
Definition path_marker (token : string) : value :=
  VDict [("__path__", VStr token)].

(** [_tokenize_args]: the scanner state is the arguments closed so far, the
    text of the current one, the bracket depth and the open quote. *)
Record tok_state : Type := {
  tk_args : list string;
  tk_current : string;
  tk_depth : Z;
  tk_in_string : option ascii
}.

Definition push (s : string) (c : ascii) : string := s ++ String c EmptyString.

Definition tok_step (st : tok_state) (char : ascii) : tok_state :=
  let keep := {| tk_args := tk_args st; tk_current := push (tk_current st) char;
                 tk_depth := tk_depth st; tk_in_string := tk_in_string st |} in
  match tk_in_string st with
  | None =>
      if Ascii.eqb char dquote || Ascii.eqb char squote then
        {| tk_args := tk_args st; tk_current := push (tk_current st) char;
           tk_depth := tk_depth st; tk_in_string := Some char |}
      else if Ascii.eqb char "["%char then
        {| tk_args := tk_args st; tk_current := push (tk_current st) char;
           tk_depth := tk_depth st + 1; tk_in_string := None |}
      else if Ascii.eqb char "]"%char then
        {| tk_args := tk_args st; tk_current := push (tk_current st) char;
           tk_depth := tk_depth st - 1; tk_in_string := None |}
      else if Ascii.eqb char ","%char && (tk_depth st =? 0) then
        {| tk_args := tk_args st ++ [PyStr.strip (tk_current st)];
           tk_current := ""; tk_depth := tk_depth st; tk_in_string := None |}
      else keep
  | Some q =>
      if Ascii.eqb char q then
        {| tk_args := tk_args st; tk_current := push (tk_current st) char;
           tk_depth := tk_depth st; tk_in_string := None |}
      else keep
  end.

Fixpoint tok_run (st : tok_state) (s : string) : tok_state :=
  match s with
  | EmptyString => st
  | String c r => tok_run (tok_step st c) r
  end.

(** [_tokenize_args(args_str)] *)
Definition _tokenize_args (args_str : string) : list string :=
  let st := tok_run {| tk_args := []; tk_current := ""; tk_depth := 0;
                       tk_in_string := None |} args_str in
  let final := PyStr.strip (tk_current st) in
  if String.eqb final "" then tk_args st else tk_args st ++ [final].

(** *** The two rule grammars

    [evaluate_rule] matches the stripped rule text against two regular
    expressions.  The matchers below follow the regex engine's search order
    on such text (whose last character is not whitespace). *)

(** The longest prefix of characters in a class, and the rest. *)
Fixpoint span (p : ascii -> bool) (s : string) : string * string :=
  match s with
  | String c r =>
      if p c then let '(a, b) := span p r in (String c a, b) else (EmptyString, s)
  | EmptyString => (EmptyString, EmptyString)
  end.

(** The function-call pattern, matched with [re.DOTALL]: a name [\w+],
    blanks, an opening parenthesis, blanks, the argument text (greedy, any
    characters), blanks, and a closing parenthesis at the end.  The result is
    the name and the argument text. *)
Definition func_match (rule : string) : option (string * string) :=
  let '(name, r1) := span PyStr.is_word rule in
  match name, PyStr.lstrip r1 with
  | String _ _, String "("%char r3 =>
      if PyStr.endswith ")"%char r3
      then Some (name, PyStr.drop_last (PyStr.lstrip r3))
      else None
  | _, _ => None
  end.

(** What follows an operator: blanks, then one or more characters other
    than a newline, up to the end. *)
Definition operand_after (s : string) : option string :=
  match PyStr.lstrip s with
  | EmptyString => None
  | b => if PyStr.contains_char newline b then None else Some b
  end.

(** [s] starts with [word], letter case ignored; the rest of [s]. *)
Fixpoint ci_prefix (word s : string) : option string :=
  match word, s with
  | EmptyString, _ => Some s
  | String w word', String c s' =>
      if Ascii.eqb (PyStr.lower_char c) w then ci_prefix word' s' else None
  | _, EmptyString => None
  end.

(** The regex [\b] after a word character: the end, or no word character. *)
Definition word_end (s : string) : bool :=
  match s with
  | EmptyString => true
  | String c _ => negb (PyStr.is_word c)
  end.

(** [\bin\b] at the head of [s], [prev] being the character before. *)
Definition kw_in (prev : ascii) (s : string) : option (string * string) :=
  if PyStr.is_word prev then None
  else match ci_prefix "in" s with
       | Some r => if word_end r
                   then Some (substring 0 2 s, r) else None
       | None => None
       end.

(** [\bnot\s+in\b] at the head of [s]. *)
Definition kw_not_in (prev : ascii) (s : string) : option (string * string) :=
  if PyStr.is_word prev then None
  else match ci_prefix "not" s with
       | Some r =>
           let '(ws, r') := span PyStr.is_space r in
           match ws, ci_prefix "in" r' with
           | String _ _, Some r'' =>
               if word_end r''
               then Some (substring 0 (3 + String.length ws + 2) s, r'')
               else None
           | _, _ => None
           end
       | None => None
       end.

Definition sym (op s : string) : option (string * string) :=
  match ci_prefix op s with
  | Some r => Some (op, r)
  | None => None
  end.

(** The alternation [==|!=|>=|<=|>|<|\bin\b|\bnot\s+in\b] at the head of
    [s], in its order: each alternative that matches, with the text it
    matched and what follows. *)
Definition operators_at (prev : ascii) (s : string) : list (string * string) :=
  omap (fun x => x)
    [ sym "==" s; sym "!=" s; sym ">=" s; sym "<=" s; sym ">" s; sym "<" s;
      kw_in prev s; kw_not_in prev s ].

(** The first alternative after which an operand follows. *)
Fixpoint first_operator (cands : list (string * string))
  : option (string * string) :=
  match cands with
  | [] => None
  | (op, r) :: more =>
      match operand_after r with
      | Some b => Some (op, b)
      | None => first_operator more
      end
  end.

(** The last character of [pre ++ ws], [pre] not empty. *)
Definition last_char (s : string) : ascii :=
  match String.get (String.length s - 1) s with
  | Some c => c
  | None => " "%char
  end.

(** The comparison pattern, matched with [re.IGNORECASE]: a lazy group of
    one or more characters other than a newline, blanks, an operator, blanks
    and the operand.  The lazy group grows one character at a time; [pre] is
    the group tried, [suf] the text after it. *)
Fixpoint comparison_scan (pre suf : string) : option (string * string * string) :=
  let '(ws, s) := span PyStr.is_space suf in
  match first_operator (operators_at (last_char (pre ++ ws)) s) with
  | Some (op, operand) => Some (pre, op, operand)
  | None =>
      match suf with
      | EmptyString => None
      | String c r =>
          if Ascii.eqb c newline then None else comparison_scan (push pre c) r
      end
  end.

Definition comparison_match (rule : string) : option (string * string * string) :=
  match rule with
  | EmptyString => None
  | String c r =>
      if Ascii.eqb c newline then None
      else comparison_scan (String c EmptyString) r
  end.

(** [s.replace(" ", "_")] *)
Fixpoint spaces_to_underscores (s : string) : string :=
  match s with
  | EmptyString => EmptyString
  | String c r =>
      String (if Ascii.eqb c " "%char then "_"%char else c) (spaces_to_underscores r)
  end.

Section Evaluator.

Variable rt : runtime.

(** The registry [_rules] at the time of the call. *)
Variable _rules : gmap string rule_fn.

(** [get_rule(name)] *)
Definition get_rule (name : string) : option rule_fn := _rules !! name.

(** The numeric branch of [_parse_literal]: [float(token)] when the token
    holds a decimal point, [int(token)] otherwise; [None] is the
    [ValueError] the code passes over. *)
Definition parse_number (token : string) : option value :=
  if PyStr.contains_char "."%char token
  then option_map VFloat (float_of_text rt token)
  else option_map VInt (int_of_text rt token).

Definition quoted (token : string) : bool :=
  PyStr.startswith squote token && PyStr.endswith squote token
  || PyStr.startswith dquote token && PyStr.endswith dquote token.

Definition bracketed (token : string) : bool :=
  PyStr.startswith "["%char token && PyStr.endswith "]"%char token.

(** [_parse_literal(token)], the recursion on list items bounded by
    [fuel]. *)
Fixpoint parse_literal_fuel (fuel : nat) (token : string) : value :=
  let token := PyStr.strip token in
  let low := PyStr.lower token in
  if String.eqb low "none" || String.eqb low "null" then VNone
  else if String.eqb low "true" then VBool true
  else if String.eqb low "false" then VBool false
  else
    match parse_number token with
    | Some v => v
    | None =>
        if quoted token then VStr (PyStr.slice_1_m1 token)
        else if bracketed token then
          let inner := PyStr.strip (PyStr.slice_1_m1 token) in
          if String.eqb inner "" then VList []
          else
            match fuel with
            | O => VList []
            | S fuel' =>
                VList (map (fun item => parse_literal_fuel fuel' (PyStr.strip item))
                         (PyStr.split ","%char inner))
            end
        else path_marker token
    end.

(** [_parse_literal(token)]: a list item is shorter than the list, so the
    length of the token bounds the recursion. *)
Definition _parse_literal (token : string) : value :=
  parse_literal_fuel (String.length token) token.

(** [_resolve_value(token, context)] *)
Definition _resolve_value (token context : value) : result value :=
  match token with
  | VDict d =>
      match dict_get "__path__" d with
      | Some (VStr path) => Ok (_get_nested_value rt context path)
      | Some p => Raise (AttributeError ("'" ++ type_name p
                                         ++ "' object has no attribute 'split'"))
      | None => Ok token
      end
  | _ => Ok token
  end.

Definition ordering_of (operator : string) : option ordering_op :=
  if String.eqb operator ">" then Some OpGt
  else if String.eqb operator "<" then Some OpLt
  else if String.eqb operator ">=" then Some OpGe
  else if String.eqb operator "<=" then Some OpLe
  else None.

(** [_evaluate_comparison(left, operator, right, context)] *)
Definition _evaluate_comparison (left operator right : string) (context : value)
  : result bool :=
  let* left_val := _resolve_value (_parse_literal left) context in
  let* right_val := _resolve_value (_parse_literal right) context in
  if String.eqb operator "==" then Ok (py_eq left_val right_val)
  else if String.eqb operator "!=" then Ok (negb (py_eq left_val right_val))
  else
    match ordering_of operator with
    | Some op =>
        if is_none left_val || is_none right_val then Ok false
        else py_order op left_val right_val
    | None =>
        if String.eqb operator "in" then
          if is_none right_val then Ok false else py_in left_val right_val
        else if String.eqb operator "not_in" then
          if is_none right_val then Ok true
          else let* b := py_in left_val right_val in Ok (negb b)
        else Raise (RuleParseError ("Unknown operator: " ++ operator))
    end.

(** The argument loop of [_evaluate_function]. *)
Fixpoint resolve_args (tokens : list string) (context : value)
  : result (list value) :=
  match tokens with
  | [] => Ok []
  | token :: rest =>
      let* resolved := _resolve_value (_parse_literal token) context in
      let* more := resolve_args rest context in
      Ok (resolved :: more)
  end.

(** [_evaluate_function(func_name, args_str, context)] *)
Definition _evaluate_function (func_name args_str : string) (context : value)
  : result bool :=
  match get_rule func_name with
  | None => Raise (RuleParseError ("Unknown rule function: " ++ func_name))
  | Some rule_fn =>
      let* args := resolve_args (_tokenize_args args_str) context in
      match rule_fn args with
      | Raise (TypeError e) =>
          Raise (RuleParseError ("Error calling " ++ func_name ++ ": " ++ e))
      | r => r
      end
  end.

(** [evaluate_rule(rule, context)] *)
Definition evaluate_rule (rule : string) (context : value) : result bool :=
  let rule := PyStr.strip rule in
  match func_match rule with
  | Some (func_name, args_str) => _evaluate_function func_name args_str context
  | None =>
      match comparison_match rule with
      | Some (l, op, r) =>
          _evaluate_comparison (PyStr.strip l)
            (spaces_to_underscores (PyStr.lower (PyStr.strip op)))
            (PyStr.strip r) context
      | None => Raise (RuleParseError ("Cannot parse rule: " ++ rule))
      end
  end.

End Evaluator.

(** ** Data model ([models.py]) *)

Inductive stage : Type := Input | Behavioral | Output.
Inductive threat : Type := Cost | Quality | Scope | Security.
Inductive detection : Type := Deterministic | Custom.
Inductive response : Type := Block | Fallback | Truncate | Flag.

Definition stage_text (s : stage) : string :=
  match s with
  | Input => "input" | Behavioral => "behavioral" | Output => "output"
  end.

Definition response_eqb (a b : response) : bool :=
  match a, b with
  | Block, Block | Fallback, Fallback | Truncate, Truncate | Flag, Flag => true
  | _, _ => false
  end.

(** *** The store

    The output stage depends on the identity of objects: the caller's
    output, the working copy, and the fallback values the configuration
    holds.  The store keeps them, each in a cell of its own, named by its
    location.  What a place of a container holds is either a part of the
    container, which nothing else holds, or an object of the store, which
    other containers and the configuration may hold as well. *)
Definition loc : Type := nat.

Inductive object : Type :=
| Plain (v : value)
| Ref (l : loc)
| Dict (items : list (string * object))
| Items (items : list object)
| Fields (cls : string) (fields : list (string * object)).

Coercion Plain : value >-> object.

Definition store : Type := list object.

(** The locations still to visit while an object is read, without [l]. *)
Definition without (l : loc) (rem : list loc) : list loc :=
  List.filter (fun x => negb (Nat.eqb x l)) rem.

(** [f] on every item, when it gives a value for each. *)
Fixpoint map_pairs {A B : Type} (f : A -> option B) (xs : list (string * A))
  : option (list (string * B)) :=
  match xs with
  | [] => Some []
  | (k, x) :: r =>
      match f x, map_pairs f r with
      | Some v, Some vs => Some ((k, v) :: vs)
      | _, _ => None
      end
  end.

Fixpoint map_each {A B : Type} (f : A -> option B) (xs : list A)
  : option (list B) :=
  match xs with
  | [] => Some []
  | x :: r =>
      match f x, map_each f r with
      | Some v, Some vs => Some (v :: vs)
      | _, _ => None
      end
  end.

Definition is_ref (o : object) : bool :=
  match o with
  | Ref _ => true
  | _ => false
  end.

(** The value an object has: the objects it holds are read from the store.
    [rem] lists the locations that may still be visited; an object that is
    reached through itself, or that is not in the store, has no value (a
    cell holds an object, never a reference to one).  [fuel] bounds the
    recursion and is never used up when it exceeds the length of [rem]. *)
Fixpoint resolve (fuel : nat) (rem : list loc) (h : store) (o : object)
  {struct fuel} : option value :=
  match fuel with
  | O => None
  | S fuel' =>
      (fix go (o : object) : option value :=
         match o with
         | Plain v => Some v
         | Ref l =>
             if existsb (Nat.eqb l) rem then
               match h !! l with
               | None | Some (Ref _) => None
               | Some c => resolve fuel' (without l rem) h c
               end
             else None
         | Dict items => option_map VDict (map_pairs go items)
         | Items items => option_map VList (map_each go items)
         | Fields cls fields => option_map (VObj cls) (map_pairs go fields)
         end) o
  end.

(** The value of an object as the code reads it; [None] stands for an
    object without a value. *)
Definition view (h : store) (o : object) : value :=
  default VNone (resolve (S (length h)) (seq 0 (length h)) h o).

Definition deref (h : store) (l : loc) : value := view h (Ref l).

(** The object a cell holds. *)
Definition content (h : store) (l : loc) : object :=
  match h !! l with
  | None | Some (Ref _) => Plain VNone
  | Some c => c
  end.

(** The objects of the store an object holds. *)
Fixpoint refs (o : object) : list loc :=
  match o with
  | Plain _ => []
  | Ref l => [l]
  | Dict items => flat_map (fun kv => refs (snd kv)) items
  | Items items => flat_map refs items
  | Fields _ fields => flat_map (fun kv => refs (snd kv)) fields
  end.

(** A new object: the store grows by one cell. *)
Definition alloc (h : store) (v : value) : store * loc :=
  ((h ++ [Plain v])%list, length h).

(** An object with its references moved by [f]. *)
Fixpoint relocate (f : loc -> loc) (o : object) : object :=
  match o with
  | Plain v => Plain v
  | Ref l => Ref (f l)
  | Dict items => Dict (map (fun kv => (fst kv, relocate f (snd kv))) items)
  | Items items => Items (map (relocate f) items)
  | Fields cls fields =>
      Fields cls (map (fun kv => (fst kv, relocate f (snd kv))) fields)
  end.

(** [copy.deepcopy(obj)]: a new object that shares nothing with the objects
    there were, and that holds copies where [obj] holds objects, one copy
    for each object however often it is held.  The model copies every
    object of the store, the copy of the object at [l] going to
    [length h + l]; the copies of objects that [obj] does not hold are held
    by nothing. *)
Definition deepcopy (h : store) (obj : loc) : store * loc :=
  ((h ++ map (relocate (Nat.add (length h))) h)%list, (length h + obj)%nat).

(** [GuardrailConfig]: the fields of the dataclass; [cfg_fallback_value] is
    the object the configuration refers to. *)
Record GuardrailConfig : Type := {
  cfg_name : string;
  cfg_stage : stage;
  cfg_threat : threat;
  cfg_detection : detection;
  cfg_rule : string;
  cfg_response : response;
  cfg_enabled : bool;
  cfg_error_message : option string;
  cfg_fallback_value : loc;
  cfg_truncate_to : option Z;
  cfg_suffix : string
}.

(** [GuardrailResult] *)
Record GuardrailResult : Type := {
  res_name : string;
  res_stage : stage;
  res_threat : threat;
  res_triggered : bool;
  res_response : option response;
  res_message : option string;
  res_details : list (string * value)
}.

Definition with_details (r : GuardrailResult) (d : list (string * value))
  : GuardrailResult :=
  {| res_name := res_name r; res_stage := res_stage r; res_threat := res_threat r;
     res_triggered := res_triggered r; res_response := res_response r;
     res_message := res_message r; res_details := d |}.

(** [GuardrailContext]: the counters, the call history and the fields set at
    creation. *)
Record GuardrailContext : Type := {
  ctx_agent : string;
  ctx_request : value;
  ctx_output : value;
  tool_call_count : Z;
  iteration_count : Z;
  ctx_start_time : spec_float;
  tool_calls : list string;
  ctx_results : list GuardrailResult
}.

(** The dataclass defaults: what [GuardrailContext(agent=..., request=...)]
    and so [create_context] build, [now] being the clock reading. *)
Definition create_context (now : spec_float) (agent : string) (request : value)
  : GuardrailContext :=
  {| ctx_agent := agent; ctx_request := request; ctx_output := VNone;
     tool_call_count := 0; iteration_count := 0; ctx_start_time := now;
     tool_calls := []; ctx_results := [] |}.

(** [ctx.record_tool_call(tool_name)] *)
Definition record_tool_call (ctx : GuardrailContext) (tool_name : string)
  : GuardrailContext :=
  {| ctx_agent := ctx_agent ctx; ctx_request := ctx_request ctx;
     ctx_output := ctx_output ctx;
     tool_call_count := tool_call_count ctx + 1;
     iteration_count := iteration_count ctx;
     ctx_start_time := ctx_start_time ctx;
     tool_calls := (tool_calls ctx ++ [tool_name])%list;
     ctx_results := ctx_results ctx |}.

(** [ctx.increment_iteration()] *)
Definition increment_iteration (ctx : GuardrailContext) : GuardrailContext :=
  {| ctx_agent := ctx_agent ctx; ctx_request := ctx_request ctx;
     ctx_output := ctx_output ctx;
     tool_call_count := tool_call_count ctx;
     iteration_count := iteration_count ctx + 1;
     ctx_start_time := ctx_start_time ctx;
     tool_calls := tool_calls ctx;
     ctx_results := ctx_results ctx |}.

(** The operations of a context: the two mutators, and the two readers
    ([elapsed_ms], [to_dict]), which leave it as it is. *)
Inductive ctx_op : Type :=
| RecordToolCall (tool_name : string)
| IncrementIteration
| ElapsedMs
| ToDict.

Definition ctx_apply (ctx : GuardrailContext) (op : ctx_op) : GuardrailContext :=
  match op with
  | RecordToolCall t => record_tool_call ctx t
  | IncrementIteration => increment_iteration ctx
  | ElapsedMs | ToDict => ctx
  end.

Definition ctx_run (ctx : GuardrailContext) (ops : list ctx_op) : GuardrailContext :=
  fold_left ctx_apply ops ctx.

(** [GuardrailSummary] *)
Record GuardrailSummary : Type := {
  sum_input : list GuardrailResult;
  sum_behavioral : list GuardrailResult;
  sum_output : list GuardrailResult;
  sum_blocked : bool;
  sum_stage_blocked : option stage
}.

Definition empty_summary : GuardrailSummary :=
  {| sum_input := []; sum_behavioral := []; sum_output := [];
     sum_blocked := false; sum_stage_blocked := None |}.

Definition is_block (r : GuardrailResult) : bool :=
  res_triggered r
  && match res_response r with Some Block => true | _ => false end.

(** [summary.add_result(result)] *)
Definition add_result (s : GuardrailSummary) (r : GuardrailResult)
  : GuardrailSummary :=
  let blocked := is_block r in
  {| sum_input := match res_stage r with Input => (sum_input s ++ [r])%list | _ => sum_input s end;
     sum_behavioral := match res_stage r with
                       | Behavioral => (sum_behavioral s ++ [r])%list
                       | _ => sum_behavioral s
                       end;
     sum_output := match res_stage r with Output => (sum_output s ++ [r])%list | _ => sum_output s end;
     sum_blocked := if blocked then true else sum_blocked s;
     sum_stage_blocked := if blocked then Some (res_stage r) else sum_stage_blocked s |}.

(** ** The engine ([engine.py]) *)

(** [GuardrailEngine]: the parsed configuration (agent, then stage name, to
    the ordered guardrails), the fail-open setting and the summary of the
    current request.  Logging is left out. *)
Record GuardrailEngine : Type := {
  config : gmap string (gmap string (list GuardrailConfig));
  fail_open : bool;
  _summary : GuardrailSummary
}.

Definition with_summary (self : GuardrailEngine) (s : GuardrailSummary)
  : GuardrailEngine :=
  {| config := config self; fail_open := fail_open self; _summary := s |}.

(** [self._get_guardrails(agent, stage)] *)
Definition _get_guardrails (self : GuardrailEngine) (agent stage_name : string)
  : list GuardrailConfig :=
  match config self !! agent with
  | Some stages => default [] (stages !! stage_name)
  | None =>
      match config self !! "default" with
      | Some stages => default [] (stages !! stage_name)
      | None => []
      end
  end.

(** *** Field extraction and nested access *)

Definition is_path_char (c : ascii) : bool :=
  PyStr.is_word c || Ascii.eqb c "."%char.

Fixpoint strip_prefix (p s : string) : option string :=
  match p, s with
  | EmptyString, _ => Some s
  | String a p', String b s' => if Ascii.eqb a b then strip_prefix p' s' else None
  | _, EmptyString => None
  end.

(** [self._extract_field_from_rule(rule, prefix)]: the leftmost place where
    the prefix is followed by a character of [[\w.]], and the longest run of
    such characters there. *)
Fixpoint _extract_field_from_rule (rule prefix : string) : option string :=
  let here :=
    match strip_prefix prefix rule with
    | Some r =>
        match fst (span is_path_char r) with
        | EmptyString => None
        | field => Some field
        end
    | None => None
    end in
  match here, rule with
  | Some field, _ => Some field
  | None, String _ rest => _extract_field_from_rule rest prefix
  | None, EmptyString => None
  end.

(** The loop of [self._get_nested]. *)
Fixpoint get_nested_loop (current : value) (parts : list string) : value :=
  match parts with
  | [] => current
  | part :: rest =>
      match current with
      | VDict d => get_nested_loop (py_dict_get part d) rest
      | _ => VNone
      end
  end.

(** [self._get_nested(obj, path)] *)
Definition _get_nested (obj : value) (path : string) : value :=
  get_nested_loop obj (PyStr.split "."%char path).

(** The [TypeError] of [_set_nested] on a value that is not a mapping:
    [walking] says whether the segment is an intermediate one (a membership
    test, then an item read or write) or the last (an item write). *)
Definition set_nested_error (walking : bool) (current : value) (part : string)
  : exn :=
  let no_assign :=
    "'" ++ type_name current ++ "' object does not support item assignment" in
  match current with
  | VList _ => TypeError "list indices must be integers or slices, not str"
  | VStr s =>
      if walking && PyStr.is_substring part s
      then TypeError "string indices must be integers, not 'str'"
      else TypeError no_assign
  | _ =>
      if walking
      then TypeError ("argument of type '" ++ type_name current ++ "' is not iterable")
      else TypeError no_assign
  end.

(** The loop of [self._set_nested] and its final assignment, on the mapping
    as a value: the updated mapping, or the exception. *)
Fixpoint set_nested_loop (current : value) (parts : list string) (v : value)
  : result value :=
  match parts with
  | [] => Ok current
  | [final] =>
      match current with
      | VDict d => Ok (VDict (dict_set final v d))
      | _ => Raise (set_nested_error false current final)
      end
  | part :: rest =>
      match current with
      | VDict d =>
          let child := match dict_get part d with
                       | Some c => c
                       | None => VDict []
                       end in
          let* child' := set_nested_loop child rest v in
          Ok (VDict (dict_set part child' d))
      | _ => Raise (set_nested_error true current part)
      end
  end.

(** [self._set_nested(obj, path, value)] *)
Definition _set_nested (obj : value) (path : string) (v : value) : result value :=
  set_nested_loop obj (PyStr.split "."%char path) v.

(** *** [_set_nested] on the store *)

(** The items of an object that is a mapping. *)
Definition items_of (o : object) : option (list (string * object)) :=
  match o with
  | Plain (VDict d) => Some (map (fun kv => (fst kv, Plain (snd kv))) d)
  | Dict items => Some items
  | _ => None
  end.

(** The items of a mapping all of whose items are parts of it. *)
Fixpoint plain_items (items : list (string * object))
  : option (list (string * value)) :=
  match items with
  | [] => Some []
  | (k, Plain v) :: r =>
      match plain_items r with
      | Some d => Some ((k, v) :: d)
      | None => None
      end
  | _ => None
  end.

(** The mapping with these items. *)
Definition pack (items : list (string * object)) : object :=
  match plain_items items with
  | Some d => Plain (VDict d)
  | None => Dict items
  end.

(** The loop of [self._set_nested] and its final assignment, from the
    object [current]: the walk goes from a mapping to the item under the
    next segment, which is a part of the mapping or an object of the store,
    and the assignment changes the mapping the walk ends in.  The outcome is
    [current] with the change, when the walk ended in [current] or a part of
    it, and the store with the change when it ended in an object of the
    store. *)
Fixpoint set_in (h : store) (current : object) (parts : list string)
  (new : object) {struct parts} : result (object + store) :=
  match parts with
  | [] => Ok (inl current)
  | part :: rest =>
      match items_of current with
      | None =>
          Raise (set_nested_error (match rest with [] => false | _ => true end)
                   (view h current) part)
      | Some items =>
          match rest with
          | [] => Ok (inl (pack (dict_set part new items)))
          | _ :: _ =>
              match dict_get part items with
              | Some (Ref l) =>
                  match set_in h (content h l) rest new with
                  | Ok (inl c) => Ok (inr (<[l := c]> h))
                  | Ok (inr h') => Ok (inr h')
                  | Raise e => Raise e
                  end
              | child =>
                  match set_in h (default (Plain (VDict [])) child) rest new with
                  | Ok (inl c) => Ok (inl (pack (dict_set part c items)))
                  | Ok (inr h') => Ok (inr h')
                  | Raise e => Raise e
                  end
              end
          end
      end
  end.

(** [self._set_nested(obj, path, value)] on the object at [obj]: the store
    after the call, or the exception, raised before anything is written. *)
Definition set_nested_at (h : store) (obj : loc) (path : string) (new : object)
  : result store :=
  match set_in h (content h obj) (PyStr.split "."%char path) new with
  | Ok (inl c) => Ok (<[obj := c]> h)
  | Ok (inr h') => Ok h'
  | Raise e => Raise e
  end.

Section Engine.

Variable rt : runtime.
Variable _rules : gmap string rule_fn.

(** The result of a guardrail whose evaluation failed, under fail-open. *)
Definition error_result (guardrail : GuardrailConfig) (message : string)
  : GuardrailResult :=
  {| res_name := cfg_name guardrail; res_stage := cfg_stage guardrail;
     res_threat := cfg_threat guardrail; res_triggered := false;
     res_response := None; res_message := Some message; res_details := [] |}.

(** [self._evaluate_guardrail(guardrail, context)] *)
Definition _evaluate_guardrail (self : GuardrailEngine)
  (guardrail : GuardrailConfig) (context : value) : result GuardrailResult :=
  match evaluate_rule rt _rules (cfg_rule guardrail) context with
  | Ok passed =>
      let triggered := negb passed in
      Ok {| res_name := cfg_name guardrail; res_stage := cfg_stage guardrail;
            res_threat := cfg_threat guardrail; res_triggered := triggered;
            res_response := if triggered then Some (cfg_response guardrail) else None;
            res_message := if triggered then cfg_error_message guardrail else None;
            res_details := [] |}
  | Raise (RuleParseError e) =>
      if fail_open self
      then Ok (error_result guardrail ("Rule parse error: " ++ e))
      else Raise (RuleParseError e)
  | Raise e =>
      if fail_open self
      then Ok (error_result guardrail ("Evaluation error: " ++ exn_text e))
      else Raise e
  end.

(** [g.error_message or f"Blocked by guardrail: {g.name}"] *)
Definition block_message (g : GuardrailConfig) : string :=
  match cfg_error_message g with
  | Some (String c m) => String c m
  | _ => "Blocked by guardrail: " ++ cfg_name g
  end.

(** The loop of [check_input] over the guardrails still to run: the
    summary and the results so far go in, the summary and the outcome come
    out. *)
Fixpoint check_input_loop (self : GuardrailEngine) (request : value)
  (guardrails : list GuardrailConfig) (results : list GuardrailResult)
  : GuardrailEngine * result (list GuardrailResult) :=
  match guardrails with
  | [] => (self, Ok results)
  | g :: rest =>
      if negb (cfg_enabled g) then check_input_loop self request rest results
      else
        let context := VDict [("request", request)] in
        match _evaluate_guardrail self g context with
        | Raise e => (self, Raise e)
        | Ok r =>
            let self' := with_summary self (add_result (_summary self) r) in
            let results' := (results ++ [r])%list in
            if is_block r then
              (self', Raise (GuardrailBlockError (cfg_name g) "input"
                               (block_message g) (res_details r)))
            else check_input_loop self' request rest results'
        end
  end.

(** [self.check_input(agent, request)] *)
Definition check_input (self : GuardrailEngine) (agent : string) (request : value)
  : GuardrailEngine * result (list GuardrailResult) :=
  check_input_loop self request (_get_guardrails self agent "input") [].

(** [result.details[key] = v]: the result is the object the summary and the
    results list already hold, so they see the entry; the model adds the
    result to both once the remediation has annotated it. *)
Definition set_detail (r : GuardrailResult) (key : string) (v : value)
  : GuardrailResult :=
  with_details r (dict_set key v (res_details r)).

(** [self._apply_truncate(output, guardrail, result)] on the store: the
    store and the annotated result after the call, and the object returned
    (or the exception). *)
Definition _apply_truncate (h : store) (output : loc)
  (guardrail : GuardrailConfig) (r : GuardrailResult)
  : store * GuardrailResult * result loc :=
  match cfg_truncate_to guardrail with
  | None => (h, r, Ok output)
  | Some truncate_to =>
      let field_path := _extract_field_from_rule (cfg_rule guardrail) "output." in
      let out := deref h output in
      match field_path, out with
      | Some path, VDict _ =>
          match _get_nested out path with
          | VStr original_value =>
              let r1 := set_detail r "original_length"
                          (VInt (PyStr.len original_value)) in
              let truncated :=
                PyStr.slice_to truncate_to original_value ++ cfg_suffix guardrail in
              match set_nested_at h output path (Plain (VStr truncated)) with
              | Ok h' =>
                  (h', set_detail r1 "truncated_to" (VInt truncate_to), Ok output)
              | Raise e => (h, r1, Raise e)
              end
          | _ => (h, r, Ok output)
          end
      | _, VStr s =>
          let r1 := set_detail r "original_length" (VInt (PyStr.len s)) in
          let '(h', l) :=
            alloc h (VStr (PyStr.slice_to truncate_to s ++ cfg_suffix guardrail)) in
          (h', set_detail r1 "truncated_to" (VInt truncate_to), Ok l)
      | _, _ => (h, r, Ok output)
      end
  end.

(** [self._apply_fallback(output, guardrail, result)] on the store.  What
    is assigned to the field, or returned in place of the root, is the
    object the configuration holds, not a copy of it; the details record the
    values at the time of the call. *)
Definition _apply_fallback (h : store) (output : loc)
  (guardrail : GuardrailConfig) (r : GuardrailResult)
  : store * GuardrailResult * result loc :=
  let field_path := _extract_field_from_rule (cfg_rule guardrail) "output." in
  let out := deref h output in
  let fallback := deref h (cfg_fallback_value guardrail) in
  match field_path, out with
  | Some path, VDict _ =>
      let original_value := _get_nested out path in
      let r1 := set_detail (set_detail r "original_value" original_value)
                  "fallback_value" fallback in
      match set_nested_at h output path (Ref (cfg_fallback_value guardrail)) with
      | Ok h' => (h', r1, Ok output)
      | Raise e => (h, r1, Raise e)
      end
  | _, _ =>
      (h, set_detail (set_detail r "original_value" out) "fallback_value" fallback,
       Ok (cfg_fallback_value guardrail))
  end.

(** The loop of [check_output] over the guardrails still to run;
    [modified_output] is the object the local variable refers to. *)
Fixpoint check_output_loop (self : GuardrailEngine) (h : store) (request : value)
  (modified_output : loc) (guardrails : list GuardrailConfig)
  (results : list GuardrailResult)
  : GuardrailEngine * store * result (loc * list GuardrailResult) :=
  match guardrails with
  | [] => (self, h, Ok (modified_output, results))
  | g :: rest =>
      if negb (cfg_enabled g)
      then check_output_loop self h request modified_output rest results
      else
        let context := VDict [("request", request);
                              ("output", deref h modified_output)] in
        match _evaluate_guardrail self g context with
        | Raise e => (self, h, Raise e)
        | Ok r =>
            let record r' := with_summary self (add_result (_summary self) r') in
            let remediate (step : store * GuardrailResult * result loc) :=
              let '(h', r', out) := step in
              match out with
              | Ok l => check_output_loop (record r') h' request l rest
                          (results ++ [r'])%list
              | Raise e => (record r', h', Raise e)
              end in
            if res_triggered r then
              match res_response r with
              | Some Block =>
                  (record r, h, Raise (GuardrailBlockError (cfg_name g) "output"
                                         (block_message g) (res_details r)))
              | Some Truncate => remediate (_apply_truncate h modified_output g r)
              | Some Fallback => remediate (_apply_fallback h modified_output g r)
              | _ => check_output_loop (record r) h request modified_output rest
                       (results ++ [r])%list
              end
            else check_output_loop (record r) h request modified_output rest
                   (results ++ [r])%list
        end
  end.

(** [self.check_output(agent, request, output)] *)
Definition check_output (self : GuardrailEngine) (h : store) (agent : string)
  (request : value) (output : loc)
  : GuardrailEngine * store * result (loc * list GuardrailResult) :=
  let '(h', modified_output) := deepcopy h output in
  check_output_loop self h' request modified_output
    (_get_guardrails self agent "output") [].

End Engine.

(** ** A runtime to run the model with

    Closed examples need a [runtime].  This one rounds a short decimal
    literal with the library's binary64 operations, prints containers in the
    interpreter's layout (text items without escapes), accepts the JSON
    scalars, and reads a pattern as literal text; the clock stands still.
    The theorems below hold for every runtime. *)
Module Sample.

Definition prec : Z := 53.
Definition emax : Z := 1024.

Definition of_Z (n : Z) : spec_float := binary_normalize prec emax n 0 false.

Definition round_decimal (neg : bool) (m e : Z) : spec_float :=
  let x := if 0 <=? e then of_Z (m * 10 ^ e)
           else SFdiv prec emax (of_Z m) (of_Z (10 ^ (- e))) in
  if neg then SFopp x else x.

Definition float_of_int (n : Z) : option spec_float :=
  match of_Z n with
  | S754_infinity _ => None
  | f => Some f
  end.

Fixpoint join (sep : string) (items : list string) : string :=
  match items with
  | [] => ""
  | [a] => a
  | a :: rest => a ++ sep ++ join sep rest
  end.

Fixpoint repr (v : value) : string :=
  match v with
  | VNone => "None"
  | VBool true => "True"
  | VBool false => "False"
  | VInt n => str_of_int n
  | VFloat S754_nan => "nan"
  | VFloat (S754_infinity neg) => if neg then "-inf" else "inf"
  | VFloat (S754_zero neg) => if neg then "-0.0" else "0.0"
  | VFloat (S754_finite _ _ _) => "<float>"
  | VStr s => "'" ++ s ++ "'"
  | VList l => "[" ++ join ", " (map repr l) ++ "]"
  | VDict d =>
      "{" ++ join ", " (map (fun kv => "'" ++ fst kv ++ "': " ++ repr (snd kv)) d) ++ "}"
  | VObj cls fields =>
      cls ++ "(" ++ join ", " (map (fun kv => fst kv ++ "=" ++ repr (snd kv)) fields)
      ++ ")"
  | VOther tname ident => "<" ++ tname ++ " " ++ ident ++ ">"
  end.

(** A few attributes of the types: the parts of an integer, and some
    methods of text, of lists, of mappings and of the execution context. *)
Definition type_attr (v : value) (name : string) : option value :=
  let method (tname : string) (names : list string) :=
    if existsb (String.eqb name) names
    then Some (VOther tname (name ++ " of " ++ repr v))
    else None in
  match v with
  | VInt n =>
      if String.eqb name "real" || String.eqb name "numerator" then Some (VInt n)
      else if String.eqb name "imag" then Some (VInt 0)
      else if String.eqb name "denominator" then Some (VInt 1)
      else None
  | VStr _ =>
      method "builtin_function_or_method"
        ["upper"; "lower"; "strip"; "split"; "startswith"]
  | VList _ =>
      method "builtin_function_or_method" ["append"; "index"; "count"; "pop"]
  | VDict _ =>
      method "builtin_function_or_method" ["get"; "keys"; "values"; "items"]
  | VObj "GuardrailContext" _ =>
      method "method"
        ["record_tool_call"; "increment_iteration"; "elapsed_ms"; "to_dict"]
  | _ => None
  end.

Definition json_scalar (s : string) : bool :=
  let t := PyStr.strip s in
  String.eqb t "null" || String.eqb t "true" || String.eqb t "false"
  || match PyStr.py_int t with
     | Some _ => negb (PyStr.contains_char "_"%char t || PyStr.startswith "+"%char t)
     | None => false
     end.

Definition rt : runtime :=
  Build_runtime 4300 round_decimal float_of_int (fun v => Ok (repr v)) json_scalar
    (fun p s => Some (String.prefix p s)) (fun _ => 0) type_attr.

End Sample.

(** ** Configurations to run the model on *)
Module Examples.

(** A guardrail with the defaults of the dataclass and of the loader; the
    fallback value is the object at [fallback]. *)
Definition guardrail (name : string) (st : stage) (rule : string)
  (resp : response) (fallback : loc) (truncate_to : option Z) : GuardrailConfig :=
  {| cfg_name := name; cfg_stage := st; cfg_threat := Quality;
     cfg_detection := Deterministic; cfg_rule := rule; cfg_response := resp;
     cfg_enabled := true; cfg_error_message := None;
     cfg_fallback_value := fallback; cfg_truncate_to := truncate_to;
     cfg_suffix := "..." |}.

(** An engine whose only agent entry is ["default"]. *)
Definition engine (fo : bool) (inputs outputs : list GuardrailConfig)
  : GuardrailEngine :=
  {| config := {[ "default" := {[ "input" := inputs; "output" := outputs ]} ]};
     fail_open := fo; _summary := empty_summary |}.

Definition request : value := VDict [("text", VStr "hello world")].

Definition unknown_rule : GuardrailConfig :=
  guardrail "unknown" Input "no_such_rule(request.text)" Block 0%nat None.

Definition too_long : GuardrailConfig :=
  guardrail "max_length" Input "max_length(request.text, 5)" Block 0%nat None.

Definition long_enough : GuardrailConfig :=
  guardrail "min_length" Input "min_length(request.text, 3)" Block 0%nat None.

Definition rules : gmap string rule_fn := builtin_rules Sample.rt.

(** An output stage.  The store holds, in this order, the fallback object of
    the first guardrail (a mapping), the fallback object of the second (a
    text), and an output a caller built. *)
Definition shape : GuardrailConfig :=
  guardrail "shape" Output "valid_enum(output, ['never'])" Fallback 0%nat None.

Definition label : GuardrailConfig :=
  guardrail "label" Output "valid_enum(output.x, request.allowed)" Fallback
    1%nat None.

Definition cut : GuardrailConfig :=
  guardrail "cut" Output "max_length(output, 4)" Truncate 1%nat (Some 4).

Definition objects : store :=
  [Plain (VDict [("x", VStr "abc")]); Plain (VStr "Z");
   Plain (VDict [("x", VStr "draft")])].

Definition allowing (word : string) : value :=
  VDict [("allowed", VList [VStr word])].

(** The output guardrails of the repository's tests, and a store that holds
    the text [MEDIUM] and an output. *)
Definition truncate_text : GuardrailConfig :=
  guardrail "truncate_text" Output "max_length(output.text, 10)" Truncate
    0%nat (Some 10).

Definition fallback_confidence : GuardrailConfig :=
  guardrail "fallback_confidence" Output
    "valid_enum(output.confidence, ['HIGH', 'MEDIUM', 'LOW'])" Fallback 0%nat None.

Definition flag_suspicious : GuardrailConfig :=
  guardrail "flag_suspicious" Output "max_length(output.text, 10)" Flag 0%nat None.

Definition check1 : GuardrailConfig :=
  guardrail "check1" Output "required(output.field1)" Flag 0%nat None.

Definition with_output (output : value) : store :=
  [Plain (VStr "MEDIUM"); Plain output].

(** What [check_output] returns and leaves: the value of the returned
    output, the results, and the value of the output it was given. *)
Definition run_output (guardrails : list GuardrailConfig) (output : value)
  : result (value * list GuardrailResult) * value :=
  let '(_, h', out) :=
    check_output Sample.rt rules (engine false [] guardrails)
      (with_output output) "test" (VDict []) 1%nat in
  (match out with
   | Ok (l, results) => Ok (deref h' l, results)
   | Raise e => Raise e
   end,
   deref h' 1%nat).

End Examples.

(** ** Vocabulary of the statements *)

(** How many operations of a run are calls to [record_tool_call], and how
    many to [increment_iteration]. *)
Fixpoint count_tool_calls (ops : list ctx_op) : nat :=
  match ops with
  | [] => O
  | RecordToolCall _ :: r => S (count_tool_calls r)
  | _ :: r => count_tool_calls r
  end.

Fixpoint count_iterations (ops : list ctx_op) : nat :=
  match ops with
  | [] => O
  | IncrementIteration :: r => S (count_iterations r)
  | _ :: r => count_iterations r
  end.

(** The value a path reaches: each segment is a key the mapping holds, or
    an attribute the value has when it is no mapping. *)
Inductive reaches (rt : runtime) : value -> list string -> value -> Prop :=
| reaches_here v : reaches rt v [] v
| reaches_key d part rest v w :
    dict_get part d = Some v -> reaches rt v rest w ->
    reaches rt (VDict d) (part :: rest) w
| reaches_attr u part rest v w :
    is_dict u = false -> attribute rt u part = Some v -> reaches rt v rest w ->
    reaches rt u (part :: rest) w.

(** A list, a scalar or an object that is no data: a value with no fields,
    whose every attribute is named by an identifier. *)
Definition is_plain (v : value) : bool :=
  match v with
  | VDict _ | VObj _ _ => false
  | _ => true
  end.

(** The keywords of [_parse_literal], on the lowered token. *)
Definition is_keyword (low : string) : bool :=
  String.eqb low "none" || String.eqb low "null"
  || String.eqb low "true" || String.eqb low "false".

(** One pass of [_parse_literal] over a token, the parser of the list items
    given: the body of the function, which its unfolding equation is stated
    with. *)
Definition literal_body (rt : runtime) (recur : string -> value) (token : string)
  : value :=
  let token := PyStr.strip token in
  let low := PyStr.lower token in
  if String.eqb low "none" || String.eqb low "null" then VNone
  else if String.eqb low "true" then VBool true
  else if String.eqb low "false" then VBool false
  else
    match parse_number rt token with
    | Some v => v
    | None =>
        if quoted token then VStr (PyStr.slice_1_m1 token)
        else if bracketed token then
          let inner := PyStr.strip (PyStr.slice_1_m1 token) in
          if String.eqb inner "" then VList []
          else VList (map (fun item => recur (PyStr.strip item))
                        (PyStr.split ","%char inner))
        else path_marker token
    end.

(** The value an operand token stands for: the literal it parses to, or,
    for a path reference, what the path resolves to in the context. *)
Definition operand (rt : runtime) (token : string) (context : value) : value :=
  match _parse_literal rt token with
  | VDict d =>
      match dict_get "__path__" d with
      | Some (VStr path) => _get_nested_value rt context path
      | _ => VDict d
      end
  | v => v
  end.

(** [not] on the outcome of an evaluation: an exception stays. *)
Definition negate (r : result bool) : result bool :=
  match r with
  | Ok b => Ok (negb b)
  | Raise e => Raise e
  end.

(** The message of the result a failed evaluation degrades to under
    fail-open. *)
Definition degraded_message (e : exn) : string :=
  match e with
  | RuleParseError m => "Rule parse error: " ++ m
  | _ => "Evaluation error: " ++ exn_text e
  end.

(** The result of a guardrail whose rule evaluated to false. *)
Definition triggered_result (g : GuardrailConfig) : GuardrailResult :=
  {| res_name := cfg_name g; res_stage := cfg_stage g; res_threat := cfg_threat g;
     res_triggered := true; res_response := Some (cfg_response g);
     res_message := cfg_error_message g; res_details := [] |}.

(** The result of a guardrail whose rule evaluated to true. *)
Definition passed_result (g : GuardrailConfig) : GuardrailResult :=
  {| res_name := cfg_name g; res_stage := cfg_stage g; res_threat := cfg_threat g;
     res_triggered := false; res_response := None;
     res_message := None; res_details := [] |}.

(** ** Vocabulary of the argument scanner *)

(** The state [_tokenize_args] starts from. *)
Definition tok_start : tok_state :=
  {| tk_args := []; tk_current := ""; tk_depth := 0; tk_in_string := None |}.

(** A text the scanner reads through without closing an argument and leaves
    with every quote and bracket closed. *)
Definition one_argument (a : string) : bool :=
  let st := tok_run tok_start a in
  match tk_args st, tk_in_string st with
  | [], None => tk_depth st =? 0
  | _, _ => false
  end.

(** A character the scanner gives no meaning to. *)
Definition is_plain_char (c : ascii) : bool :=
  negb (Ascii.eqb c dquote || Ascii.eqb c squote || Ascii.eqb c "["%char
        || Ascii.eqb c "]"%char || Ascii.eqb c ","%char).

(** [st] with [pre] put before its closed arguments. *)
Definition tok_prepend (pre : list string) (st : tok_state) : tok_state :=
  {| tk_args := (pre ++ tk_args st)%list; tk_current := tk_current st;
     tk_depth := tk_depth st; tk_in_string := tk_in_string st |}.

(** [sep.join(items)] *)
Fixpoint str_join (sep : string) (items : list string) : string :=
  match items with
  | [] => ""
  | [a] => a
  | a :: rest => a ++ sep ++ str_join sep rest
  end.

(** A word between single quotes, and a bracketed list of such words
    separated by a comma and a blank, as a rule text writes them. *)
Definition quote_word (w : string) : string :=
  String squote (w ++ String squote "").

Definition list_text (ws : list string) : string :=
  String "[" (str_join ", " (map quote_word ws) ++ "]").

(** ** Vocabulary of the function calls *)

(** The builtin rules and the names of their parameters, as [rules.py]
    declares them. *)
Definition builtin_signatures : list (string * list string) :=
  [ ("max_length", ["value"; "limit"]);
    ("min_length", ["value"; "limit"]);
    ("required", ["value"]);
    ("valid_json", ["value"]);
    ("valid_enum", ["value"; "allowed"]);
    ("in_range", ["value"; "min_val"; "max_val"]);
    ("required_fields", ["obj"; "fields"]);
    ("matches_pattern", ["value"; "pattern"]);
    ("max_tool_calls", ["context"; "limit"]);
    ("max_iterations", ["context"; "limit"]);
    ("allowed_tools", ["context"; "allowed"]);
    ("timeout", ["context"; "limit_ms"]) ].

(** What [_evaluate_function] makes of the outcome of the rule it called. *)
Definition as_parse_error (func_name : string) (r : result bool) : result bool :=
  match r with
  | Raise (TypeError e) =>
      Raise (RuleParseError ("Error calling " ++ func_name ++ ": " ++ e))
  | _ => r
  end.

(** ** Objects of the data model as values

    A rule reads the execution context through its attributes; the
    dataclasses are record objects whose fields are in declaration order. *)

Definition threat_text (t : threat) : string :=
  match t with
  | Cost => "cost" | Quality => "quality" | Scope => "scope"
  | Security => "security"
  end.

Definition response_text (r : response) : string :=
  match r with
  | Block => "block" | Fallback => "fallback" | Truncate => "truncate"
  | Flag => "flag"
  end.

Definition detection_text (d : detection) : string :=
  match d with
  | Deterministic => "deterministic" | Custom => "custom"
  end.

(** A value that is a text or [None]. *)
Definition opt_text (o : option string) : value :=
  match o with
  | Some s => VStr s
  | None => VNone
  end.

Definition opt_response (o : option response) : value :=
  match o with
  | Some r => VStr (response_text r)
  | None => VNone
  end.

(** A [GuardrailResult] object. *)
Definition result_value (r : GuardrailResult) : value :=
  VObj "GuardrailResult"
    [ ("name", VStr (res_name r));
      ("stage", VStr (stage_text (res_stage r)));
      ("threat", VStr (threat_text (res_threat r)));
      ("triggered", VBool (res_triggered r));
      ("response", opt_response (res_response r));
      ("message", opt_text (res_message r));
      ("details", VDict (res_details r)) ].

(** A [GuardrailContext] object. *)
Definition context_value (c : GuardrailContext) : value :=
  VObj "GuardrailContext"
    [ ("agent", VStr (ctx_agent c));
      ("request", ctx_request c);
      ("output", ctx_output c);
      ("tool_call_count", VInt (tool_call_count c));
      ("iteration_count", VInt (iteration_count c));
      ("start_time", VFloat (ctx_start_time c));
      ("tool_calls", VList (map VStr (tool_calls c)));
      ("results", VList (map result_value (ctx_results c))) ].

(** The tool names a run of operations records, in order. *)
Fixpoint recorded (ops : list ctx_op) : list string :=
  match ops with
  | [] => []
  | RecordToolCall name :: r => name :: recorded r
  | _ :: r => recorded r
  end.

(** ** The behavioral stage and the summary ([engine.py], [models.py]) *)

(** [result.to_dict()]: the response, the message and the details are
    reported for a triggered result only, the message and the details only
    when they are not empty. *)
Definition result_to_dict (r : GuardrailResult) : value :=
  VDict
    ([ ("name", VStr (res_name r));
       ("stage", VStr (stage_text (res_stage r)));
       ("threat", VStr (threat_text (res_threat r)));
       ("triggered", VBool (res_triggered r)) ]
     ++ (if res_triggered r then
           [("response", opt_response (res_response r))]
           ++ match res_message r with
              | Some (String c m) => [("message", VStr (String c m))]
              | _ => []
              end
           ++ match res_details r with
              | [] => []
              | d => [("details", VDict d)]
              end
         else []))%list.

(** [summary.to_dict()] *)
Definition summary_to_dict (s : GuardrailSummary) : value :=
  VDict
    [ ("input", VList (map result_to_dict (sum_input s)));
      ("behavioral", VList (map result_to_dict (sum_behavioral s)));
      ("output", VList (map result_to_dict (sum_output s)));
      ("blocked", VBool (sum_blocked s));
      ("stage_blocked", opt_text (option_map stage_text (sum_stage_blocked s))) ].

(** [self.get_summary()] *)
Definition get_summary (self : GuardrailEngine) : value :=
  summary_to_dict (_summary self).

(** [self.reset()] *)
Definition reset (self : GuardrailEngine) : GuardrailEngine :=
  with_summary self empty_summary.

(** [e.to_http_status()] for a block error raised at [stage]. *)
Definition to_http_status (stage : string) : Z :=
  if String.eqb stage "input" || String.eqb stage "behavioral" then 400 else 500.

Section BehavioralStage.

Variable rt : runtime.
Variable _rules : gmap string rule_fn.

(** The details [check_behavioral] gives every result. *)
Definition behavioral_details (ctx : GuardrailContext) : list (string * value) :=
  [ ("tool_call_count", VInt (tool_call_count ctx));
    ("iteration_count", VInt (iteration_count ctx));
    ("elapsed_ms", VInt (clock_elapsed_ms rt (context_value ctx))) ].

(** The loop of [check_behavioral] over the guardrails still to run. *)
Fixpoint check_behavioral_loop (self : GuardrailEngine) (ctx : GuardrailContext)
  (guardrails : list GuardrailConfig) (results : list GuardrailResult)
  : GuardrailEngine * result (list GuardrailResult) :=
  match guardrails with
  | [] => (self, Ok results)
  | g :: rest =>
      if negb (cfg_enabled g) then check_behavioral_loop self ctx rest results
      else
        let rule_context := VDict [("context", context_value ctx);
                                   ("request", ctx_request ctx)] in
        match _evaluate_guardrail rt _rules self g rule_context with
        | Raise e => (self, Raise e)
        | Ok evaluated =>
            let r := with_details evaluated (behavioral_details ctx) in
            let self' := with_summary self (add_result (_summary self) r) in
            let results' := (results ++ [r])%list in
            if is_block r then
              (self', Raise (GuardrailBlockError (cfg_name g) "behavioral"
                               (block_message g) (res_details r)))
            else check_behavioral_loop self' ctx rest results'
        end
  end.

(** [self.check_behavioral(ctx, tool_name)]: the engine and the context
    after the call, and its outcome.  A tool name that is [None] or empty
    is not recorded. *)
Definition check_behavioral (self : GuardrailEngine) (ctx : GuardrailContext)
  (tool_name : option string)
  : GuardrailEngine * GuardrailContext * result (list GuardrailResult) :=
  let ctx := match tool_name with
             | Some (String c name) => record_tool_call ctx (String c name)
             | _ => ctx
             end in
  let '(self', out) :=
    check_behavioral_loop self ctx
      (_get_guardrails self (ctx_agent ctx) "behavioral") [] in
  (self', ctx, out).

(** ** The guards of an agent loop ([behavioral.py]) *)

(** [IterationGuard.__enter__], and what the wrapper of
    [with_behavioral_check] does before it calls the function. *)
Definition iteration_enter (self : GuardrailEngine) (ctx : GuardrailContext)
  : GuardrailEngine * GuardrailContext * result (list GuardrailResult) :=
  check_behavioral self (increment_iteration ctx) None.

(** [ToolCallGuard.__enter__] *)
Definition tool_call_enter (self : GuardrailEngine) (ctx : GuardrailContext)
  (tool_name : string)
  : GuardrailEngine * GuardrailContext * result (list GuardrailResult) :=
  check_behavioral self ctx (Some tool_name).

(** The guards entered in an agent loop. *)
Inductive guard_op : Type :=
| EnterIteration
| EnterToolCall (tool_name : string).

Definition guard_enter (self : GuardrailEngine) (ctx : GuardrailContext)
  (op : guard_op)
  : GuardrailEngine * GuardrailContext * result (list GuardrailResult) :=
  match op with
  | EnterIteration => iteration_enter self ctx
  | EnterToolCall name => tool_call_enter self ctx name
  end.

(** A loop that enters the guards one after the other on the engine and the
    context of a [BehavioralGuard], going on after a guard whose [__enter__]
    raised, as a caller that catches the error does: the engine and the
    context at the end, and the outcome of each guard. *)
Fixpoint guard_run (self : GuardrailEngine) (ctx : GuardrailContext)
  (ops : list guard_op)
  : GuardrailEngine * GuardrailContext * list (result (list GuardrailResult)) :=
  match ops with
  | [] => (self, ctx, [])
  | op :: rest =>
      let '(self', ctx', out) := guard_enter self ctx op in
      let '(self'', ctx'', outs) := guard_run self' ctx' rest in
      (self'', ctx'', out :: outs)
  end.

End BehavioralStage.

(** The operation of the context a guard stands for; an empty tool name
    records nothing. *)
Definition guard_effect (op : guard_op) : list ctx_op :=
  match op with
  | EnterIteration => [IncrementIteration]
  | EnterToolCall (String c name) => [RecordToolCall (String c name)]
  | EnterToolCall EmptyString => []
  end.

(** The summary after the results [rs] are added in order. *)
Definition add_results (s : GuardrailSummary) (rs : list GuardrailResult)
  : GuardrailSummary :=
  fold_left add_result rs s.

(** The results of one stage among [rs]. *)
Definition stage_eqb (a b : stage) : bool :=
  match a, b with
  | Input, Input | Behavioral, Behavioral | Output, Output => true
  | _, _ => false
  end.

Definition of_stage (st : stage) (rs : list GuardrailResult)
  : list GuardrailResult :=
  List.filter (fun r => stage_eqb (res_stage r) st) rs.

(** The stage of the last blocking result of [rs], [s] when there is none. *)
Fixpoint last_block (s : option stage) (rs : list GuardrailResult)
  : option stage :=
  match rs with
  | [] => s
  | r :: rest => last_block (if is_block r then Some (res_stage r) else s) rest
  end.

(** ** Rule texts *)

(** A path as a rule text writes it: a letter or an underscore, then word
    characters and dots, the whole being none of the keywords of
    [_parse_literal]. *)
Definition is_path (t : string) : bool :=
  match t with
  | EmptyString => false
  | String c r =>
      PyStr.is_word c && negb (PyStr.is_digit c) && all_chars is_path_char r
  end
  && negb (is_keyword (PyStr.lower t)).

(** An argument as a rule text writes it: a text that scans as one
    argument, is not empty and has no blank at either end. *)
Definition is_argument (a : string) : bool :=
  one_argument a && String.eqb (PyStr.strip a) a && negb (String.eqb a "").

(** The text of a call: the name, and the arguments between parentheses,
    separated by a comma and a blank. *)
Definition call_text (func_name : string) (args : list string) : string :=
  func_name ++ String "(" (str_join ", " args ++ ")").

(** Two scanner states that differ by a blank at the head of the current
    argument. *)
Definition tok_blank (sp : ascii) (st st' : tok_state) : Prop :=
  tk_args st' = tk_args st /\ tk_depth st' = tk_depth st
  /\ tk_in_string st' = tk_in_string st
  /\ (tk_current st' = tk_current st
      \/ tk_current st' = String sp (tk_current st)).

(** ** Loading a configuration ([config.py], [models.py])

    The loader works on the parsed YAML document, a value; what it cannot
    read raises.  [ConfigValidationError] is the loader's own exception;
    [KeyError] is that of a subscript on a mapping. *)

Inductive load_error : Type :=
| ConfigValidationError (msg : string)
| KeyError (key : string)
| Uncaught (e : exn).

Inductive loaded (A : Type) : Type :=
| Loaded (a : A)
| Invalid (e : load_error).
Arguments Loaded {A} a.
Arguments Invalid {A} e.

Definition load_bind {A B} (m : loaded A) (k : A -> loaded B) : loaded B :=
  match m with
  | Loaded a => k a
  | Invalid e => Invalid e
  end.

Notation "'let+' x ':=' m 'in' k" := (load_bind m (fun x => k))
  (at level 10, x pattern, m at level 100, k at level 200).

(** An exception of the interpreter, inside the loader. *)
Definition lift {A} (r : result A) : loaded A :=
  match r with
  | Ok a => Loaded a
  | Raise e => Invalid (Uncaught e)
  end.

(** [obj[key]] for a text key *)
Definition py_getitem (obj : value) (key : string) : loaded value :=
  match obj with
  | VDict d =>
      match dict_get key d with
      | Some v => Loaded v
      | None => Invalid (KeyError key)
      end
  | VList _ =>
      Invalid (Uncaught (TypeError "list indices must be integers or slices, not str"))
  | VStr _ =>
      Invalid (Uncaught (TypeError "string indices must be integers, not 'str'"))
  | _ =>
      Invalid (Uncaught (TypeError ("'" ++ type_name obj
                                    ++ "' object is not subscriptable")))
  end.

(** [obj.get(key, default)]: a method of mappings. *)
Definition py_get (obj : value) (key : string) (default : value) : loaded value :=
  match obj with
  | VDict d =>
      Loaded (match dict_get key d with
              | Some v => v
              | None => default
              end)
  | _ =>
      Invalid (Uncaught (AttributeError ("'" ++ type_name obj
                                         ++ "' object has no attribute 'get'")))
  end.

Definition VALID_STAGES : list string := ["input"; "behavioral"; "output"].
Definition VALID_THREATS : list string := ["cost"; "quality"; "scope"; "security"].
Definition VALID_RESPONSES : list string := ["block"; "fallback"; "truncate"; "flag"].
Definition VALID_DETECTION : list string := ["deterministic"; "custom"].

(** [v in texts] for a tuple of texts. *)
Definition in_texts (v : value) (texts : list string) : bool :=
  existsb (py_eq v) (map VStr texts).

(** [str(texts)] for a tuple of two or more texts. *)
Definition tuple_text (texts : list string) : string :=
  String "(" (str_join ", " (map quote_word texts) ++ ")").

(** [GuardrailConfig] as the loader builds it: the fields hold whatever the
    document gives, checked by [__post_init__] only as far as shown
    there. *)
Record LoadedGuardrail : Type := {
  ld_name : value;
  ld_stage : value;
  ld_threat : value;
  ld_detection : value;
  ld_rule : value;
  ld_response : value;
  ld_enabled : value;
  ld_error_message : value;
  ld_fallback_value : value;
  ld_truncate_to : value;
  ld_suffix : value
}.

Section Loader.

Variable rt : runtime.

(** The [ValueError] of a field that is not one of the valid texts. *)
Definition invalid_field (what : string) (v : value) (valid : list string)
  : result unit :=
  let* shown := py_str rt v in
  Raise (ValueError ("Invalid " ++ what ++ " '" ++ shown ++ "'. Must be one of: "
                     ++ tuple_text valid)).

(** [GuardrailConfig.__post_init__] *)
Definition __post_init__ (self : LoadedGuardrail) : result unit :=
  if negb (in_texts (ld_stage self) VALID_STAGES)
  then invalid_field "stage" (ld_stage self) VALID_STAGES
  else if negb (in_texts (ld_threat self) VALID_THREATS)
  then invalid_field "threat" (ld_threat self) VALID_THREATS
  else if negb (in_texts (ld_response self) VALID_RESPONSES)
  then invalid_field "response" (ld_response self) VALID_RESPONSES
  else if negb (in_texts (ld_detection self) VALID_DETECTION)
  then invalid_field "detection" (ld_detection self) VALID_DETECTION
  else if py_eq (ld_response self) (VStr "truncate") && is_none (ld_truncate_to self)
  then Raise (ValueError "truncate_to is required when response is 'truncate'")
  else Ok tt.

(** The loop of [_parse_guardrail] over the required fields. *)
Fixpoint check_required (g_dict : value) (fields : list string) : loaded unit :=
  match fields with
  | [] => Loaded tt
  | field :: rest =>
      let+ present := lift (py_in (VStr field) g_dict) in
      if present then check_required g_dict rest
      else
        let+ shown := lift (py_str rt g_dict) in
        Invalid (ConfigValidationError
                   ("Guardrail missing required field '" ++ field ++ "': "
                    ++ shown))
  end.

(** The error of a threat or a response that is not valid. *)
Definition invalid_entry (what : string) (v g_dict : value) (valid : list string)
  : loaded LoadedGuardrail :=
  let+ shown := lift (py_str rt v) in
  let+ name := py_get g_dict "name" VNone in
  let+ shown_name := lift (py_str rt name) in
  Invalid (ConfigValidationError
             ("Invalid " ++ what ++ " '" ++ shown ++ "' in guardrail '"
              ++ shown_name ++ "'. Must be one of: " ++ tuple_text valid)).

(** [_parse_guardrail(g_dict, stage)] *)
Definition _parse_guardrail (g_dict : value) (stage : string)
  : loaded LoadedGuardrail :=
  let+ _ := check_required g_dict ["name"; "threat"; "rule"; "response"] in
  let+ threat := py_getitem g_dict "threat" in
  if negb (in_texts threat VALID_THREATS)
  then invalid_entry "threat" threat g_dict VALID_THREATS
  else
    let+ response := py_getitem g_dict "response" in
    if negb (in_texts response VALID_RESPONSES)
    then invalid_entry "response" response g_dict VALID_RESPONSES
    else
      let+ name := py_getitem g_dict "name" in
      let+ detection := py_get g_dict "detection" (VStr "deterministic") in
      let+ rule := py_getitem g_dict "rule" in
      let+ enabled := py_get g_dict "enabled" (VBool true) in
      let+ error_message := py_get g_dict "error_message" VNone in
      let+ fallback_value := py_get g_dict "fallback_value" VNone in
      let+ truncate_to := py_get g_dict "truncate_to" VNone in
      let+ suffix := py_get g_dict "suffix" (VStr "...") in
      let guardrail :=
        {| ld_name := name; ld_stage := VStr stage; ld_threat := threat;
           ld_detection := detection; ld_rule := rule; ld_response := response;
           ld_enabled := enabled; ld_error_message := error_message;
           ld_fallback_value := fallback_value; ld_truncate_to := truncate_to;
           ld_suffix := suffix |} in
      match __post_init__ guardrail with
      | Ok _ => Loaded guardrail
      | Raise (ValueError e) => Invalid (ConfigValidationError e)
      | Raise e => Invalid (Uncaught e)
      end.

(** The guardrails of each stage, keyed by the stage name. *)
Definition stage_lists : Type := list (string * list LoadedGuardrail).

Definition no_guardrails : stage_lists :=
  [("input", []); ("behavioral", []); ("output", [])].

(** The loop over the guardrail entries of one stage. *)
Fixpoint parse_each (items : list value) (stage : string)
  : loaded (list LoadedGuardrail) :=
  match items with
  | [] => Loaded []
  | g_dict :: rest =>
      let+ guardrail := _parse_guardrail g_dict stage in
      let+ more := parse_each rest stage in
      Loaded (guardrail :: more)
  end.

(** The loop over [VALID_STAGES] on a section of the document: the
    guardrails of every stage the section names are parsed and appended to
    the list of that stage. *)
Fixpoint parse_stages (section : value) (stages : list string)
  (lists : stage_lists) : loaded stage_lists :=
  match stages with
  | [] => Loaded lists
  | stage :: rest =>
      let+ present := lift (py_in (VStr stage) section) in
      if present then
        let+ entries := py_getitem section stage in
        let+ items := lift (py_iter entries) in
        let+ parsed := parse_each items stage in
        parse_stages section rest
          (dict_set stage (default [] (dict_get stage lists) ++ parsed)%list lists)
      else parse_stages section rest lists
  end.

(** The loop over the agents of the document. *)
Fixpoint parse_agents (agents : list (string * value)) (global_guardrails : stage_lists)
  (result : list (string * stage_lists)) : loaded (list (string * stage_lists)) :=
  match agents with
  | [] => Loaded result
  | (agent_name, agent_config) :: rest =>
      let copies :=
        map (fun stage => (stage, default [] (dict_get stage global_guardrails)))
          VALID_STAGES in
      let+ lists := parse_stages agent_config VALID_STAGES copies in
      parse_agents rest global_guardrails (dict_set agent_name lists result)
  end.

(** [_parse_config(config)] *)
Definition _parse_config (config : value)
  : loaded (list (string * stage_lists)) :=
  let+ has_global := lift (py_in (VStr "global") config) in
  let+ global_guardrails :=
    if has_global then
      let+ global_section := py_getitem config "global" in
      parse_stages global_section VALID_STAGES no_guardrails
    else Loaded no_guardrails in
  let+ agents_section := py_get config "agents" (VDict []) in
  match agents_section with
  | VDict agents =>
      let+ result := parse_agents agents global_guardrails [] in
      match result with
      | [] =>
          if existsb (fun kv => match snd kv with [] => false | _ => true end)
               global_guardrails
          then Loaded [("default", global_guardrails)]
          else Loaded []
      | _ => Loaded result
      end
  | _ =>
      Invalid (Uncaught (AttributeError ("'" ++ type_name agents_section
                                         ++ "' object has no attribute 'items'")))
  end.

End Loader.

(** What one stage of a section of the document gives: the guardrails
    parsed from the entries under the stage name, none when the section
    does not name the stage. *)
Definition stage_guardrails (rt : runtime) (section : value) (stage : string)
  : loaded (list LoadedGuardrail) :=
  let+ present := lift (py_in (VStr stage) section) in
  if present then
    let+ entries := py_getitem section stage in
    let+ items := lift (py_iter entries) in
    parse_each rt items stage
  else Loaded [].

(** The three lists of an agent. *)
Definition by_stage (i b o : list LoadedGuardrail) : stage_lists :=
  [("input", i); ("behavioral", b); ("output", o)].

(** The entry of one agent in the result: the name of the agent, and for
    each stage the global guardrails followed by the agent's own. *)
Definition agent_entry (rt : runtime) (gi gb go : list LoadedGuardrail)
  (agent : string * value) (entry : string * stage_lists) : Prop :=
  fst entry = fst agent
  /\ exists oi ob oo,
      stage_guardrails rt (snd agent) "input" = Loaded oi
      /\ stage_guardrails rt (snd agent) "behavioral" = Loaded ob
      /\ stage_guardrails rt (snd agent) "output" = Loaded oo
      /\ snd entry = by_stage (gi ++ oi) (gb ++ ob) (go ++ oo).

(** ** Further configurations to run the model on *)

Module Cases.

(** An output stage whose guardrail replaces a field two levels down; the
    store holds its fallback object and an output whose first level is a
    text. *)
Definition deep : GuardrailConfig :=
  Examples.guardrail "deep" Output "required(output.a.b)" Fallback 0%nat None.

Definition flat_objects : store :=
  [Plain (VStr "unknown"); Plain (VDict [("a", VStr "text")])].

(** An output stage whose first guardrail replaces a field by a mapping and
    whose second replaces a field of that field.  The stores hold the two
    fallback objects and an output: in the first the output holds a mapping
    of its own, in the second it holds the fallback object of the first
    guardrail. *)
Definition outer : GuardrailConfig :=
  Examples.guardrail "outer" Output "valid_enum(output.x, ['never'])" Fallback
    0%nat None.

Definition inner : GuardrailConfig :=
  Examples.guardrail "inner" Output "valid_enum(output.x.y, request.allowed)"
    Fallback 1%nat None.

Definition apart_objects : store :=
  [Plain (VDict [("y", VStr "abc")]); Plain (VStr "Z"); Dict [("x", Ref 3%nat)];
   Plain (VDict [("y", VStr "abc")])].

Definition shared_objects : store :=
  [Plain (VDict [("y", VStr "abc")]); Plain (VStr "Z"); Dict [("x", Ref 0%nat)]].

(** A behavioral stage: a limit on the tool calls and a list of allowed
    tools. *)
Definition tool_limit : GuardrailConfig :=
  Examples.guardrail "tool_limit" Behavioral "max_tool_calls(context, 2)" Block
    0%nat None.

Definition tools : GuardrailConfig :=
  Examples.guardrail "tools" Behavioral
    "allowed_tools(context, ['search', 'fetch'])" Block 0%nat None.

Definition behavioral_engine (guardrails : list GuardrailConfig)
  : GuardrailEngine :=
  {| config := {[ "default" := {[ "behavioral" := guardrails ]} ]};
     fail_open := false; _summary := empty_summary |}.


(** A document with one global guardrail and one agent, and an entry that
    lacks its threat. *)
Definition limit_entry : value :=
  VDict [("name", VStr "limit"); ("threat", VStr "cost");
         ("rule", VStr "max_length(request.text, 5)");
         ("response", VStr "block")].

Definition shorten_entry : value :=
  VDict [("name", VStr "shorten"); ("threat", VStr "quality");
         ("rule", VStr "max_length(output.text, 10)");
         ("response", VStr "truncate"); ("truncate_to", VInt 10)].

Definition document : list (string * value) :=
  [("global", VDict [("input", VList [limit_entry])]);
   ("agents", VDict [("writer", VDict [("output", VList [shorten_entry])])])].

Definition limit_loaded : LoadedGuardrail :=
  {| ld_name := VStr "limit"; ld_stage := VStr "input"; ld_threat := VStr "cost";
     ld_detection := VStr "deterministic";
     ld_rule := VStr "max_length(request.text, 5)"; ld_response := VStr "block";
     ld_enabled := VBool true; ld_error_message := VNone;
     ld_fallback_value := VNone; ld_truncate_to := VNone;
     ld_suffix := VStr "..." |}.

Definition shorten_loaded : LoadedGuardrail :=
  {| ld_name := VStr "shorten"; ld_stage := VStr "output";
     ld_threat := VStr "quality"; ld_detection := VStr "deterministic";
     ld_rule := VStr "max_length(output.text, 10)";
     ld_response := VStr "truncate"; ld_enabled := VBool true;
     ld_error_message := VNone; ld_fallback_value := VNone;
     ld_truncate_to := VInt 10; ld_suffix := VStr "..." |}.

Definition no_threat : list (string * value) :=
  [("name", VStr "limit"); ("rule", VStr "max_length(request.text, 5)");
   ("response", VStr "block")].

End Cases.

(** * Properties *)

(** ** The execution context *)

Lemma ctx_run_counts (ops : list ctx_op) (c : GuardrailContext) :
  tool_call_count (ctx_run c ops)
    = tool_call_count c + Z.of_nat (count_tool_calls ops)
  /\ length (tool_calls (ctx_run c ops))
    = (length (tool_calls c) + count_tool_calls ops)%nat
  /\ iteration_count (ctx_run c ops)
    = iteration_count c + Z.of_nat (count_iterations ops).
Proof.
  revert c. induction ops as [|op ops IH]; intros c.
  - cbn. repeat split; lia.
  - change (ctx_run c (op :: ops)) with (ctx_run (ctx_apply c op) ops).
    destruct (IH (ctx_apply c op)) as (Ht & Hl & Hi).
    rewrite Ht, Hl, Hi.
    destruct op; cbn [ctx_apply record_tool_call increment_iteration
                        tool_call_count tool_calls iteration_count
                        count_tool_calls count_iterations];
      rewrite ?length_app; cbn [length]; repeat split; lia.
Qed.

Lemma count_tool_calls_map (names : list string) :
  count_tool_calls (map RecordToolCall names) = length names.
Proof.
  induction names as [|n names IH]; cbn; [reflexivity|]. now rewrite IH.
Qed.

(** C10.  From a fresh context, a run of operations leaves
    [tool_call_count] equal to the number of [record_tool_call] calls in it
    and to the length of [tool_calls], and [iteration_count] equal to the
    number of [increment_iteration] calls; [increment_iteration] adds exactly
    one; and no operation, from any context, lowers either counter. *)
Theorem context_counters_monotonic :
  (forall now agent request ops,
      let c := ctx_run (create_context now agent request) ops in
      tool_call_count c = Z.of_nat (count_tool_calls ops)
      /\ tool_call_count c = Z.of_nat (length (tool_calls c))
      /\ iteration_count c = Z.of_nat (count_iterations ops))
  /\ (forall now agent request names,
      tool_call_count
        (ctx_run (create_context now agent request) (map RecordToolCall names))
      = Z.of_nat (length names))
  /\ (forall c, iteration_count (increment_iteration c) = iteration_count c + 1)
  /\ (forall c name, tool_call_count (record_tool_call c name) = tool_call_count c + 1)
  /\ (forall c op,
      tool_call_count c <= tool_call_count (ctx_apply c op)
      /\ iteration_count c <= iteration_count (ctx_apply c op)).
Proof.
  split; [|split; [|split; [|split]]].
  - intros now agent request ops c.
    destruct (ctx_run_counts ops (create_context now agent request))
      as (Ht & Hl & Hi).
    subst c. rewrite Ht, Hl, Hi. cbn. repeat split; lia.
  - intros now agent request names.
    destruct (ctx_run_counts (map RecordToolCall names)
                (create_context now agent request)) as (Ht & _).
    rewrite Ht, count_tool_calls_map. cbn [create_context tool_call_count].
    lia.
  - reflexivity.
  - reflexivity.
  - intros c op. destruct op; cbn; lia.
Qed.

(** ** The length rules *)

Lemma holds_le (a b : Z) : holds OpLe (Some (a ?= b)) = (a <=? b).
Proof.
  unfold Z.leb. destruct (a ?= b); reflexivity.
Qed.

Lemma holds_ge (a b : Z) : holds OpGe (Some (a ?= b)) = (b <=? a).
Proof.
  unfold Z.leb. rewrite (Z.compare_antisym a b).
  destruct (a ?= b); reflexivity.
Qed.

Lemma py_order_ints (op : ordering_op) (a b : Z) :
  py_order op (VInt a) (VInt b) = Ok (holds op (Some (a ?= b))).
Proof.
  reflexivity.
Qed.

(** C6, as the code has it.  [max_length] is true on [None] whatever the
    limit; on a string and an integer limit it is true exactly when the
    length of the string is at most the limit, and on any other value it
    compares the length of [str(value)] the same way.  [min_length] is false
    on [None]; on a string and an integer limit it is true exactly when the
    length of the string without its leading and trailing whitespace is at
    least the limit, and on any other value it compares the stripped
    [str(value)] the same way. *)
Theorem length_rules_on_text (rt : runtime) :
  (forall limit, max_length rt VNone limit = Ok true)
  /\ (forall s n, max_length rt (VStr s) (VInt n) = Ok (PyStr.len s <=? n))
  /\ (forall v n,
      max_length rt v (VInt n)
      = if is_none v then Ok true
        else let* text := py_str rt v in Ok (PyStr.len text <=? n))
  /\ (forall limit, min_length rt VNone limit = Ok false)
  /\ (forall s n,
      min_length rt (VStr s) (VInt n) = Ok (n <=? PyStr.len (PyStr.strip s)))
  /\ (forall v n,
      min_length rt v (VInt n)
      = if is_none v then Ok false
        else let* text := py_str rt v in Ok (n <=? PyStr.len (PyStr.strip text))).
Proof.
  split; [|split; [|split; [|split; [|split]]]].
  - reflexivity.
  - intros s n. unfold max_length. cbn [is_none py_str bind].
    now rewrite py_order_ints, holds_le.
  - intros v n. unfold max_length.
    destruct (is_none v); [reflexivity|].
    destruct (py_str rt v); cbn [bind]; [|reflexivity].
    now rewrite py_order_ints, holds_le.
  - reflexivity.
  - intros s n. unfold min_length. cbn [is_none py_str bind].
    now rewrite py_order_ints, holds_ge.
  - intros v n. unfold min_length.
    destruct (is_none v); [reflexivity|].
    destruct (py_str rt v); cbn [bind]; [|reflexivity].
    now rewrite py_order_ints, holds_ge.
Qed.

(** C6 fails as stated: a string of length 5 does not pass [min_length]
    with limit 3 when all but one of its characters are blanks, and
    [max_length] is true on the integer 5 with limit 3. *)
Lemma min_length_counts_stripped_text :
  min_length Sample.rt (VStr "  a  ") (VInt 3) = Ok false
  /\ (3 <=? PyStr.len "  a  ") = true
  /\ max_length Sample.rt (VInt 5) (VInt 3) = Ok true.
Proof.
  repeat split.
Qed.

(** ** The path resolver *)

Lemma reaches_follow (rt : runtime) (obj : value) (parts : list string)
  (v : value) :
  reaches rt obj parts v -> follow rt obj parts = v.
Proof.
  induction 1 as [v | d part rest v w Hget _ IH
                 | u part rest v w Hu Hattr _ IH].
  - reflexivity.
  - cbn. unfold py_dict_get. now rewrite Hget.
  - destruct u; try discriminate; cbn [follow]; now rewrite Hattr.
Qed.

Lemma follow_through (rt : runtime) (obj : value) (pre : list string)
  (v : value) (more : list string) :
  reaches rt obj pre v -> follow rt obj (pre ++ more) = follow rt v more.
Proof.
  induction 1 as [v | d part rest v w Hget _ IH
                 | u part rest v w Hu Hattr _ IH].
  - reflexivity.
  - cbn. unfold py_dict_get. now rewrite Hget.
  - destruct u; try discriminate; cbn [follow app]; now rewrite Hattr.
Qed.

Lemma follow_missing_attr (rt : runtime) (u : value) (part : string)
  (rest : list string) :
  is_dict u = false -> attribute rt u part = None ->
  follow rt u (part :: rest) = VNone.
Proof.
  intros Hu Hattr. destruct u; try discriminate; cbn [follow]; now rewrite Hattr.
Qed.

(** A value without fields has no attribute under a name that is no
    identifier: a list has none under a number. *)
Lemma plain_attribute (rt : runtime) (u : value) (part : string) :
  is_plain u = true -> is_identifier part = false -> attribute rt u part = None.
Proof.
  intros Hu Hid. unfold attribute. rewrite Hid.
  destruct u; try discriminate; reflexivity.
Qed.

Lemma number_not_identifier (c : ascii) (r : string) :
  PyStr.is_digit c = true -> is_identifier (String c r) = false.
Proof.
  intros H. cbn. rewrite H. now rewrite andb_false_r.
Qed.

Lemma append_nil (s : string) : "" ++ s = s.
Proof.
  reflexivity.
Qed.

Lemma append_cons (c : ascii) (a b : string) :
  String c a ++ b = String c (a ++ b).
Proof.
  reflexivity.
Qed.

Lemma split_cons (sep : ascii) (s : string) :
  exists p ps, PyStr.split sep s = p :: ps.
Proof.
  destruct s as [|c s]; cbn; [eauto|].
  destruct (Ascii.eqb c sep); [eauto|].
  destruct (PyStr.split sep s); eauto.
Qed.

Lemma split_app (sep : ascii) (a b : string) :
  PyStr.split sep (a ++ String sep b)
  = (PyStr.split sep a ++ PyStr.split sep b)%list.
Proof.
  induction a as [|c a IH].
  - rewrite append_nil. cbn [PyStr.split].
    now rewrite Ascii.eqb_refl.
  - rewrite append_cons. cbn [PyStr.split].
    rewrite IH. destruct (Ascii.eqb c sep); [reflexivity|].
    destruct (split_cons sep a) as (p & ps & ->). reflexivity.
Qed.

(** C2, as the code has it.  The resolver is a total function.  It returns
    the value the path reaches through the keys of mappings and the
    attributes of other values.  At a key the mapping does not hold it goes
    on from [None]; at an attribute the value does not have it returns
    [None].  A list, or a scalar, has no attribute under a name that is no
    identifier, so a numeric segment applied to a list yields [None],
    whether or not it is in bounds as an index. *)
Theorem get_nested_value_resolves (rt : runtime) (obj : value) (path : string) :
  (forall v, reaches rt obj (PyStr.split "." path) v ->
             _get_nested_value rt obj path = v)
  /\ (forall pre part rest u,
      PyStr.split "." path = (pre ++ part :: rest)%list ->
      reaches rt obj pre u ->
      (forall d, u = VDict d -> dict_get part d = None ->
                 _get_nested_value rt obj path = follow rt VNone rest)
      /\ (is_dict u = false -> attribute rt u part = None ->
          _get_nested_value rt obj path = VNone)
      /\ (is_plain u = true -> is_identifier part = false ->
          _get_nested_value rt obj path = VNone)
      /\ (forall l c r, u = VList l -> part = String c r ->
                        PyStr.is_digit c = true ->
                        _get_nested_value rt obj path = VNone)).
Proof.
  unfold _get_nested_value. split.
  - apply reaches_follow.
  - intros pre part rest u Hsplit Hr. rewrite Hsplit.
    rewrite (follow_through _ _ _ _ (part :: rest) Hr).
    assert (Hplain : is_plain u = true -> is_identifier part = false ->
                     follow rt u (part :: rest) = VNone).
    { intros Hu Hid. apply follow_missing_attr.
      - destruct u; try discriminate; reflexivity.
      - now apply plain_attribute. }
    repeat split.
    + intros d -> Hget. cbn. unfold py_dict_get. now rewrite Hget.
    + apply follow_missing_attr.
    + exact Hplain.
    + intros l c r -> -> Hc. apply Hplain; [reflexivity|].
      now apply number_not_identifier.
Qed.

(** C2 fails as stated: index 0 of a two-element list is in bounds, and the
    resolver yields [None], not the element. *)
Lemma get_nested_value_does_not_index_lists :
  _get_nested_value Sample.rt (VDict [("a", VList [VInt 10; VInt 20])]) "a.0"
  = VNone.
Proof.
  reflexivity.
Qed.

Lemma get_nested_value_resolves_witness :
  _get_nested_value Sample.rt (VDict [("a", VDict [("b", VInt 1)])]) "a.b"
  = VInt 1
  /\ _get_nested_value Sample.rt (VDict [("a", VList [VInt 10; VInt 20])]) "a.0"
     = VNone.
Proof.
  split.
  - apply (proj1 (get_nested_value_resolves Sample.rt
                    (VDict [("a", VDict [("b", VInt 1)])]) "a.b")).
    cbn. eapply reaches_key; [reflexivity|].
    eapply reaches_key; [reflexivity|]. constructor.
  - destruct (proj2 (get_nested_value_resolves Sample.rt
                       (VDict [("a", VList [VInt 10; VInt 20])]) "a.0")
                ["a"] "0" [] (VList [VInt 10; VInt 20]) eq_refl) as (_ & _ & _ & H).
    + eapply reaches_key; [reflexivity|]. constructor.
    + exact (H [VInt 10; VInt 20] "0"%char "" eq_refl eq_refl eq_refl).
Defined.

(** ** Text lemmas *)

Lemma lstrip_length (s : string) : (String.length (PyStr.lstrip s) <= String.length s)%nat.
Proof.
  induction s as [|c s IH]; cbn; [lia|].
  destruct (PyStr.is_space c); cbn; lia.
Qed.

Lemma rstrip_length (s : string) : (String.length (PyStr.rstrip s) <= String.length s)%nat.
Proof.
  induction s as [|c s IH]; cbn; [lia|].
  destruct (PyStr.rstrip s); [destruct (PyStr.is_space c)|]; cbn in *; lia.
Qed.

Lemma strip_length (s : string) : (String.length (PyStr.strip s) <= String.length s)%nat.
Proof.
  unfold PyStr.strip.
  pose proof (rstrip_length (PyStr.lstrip s)). pose proof (lstrip_length s). lia.
Qed.

Lemma drop_last_length (s : string) :
  (String.length (PyStr.drop_last s) <= String.length s)%nat.
Proof.
  induction s as [|c s IH]; cbn; [lia|].
  destruct s; cbn in *; lia.
Qed.

Lemma slice_1_m1_length (s : string) :
  PyStr.startswith "["%char s = true ->
  (String.length (PyStr.slice_1_m1 s) < String.length s)%nat.
Proof.
  destruct s as [|c s]; cbn; [discriminate|].
  intros _. pose proof (drop_last_length s). lia.
Qed.

Lemma split_item_length (sep : ascii) (s item : string) :
  In item (PyStr.split sep s) -> (String.length item <= String.length s)%nat.
Proof.
  revert item. induction s as [|c s IH]; intros item; cbn.
  - intros [<-|[]]. cbn. lia.
  - destruct (Ascii.eqb c sep).
    + intros [<-|Hin]; [cbn; lia|]. specialize (IH _ Hin). lia.
    + destruct (PyStr.split sep s) as [|p ps] eqn:Hs.
      * intros [<-|[]]. cbn. lia.
      * intros [<-|Hin].
        -- cbn. specialize (IH p (or_introl eq_refl)). lia.
        -- specialize (IH item (or_intror Hin)). lia.
Qed.

Lemma lstrip_nonspace (c : ascii) (s : string) :
  PyStr.is_space c = false -> PyStr.lstrip (String c s) = String c s.
Proof.
  intros H. cbn. now rewrite H.
Qed.

Lemma rstrip_nonspace_end (s : string) (c : ascii) :
  PyStr.is_space c = false ->
  PyStr.rstrip (s ++ String c "") = s ++ String c "".
Proof.
  intros H. induction s as [|d s IH].
  - rewrite append_nil. cbn. now rewrite H.
  - rewrite append_cons. cbn [PyStr.rstrip]. rewrite IH.
    destruct s; reflexivity.
Qed.

Lemma endswith_end (s : string) (c : ascii) :
  PyStr.endswith c (s ++ String c "") = true.
Proof.
  induction s as [|d s IH].
  - rewrite append_nil. cbn. apply Ascii.eqb_refl.
  - rewrite append_cons. cbn [PyStr.endswith].
    destruct s; [rewrite append_nil in *|rewrite append_cons in *]; exact IH.
Qed.

Lemma drop_last_end (s : string) (c : ascii) :
  PyStr.drop_last (s ++ String c "") = s.
Proof.
  induction s as [|d s IH].
  - reflexivity.
  - rewrite append_cons. cbn [PyStr.drop_last]. rewrite IH.
    destruct s; reflexivity.
Qed.

Lemma strip_fixed (c d : ascii) (s : string) :
  PyStr.is_space c = false -> PyStr.is_space d = false ->
  PyStr.strip (String c (s ++ String d "")) = String c (s ++ String d "").
Proof.
  intros Hc Hd. unfold PyStr.strip. rewrite (lstrip_nonspace _ _ Hc).
  rewrite <- append_cons. now apply rstrip_nonspace_end.
Qed.

(** ** The literal parser *)

Section Literals.

Variable rt : runtime.

Lemma parse_literal_fuel_S (n : nat) (token : string) :
  parse_literal_fuel rt (S n) token
  = literal_body rt (parse_literal_fuel rt n) token.
Proof.
  reflexivity.
Qed.

Lemma literal_body_ext (f g : string -> value) (token : string) :
  (forall item,
      PyStr.startswith "["%char (PyStr.strip token) = true ->
      In item (PyStr.split ","%char
                 (PyStr.strip (PyStr.slice_1_m1 (PyStr.strip token)))) ->
      f (PyStr.strip item) = g (PyStr.strip item)) ->
  literal_body rt f token = literal_body rt g token.
Proof.
  intros H. unfold literal_body.
  destruct (_ || _); [reflexivity|].
  destruct (String.eqb _ "true"); [reflexivity|].
  destruct (String.eqb _ "false"); [reflexivity|].
  destruct (parse_number rt _); [reflexivity|].
  destruct (quoted _); [reflexivity|].
  destruct (bracketed _) eqn:Hb; [|reflexivity].
  destruct (String.eqb _ ""); [reflexivity|].
  f_equal. apply map_ext_in. intros item Hin. apply H; [|exact Hin].
  unfold bracketed in Hb. now apply andb_true_iff in Hb.
Qed.

Lemma item_shorter (token item : string) :
  PyStr.startswith "["%char (PyStr.strip token) = true ->
  In item (PyStr.split ","%char
             (PyStr.strip (PyStr.slice_1_m1 (PyStr.strip token)))) ->
  (String.length (PyStr.strip item) < String.length token)%nat.
Proof.
  intros Hb Hin.
  pose proof (strip_length item).
  pose proof (split_item_length _ _ _ Hin).
  pose proof (strip_length (PyStr.slice_1_m1 (PyStr.strip token))).
  pose proof (slice_1_m1_length _ Hb).
  pose proof (strip_length token). lia.
Qed.

Lemma parse_literal_fuel_empty (n : nat) :
  parse_literal_fuel rt n "" = path_marker "".
Proof.
  destruct n; reflexivity.
Qed.

(** Fuel beyond the length of the token changes nothing. *)
Lemma parse_literal_fuel_stable (n : nat) :
  forall m token,
    (String.length token <= n)%nat -> (String.length token <= m)%nat ->
    parse_literal_fuel rt n token = parse_literal_fuel rt m token.
Proof.
  induction n as [|n IH]; intros m token Hn Hm.
  - destruct token; [|cbn in Hn; lia]. now rewrite !parse_literal_fuel_empty.
  - destruct m as [|m].
    + destruct token; [|cbn in Hm; lia]. now rewrite !parse_literal_fuel_empty.
    + rewrite !parse_literal_fuel_S. apply literal_body_ext.
      intros item Hb Hin. pose proof (item_shorter _ _ Hb Hin).
      apply IH; lia.
Qed.

(** The unfolding equation of [_parse_literal]. *)
Lemma parse_literal_unfold (token : string) :
  _parse_literal rt token = literal_body rt (_parse_literal rt) token.
Proof.
  unfold _parse_literal at 1.
  destruct (String.length token) as [|n] eqn:Hlen.
  - destruct token; [reflexivity|discriminate].
  - rewrite parse_literal_fuel_S. apply literal_body_ext.
    intros item Hb Hin. pose proof (item_shorter _ _ Hb Hin).
    unfold _parse_literal. apply parse_literal_fuel_stable; lia.
Qed.

End Literals.

Lemma eqb_first_char (c d : ascii) (s t : string) :
  Ascii.eqb c d = false -> String.eqb (String c s) (String d t) = false.
Proof.
  intros H. cbn. now rewrite H.
Qed.

Lemma float_of_text_quote (rt : runtime) (q : ascii) (s : string) :
  q = squote \/ q = dquote ->
  float_of_text rt (String q (s ++ String q "")) = None.
Proof.
  intros Hq. unfold float_of_text.
  rewrite strip_fixed by (destruct Hq; subst; reflexivity).
  destruct Hq; subst; reflexivity.
Qed.

Lemma int_of_text_quote (rt : runtime) (q : ascii) (s : string) :
  q = squote \/ q = dquote -> int_of_text rt (String q s) = None.
Proof.
  intros [->| ->]; reflexivity.
Qed.

Lemma parse_number_quote (rt : runtime) (q : ascii) (s : string) :
  q = squote \/ q = dquote ->
  parse_number rt (String q (s ++ String q "")) = None.
Proof.
  intros Hq. unfold parse_number.
  destruct (PyStr.contains_char _ _).
  - now rewrite float_of_text_quote.
  - now rewrite int_of_text_quote.
Qed.

(** A token between two single quotes, or two double quotes, is the text
    between them, whatever that text is. *)
Lemma parse_literal_quoted (rt : runtime) (q : ascii) (s : string) :
  q = squote \/ q = dquote ->
  _parse_literal rt (String q (s ++ String q "")) = VStr s.
Proof.
  intros Hq. rewrite parse_literal_unfold. unfold literal_body.
  rewrite strip_fixed by (destruct Hq; subst; reflexivity).
  rewrite (parse_number_quote rt q s Hq).
  assert (Hquoted : quoted (String q (s ++ String q "")) = true).
  { unfold quoted.
    destruct Hq; subst; rewrite <- append_cons, endswith_end; cbn;
      rewrite ?orb_true_r; reflexivity. }
  rewrite Hquoted.
  cbn [PyStr.slice_1_m1]. rewrite drop_last_end.
  destruct Hq; subst; reflexivity.
Qed.

(** C9.  [_parse_literal] classifies the stripped token [t] in this order:
    [none]/[null] in any letter case are [None]; [true]/[false] are the
    booleans; a token holding a decimal point that [float()] reads is that
    float, one without that [int()] reads is that integer, and a number is a
    float exactly when the token holds a decimal point; a token that starts
    and ends with the same quote character is the text between, unescaped;
    a token in square brackets is the list of its comma-separated items, each
    parsed the same way; anything else is a path marker carrying [t].  So a
    quoted token is its inner text whatever that is: ['123'] reads as the
    text [123]. *)
Theorem parse_literal_classifies (rt : runtime) (token : string) :
  let t := PyStr.strip token in
  let low := PyStr.lower t in
  let inner := PyStr.strip (PyStr.slice_1_m1 t) in
  (String.eqb low "none" || String.eqb low "null" = true ->
   _parse_literal rt token = VNone)
  /\ (is_keyword low = true ->
      forall b : bool, String.eqb low (if b then "true" else "false") = true ->
                _parse_literal rt token = VBool b)
  /\ (is_keyword low = false ->
      (forall f, PyStr.contains_char "."%char t = true ->
                 float_of_text rt t = Some f ->
                 _parse_literal rt token = VFloat f)
      /\ (forall n, PyStr.contains_char "."%char t = false ->
                    int_of_text rt t = Some n ->
                    _parse_literal rt token = VInt n)
      /\ (parse_number rt t = None ->
          (quoted t = true -> _parse_literal rt token = VStr (PyStr.slice_1_m1 t))
          /\ (quoted t = false -> bracketed t = true ->
              _parse_literal rt token
              = VList (if String.eqb inner "" then []
                       else map (fun item => _parse_literal rt (PyStr.strip item))
                              (PyStr.split ","%char inner)))
          /\ (quoted t = false -> bracketed t = false ->
              _parse_literal rt token = path_marker t)))
  /\ (forall f, _parse_literal rt token = VFloat f ->
                PyStr.contains_char "."%char t = true)
  /\ (forall n, _parse_literal rt token = VInt n ->
                PyStr.contains_char "."%char t = false)
  /\ (forall q s, q = squote \/ q = dquote ->
                  _parse_literal rt (String q (s ++ String q "")) = VStr s)
  /\ _parse_literal rt "'123'" = VStr "123".
Proof.
  intros t low inner.
  pose proof (parse_literal_unfold rt token) as E.
  unfold literal_body in E. fold t in E. fold low in E. fold inner in E.
  assert (Hnum : parse_number rt t
                 = if PyStr.contains_char "."%char t
                   then option_map VFloat (float_of_text rt t)
                   else option_map VInt (int_of_text rt t)) by reflexivity.
  refine (conj _ (conj _ (conj _ (conj _ (conj _
            (conj (parse_literal_quoted rt) _)))))).
  - intros K. now rewrite K in E.
  - intros _ b Hb.
    destruct (String.eqb low "none") eqn:A.
    { apply String.eqb_eq in A. rewrite A in Hb. destruct b; discriminate. }
    destruct (String.eqb low "null") eqn:B.
    { apply String.eqb_eq in B. rewrite B in Hb. destruct b; discriminate. }
    cbn [orb] in E. destruct b.
    + now rewrite Hb in E.
    + destruct (String.eqb low "true") eqn:C.
      { apply String.eqb_eq in C. rewrite C in Hb. discriminate. }
      now rewrite Hb in E.
  - unfold is_keyword. intros K.
    apply orb_false_iff in K as [K K3]. apply orb_false_iff in K as [K K2].
    rewrite K, K2, K3 in E. split; [|split].
    + intros f Hdot Hf. rewrite E, Hnum, Hdot, Hf. reflexivity.
    + intros n Hdot Hn. rewrite E, Hnum, Hdot, Hn. reflexivity.
    + intros Hnone. rewrite Hnone in E. split; [|split].
      * intros Hq. now rewrite Hq in E.
      * intros Hq Hb. rewrite Hq, Hb in E. rewrite E.
        now destruct (String.eqb inner "").
      * intros Hq Hb. now rewrite Hq, Hb in E.
  - intros f Hf. rewrite Hf, Hnum in E.
    destruct (_ || _); [discriminate|].
    destruct (String.eqb low "true"); [discriminate|].
    destruct (String.eqb low "false"); [discriminate|].
    destruct (PyStr.contains_char "."%char t); [reflexivity|].
    destruct (int_of_text rt t); cbn in E; [discriminate|].
    destruct (quoted t); [discriminate|].
    destruct (bracketed t); [|discriminate].
    destruct (String.eqb inner ""); discriminate.
  - intros n Hn. rewrite Hn, Hnum in E.
    destruct (_ || _); [discriminate|].
    destruct (String.eqb low "true"); [discriminate|].
    destruct (String.eqb low "false"); [discriminate|].
    destruct (PyStr.contains_char "."%char t); [|reflexivity].
    destruct (float_of_text rt t); cbn in E; [discriminate|].
    destruct (quoted t); [discriminate|].
    destruct (bracketed t); [|discriminate].
    destruct (String.eqb inner ""); discriminate.
  - apply (parse_literal_quoted rt squote "123"). now left.
Qed.

Lemma parse_literal_classifies_witness :
  _parse_literal Sample.rt " NULL " = VNone
  /\ _parse_literal Sample.rt "[1, 'a']" = VList [VInt 1; VStr "a"]
  /\ _parse_literal Sample.rt "1e5" = path_marker "1e5".
Proof.
  split; [|split].
  - apply (proj1 (parse_literal_classifies Sample.rt " NULL ")). reflexivity.
  - destruct (parse_literal_classifies Sample.rt "[1, 'a']")
      as (_ & _ & H & _).
    destruct (H eq_refl) as (_ & _ & H').
    destruct (H' eq_refl) as (_ & Hl & _).
    exact (Hl eq_refl eq_refl).
  - destruct (parse_literal_classifies Sample.rt "1e5") as (_ & _ & H & _).
    destruct (H eq_refl) as (_ & _ & H').
    destruct (H' eq_refl) as (_ & _ & Hp).
    exact (Hp eq_refl eq_refl).
Defined.

(** ** Comparisons *)

(** The only mapping [_parse_literal] returns is a path marker. *)
Lemma parse_literal_dict (rt : runtime) (token : string) (d : list (string * value)) :
  _parse_literal rt token = VDict d ->
  d = [("__path__", VStr (PyStr.strip token))].
Proof.
  rewrite parse_literal_unfold. unfold literal_body, parse_number.
  destruct (_ || _); [discriminate|].
  destruct (String.eqb _ "true"); [discriminate|].
  destruct (String.eqb _ "false"); [discriminate|].
  destruct (PyStr.contains_char _ _).
  - destruct (float_of_text _ _); cbn; [discriminate|].
    destruct (quoted _); [discriminate|].
    destruct (bracketed _); [destruct (String.eqb _ ""); discriminate|].
    unfold path_marker. congruence.
  - destruct (int_of_text _ _); cbn; [discriminate|].
    destruct (quoted _); [discriminate|].
    destruct (bracketed _); [destruct (String.eqb _ ""); discriminate|].
    unfold path_marker. congruence.
Qed.

(** Resolving a parsed token never raises. *)
Lemma resolve_parsed (rt : runtime) (token : string) (context : value) :
  _resolve_value rt (_parse_literal rt token) context
  = Ok (operand rt token context).
Proof.
  unfold operand, _resolve_value.
  destruct (_parse_literal rt token) eqn:E; try reflexivity.
  apply parse_literal_dict in E. subst d. reflexivity.
Qed.

(** A path token stands for what the resolver returns on it. *)
Lemma operand_path (rt : runtime) (token : string) (context : value) :
  _parse_literal rt token = path_marker (PyStr.strip token) ->
  operand rt token context = _get_nested_value rt context (PyStr.strip token).
Proof.
  unfold operand. now intros ->.
Qed.

(** C7.  With [l] and [r] the values the two operands stand for (absent and
    null both being [None]): [==] is [l == r] and [!=] its negation, on any
    values; each ordering operator is false when [l] or [r] is [None], and
    the comparison of [l] and [r] otherwise; [in] is false and [not in] true
    when [r] is [None]; and [not in] is the negation of [in] on every pair
    of operands, raising exactly when [in] raises. *)
Theorem comparison_semantics (rt : runtime) (left right : string) (context : value) :
  let l := operand rt left context in
  let r := operand rt right context in
  let eval op := _evaluate_comparison rt left op right context in
  eval "==" = Ok (py_eq l r)
  /\ eval "!=" = Ok (negb (py_eq l r))
  /\ eval ">" = (if is_none l || is_none r then Ok false else py_order OpGt l r)
  /\ eval "<" = (if is_none l || is_none r then Ok false else py_order OpLt l r)
  /\ eval ">=" = (if is_none l || is_none r then Ok false else py_order OpGe l r)
  /\ eval "<=" = (if is_none l || is_none r then Ok false else py_order OpLe l r)
  /\ eval "in" = (if is_none r then Ok false else py_in l r)
  /\ eval "not_in" = (if is_none r then Ok true else negate (py_in l r))
  /\ eval "not_in" = negate (eval "in").
Proof.
  intros l r eval. subst eval. unfold _evaluate_comparison.
  rewrite !resolve_parsed. fold l. fold r. cbn [bind].
  repeat match goal with |- _ /\ _ => split end; try reflexivity.
  cbn. destruct (is_none r); reflexivity.
Qed.

(** ** Function-call rules *)

Lemma append_assoc (a b c : string) : (a ++ b) ++ c = a ++ (b ++ c).
Proof.
  induction a as [|x a IH]; [reflexivity|].
  rewrite !append_cons. now rewrite IH.
Qed.

Lemma word_not_space (c : ascii) :
  PyStr.is_word c = true -> PyStr.is_space c = false.
Proof.
  destruct c as [[] [] [] [] [] [] [] []]; vm_compute; congruence.
Qed.

Lemma space_not_word (c : ascii) :
  PyStr.is_space c = true -> PyStr.is_word c = false.
Proof.
  destruct c as [[] [] [] [] [] [] [] []]; vm_compute; congruence.
Qed.

Lemma span_all (p : ascii -> bool) (a : string) (c : ascii) (b : string) :
  all_chars p a = true -> p c = false ->
  span p (a ++ String c b) = (a, String c b).
Proof.
  intros Ha Hc. induction a as [|x a IH].
  - rewrite append_nil. cbn. now rewrite Hc.
  - cbn in Ha. apply andb_true_iff in Ha as [Hx Ha].
    rewrite append_cons. cbn [span]. now rewrite Hx, (IH Ha).
Qed.

Lemma lstrip_spaces (ws : string) (c : ascii) (s : string) :
  all_chars PyStr.is_space ws = true -> PyStr.is_space c = false ->
  PyStr.lstrip (ws ++ String c s) = String c s.
Proof.
  intros Hws Hc. induction ws as [|x ws IH].
  - rewrite append_nil. now apply lstrip_nonspace.
  - cbn in Hws. apply andb_true_iff in Hws as [Hx Hws].
    rewrite append_cons. cbn [PyStr.lstrip]. now rewrite Hx, (IH Hws).
Qed.

(** A name, blanks and a parenthesised argument text is a rule in
    function-call form, with that name. *)
Lemma func_match_call (name ws args : string) :
  name <> "" ->
  all_chars PyStr.is_word name = true ->
  all_chars PyStr.is_space ws = true ->
  let rule := name ++ ws ++ String "(" (args ++ ")") in
  PyStr.strip rule = rule
  /\ func_match rule = Some (name, PyStr.drop_last (PyStr.lstrip (args ++ ")"))).
Proof.
  intros Hne Hname Hws rule. split.
  - subst rule. destruct name as [|c name]; [congruence|].
    cbn in Hname. apply andb_true_iff in Hname as [Hc _].
    rewrite append_cons.
    replace (name ++ ws ++ String "(" (args ++ ")"))
      with ((name ++ ws ++ String "(" args) ++ String ")" "").
    + apply strip_fixed; [now apply word_not_space|reflexivity].
    + rewrite !append_assoc, append_cons. reflexivity.
  - subst rule. unfold func_match.
    assert (Hspan : span PyStr.is_word (name ++ ws ++ String "(" (args ++ ")"))
                    = (name, ws ++ String "(" (args ++ ")"))).
    { destruct ws as [|w ws].
      - rewrite append_nil. now apply span_all.
      - rewrite append_cons. apply span_all; [exact Hname|].
        cbn in Hws. apply andb_true_iff in Hws as [Hw _].
        now apply space_not_word. }
    rewrite Hspan.
    rewrite (lstrip_spaces ws "(" _ Hws eq_refl).
    destruct name as [|c name]; [congruence|].
    now rewrite endswith_end.
Qed.

(** C8.  A rule in function-call form whose name is not in the registry
    evaluates to a parse error that names the function, whatever the
    fail-open setting; in the engine, fail-open turns that error into a
    result that is not triggered and whose message records it, and without
    fail-open the parse error propagates.  A name, optional blanks and a
    parenthesised argument text is such a rule. *)
Theorem unknown_function_is_parse_error (rt : runtime)
  (_rules : gmap string rule_fn) (rule name args_str : string) (context : value) :
  func_match (PyStr.strip rule) = Some (name, args_str) ->
  _rules !! name = None ->
  evaluate_rule rt _rules rule context
  = Raise (RuleParseError ("Unknown rule function: " ++ name))
  /\ (forall self guardrail,
      cfg_rule guardrail = rule ->
      _evaluate_guardrail rt _rules self guardrail context
      = if fail_open self
        then Ok (error_result guardrail
                   ("Rule parse error: Unknown rule function: " ++ name))
        else Raise (RuleParseError ("Unknown rule function: " ++ name)))
  /\ (forall self guardrail,
      cfg_rule guardrail = rule ->
      fail_open self = true ->
      exists r,
        _evaluate_guardrail rt _rules self guardrail context = Ok r
        /\ res_name r = cfg_name guardrail
        /\ res_triggered r = false
        /\ res_response r = None
        /\ res_message r
           = Some ("Rule parse error: Unknown rule function: " ++ name)
        /\ res_details r = [])
  /\ (forall fname ws args,
      fname <> "" ->
      all_chars PyStr.is_word fname = true ->
      all_chars PyStr.is_space ws = true ->
      func_match (PyStr.strip (fname ++ ws ++ String "(" (args ++ ")")))
      = Some (fname, PyStr.drop_last (PyStr.lstrip (args ++ ")")))).
Proof.
  intros Hm Hnone.
  assert (E : evaluate_rule rt _rules rule context
              = Raise (RuleParseError ("Unknown rule function: " ++ name))).
  { unfold evaluate_rule. rewrite Hm.
    unfold _evaluate_function, get_rule. now rewrite Hnone. }
  split; [exact E|]. split; [|split].
  - intros self guardrail Hrule. unfold _evaluate_guardrail.
    rewrite Hrule, E. reflexivity.
  - intros self guardrail Hrule Hfo.
    exists (error_result guardrail
              ("Rule parse error: Unknown rule function: " ++ name)).
    unfold _evaluate_guardrail. rewrite Hrule, E, Hfo. repeat split.
  - intros fname ws args Hne Hw Hs.
    destruct (func_match_call fname ws args Hne Hw Hs) as [-> ->].
    reflexivity.
Qed.

Lemma unknown_function_is_parse_error_witness :
  evaluate_rule Sample.rt (builtin_rules Sample.rt)
    "no_such_rule(request.text)" (VDict [("request", Examples.request)])
  = Raise (RuleParseError "Unknown rule function: no_such_rule")
  /\ (exists r,
        _evaluate_guardrail Sample.rt (builtin_rules Sample.rt)
          (Examples.engine true [Examples.unknown_rule] [])
          Examples.unknown_rule (VDict [("request", Examples.request)]) = Ok r
        /\ res_name r = "unknown"
        /\ res_triggered r = false
        /\ res_response r = None
        /\ res_message r
           = Some "Rule parse error: Unknown rule function: no_such_rule"
        /\ res_details r = [])
  /\ _evaluate_guardrail Sample.rt (builtin_rules Sample.rt)
       (Examples.engine false [Examples.unknown_rule] [])
       Examples.unknown_rule (VDict [("request", Examples.request)])
     = Raise (RuleParseError "Unknown rule function: no_such_rule").
Proof.
  destruct (unknown_function_is_parse_error Sample.rt
              (builtin_rules Sample.rt) "no_such_rule(request.text)"
              "no_such_rule" "request.text"
              (VDict [("request", Examples.request)]) eq_refl eq_refl)
    as (Heval & Hpolicy & Hopen & _).
  split; [exact Heval|]. split.
  - exact (Hopen (Examples.engine true [Examples.unknown_rule] [])
             Examples.unknown_rule eq_refl eq_refl).
  - exact (Hpolicy (Examples.engine false [Examples.unknown_rule] [])
             Examples.unknown_rule eq_refl).
Defined.

(** ** The input stage *)

Section InputStage.

Variable rt : runtime.
Variable _rules : gmap string rule_fn.

Lemma evaluate_guardrail_ok (self : GuardrailEngine) (g : GuardrailConfig)
  (context : value) (passed : bool) :
  evaluate_rule rt _rules (cfg_rule g) context = Ok passed ->
  _evaluate_guardrail rt _rules self g context
  = Ok (if passed then passed_result g else triggered_result g).
Proof.
  unfold _evaluate_guardrail. intros ->. now destruct passed.
Qed.

Lemma evaluate_guardrail_raise (self : GuardrailEngine) (g : GuardrailConfig)
  (context : value) (e : exn) :
  evaluate_rule rt _rules (cfg_rule g) context = Raise e ->
  _evaluate_guardrail rt _rules self g context
  = if fail_open self then Ok (error_result g (degraded_message e)) else Raise e.
Proof.
  unfold _evaluate_guardrail. intros ->. now destruct e.
Qed.

(** C5.  When the first guardrail of an agent's input list is enabled, has
    response [block] and its rule evaluates to false, [check_input] raises
    the block error that carries its name and the stage, and the summary
    gains the result of that guardrail and nothing else: whatever follows
    it in the list is not evaluated and leaves no result. *)
Theorem first_block_short_circuits (self : GuardrailEngine) (agent : string)
  (request : value) (g1 : GuardrailConfig) (rest : list GuardrailConfig) :
  _get_guardrails self agent "input" = g1 :: rest ->
  cfg_enabled g1 = true ->
  cfg_response g1 = Block ->
  evaluate_rule rt _rules (cfg_rule g1) (VDict [("request", request)]) = Ok false ->
  check_input rt _rules self agent request
  = (with_summary self (add_result (_summary self) (triggered_result g1)),
     Raise (GuardrailBlockError (cfg_name g1) "input" (block_message g1) []))
  /\ (cfg_stage g1 = Input ->
      let s' := add_result (_summary self) (triggered_result g1) in
      sum_input s' = (sum_input (_summary self) ++ [triggered_result g1])%list
      /\ sum_behavioral s' = sum_behavioral (_summary self)
      /\ sum_output s' = sum_output (_summary self)
      /\ sum_blocked s' = true
      /\ sum_stage_blocked s' = Some Input).
Proof.
  intros Hlist Hen Hresp Heval. split.
  - unfold check_input. rewrite Hlist. cbn [check_input_loop].
    rewrite Hen. cbn [negb].
    rewrite (evaluate_guardrail_ok self g1 _ false Heval).
    unfold is_block, triggered_result. cbn. now rewrite Hresp.
  - intros Hstage s'. subst s'. unfold add_result, is_block, triggered_result.
    cbn. rewrite Hstage, Hresp. repeat split.
Qed.

(** C4, as the code has it.  A failed evaluation of a guardrail is caught
    in [_evaluate_guardrail].  Under fail-open it degrades to a result that
    is not triggered and whose message records the error text, and
    [check_input] goes on with the guardrails that follow; without fail-open
    the exception is raised again and ends the stage there. *)
Theorem evaluation_error_policy (self : GuardrailEngine) (request : value)
  (g : GuardrailConfig) (rest : list GuardrailConfig)
  (results : list GuardrailResult) (e : exn) :
  cfg_enabled g = true ->
  evaluate_rule rt _rules (cfg_rule g) (VDict [("request", request)]) = Raise e ->
  let r := error_result g (degraded_message e) in
  (fail_open self = true ->
   _evaluate_guardrail rt _rules self g (VDict [("request", request)]) = Ok r
   /\ res_triggered r = false
   /\ res_message r = Some (degraded_message e)
   /\ check_input_loop rt _rules self request (g :: rest) results
      = check_input_loop rt _rules
          (with_summary self (add_result (_summary self) r)) request rest
          (results ++ [r])%list)
  /\ (fail_open self = false ->
      _evaluate_guardrail rt _rules self g (VDict [("request", request)]) = Raise e
      /\ check_input_loop rt _rules self request (g :: rest) results
         = (self, Raise e)).
Proof.
  intros Hen Heval r.
  pose proof (evaluate_guardrail_raise self g _ e Heval) as E.
  split; intros Hfo; rewrite Hfo in E.
  - repeat split; [exact E|].
    cbn [check_input_loop]. rewrite Hen. cbn [negb]. now rewrite E.
  - split; [exact E|].
    cbn [check_input_loop]. rewrite Hen. cbn [negb]. now rewrite E.
Qed.

End InputStage.

Lemma first_block_short_circuits_witness :
  check_input Sample.rt Examples.rules
    (Examples.engine false [Examples.too_long; Examples.long_enough] [])
    "writer" Examples.request
  = (with_summary
       (Examples.engine false [Examples.too_long; Examples.long_enough] [])
       (add_result empty_summary (triggered_result Examples.too_long)),
     Raise (GuardrailBlockError "max_length" "input"
              "Blocked by guardrail: max_length" [])).
Proof.
  apply (proj1 (first_block_short_circuits Sample.rt Examples.rules
                  (Examples.engine false
                     [Examples.too_long; Examples.long_enough] [])
                  "writer" Examples.request Examples.too_long
                  [Examples.long_enough] eq_refl eq_refl eq_refl eq_refl)).
Defined.

(** C4 fails as stated: without fail-open, the parse error of the first
    guardrail ends the stage, and the guardrail after it, which evaluates
    without error when it is run, is not evaluated and leaves no result. *)
Lemma parse_error_ends_the_stage :
  check_input Sample.rt Examples.rules
    (Examples.engine false [Examples.unknown_rule; Examples.long_enough] [])
    "writer" Examples.request
  = (Examples.engine false [Examples.unknown_rule; Examples.long_enough] [],
     Raise (RuleParseError "Unknown rule function: no_such_rule"))
  /\ snd (check_input Sample.rt Examples.rules
            (Examples.engine false [Examples.long_enough] [])
            "writer" Examples.request)
     = Ok [passed_result Examples.long_enough].
Proof.
  split; reflexivity.
Qed.

Lemma evaluation_error_policy_witness :
  check_input_loop Sample.rt Examples.rules
    (Examples.engine true [] []) Examples.request
    [Examples.unknown_rule; Examples.long_enough] []
  = check_input_loop Sample.rt Examples.rules
      (with_summary (Examples.engine true [] [])
         (add_result empty_summary
            (error_result Examples.unknown_rule
               "Rule parse error: Unknown rule function: no_such_rule")))
      Examples.request [Examples.long_enough]
      [error_result Examples.unknown_rule
         "Rule parse error: Unknown rule function: no_such_rule"].
Proof.
  destruct (evaluation_error_policy Sample.rt Examples.rules
              (Examples.engine true [] []) Examples.request
              Examples.unknown_rule [Examples.long_enough] []
              (RuleParseError "Unknown rule function: no_such_rule")
              eq_refl eq_refl) as [Hopen _].
  exact (proj2 (proj2 (proj2 (Hopen eq_refl)))).
Defined.

(** ** The output stage *)

Section OutputStage.

Variable rt : runtime.
Variable _rules : gmap string rule_fn.

(** C1, as the code has it.  For a guardrail whose rule text holds no
    [output.] field path: truncation applies to the output root only when
    the root is a string (the returned object is a new string, the first
    [truncate_to] characters and the suffix), and is inert on any other
    root, which it returns as it is; fallback returns the configured
    fallback object in place of the root, whatever the root is.  Neither
    changes an object of the store.  So when such a guardrail triggers in
    [check_output], a truncation on a root that is no string leaves the
    stage to go on as after a flag, and a fallback lets it go on with the
    configured object as the output. *)
Theorem root_remediation (h : store) (output : loc) (g : GuardrailConfig)
  (r : GuardrailResult) :
  _extract_field_from_rule (cfg_rule g) "output." = None ->
  (forall n s,
      cfg_truncate_to g = Some n -> deref h output = VStr s ->
      _apply_truncate h output g r
      = ((h ++ [Plain (VStr (PyStr.slice_to n s ++ cfg_suffix g))])%list,
         set_detail (set_detail r "original_length" (VInt (PyStr.len s)))
           "truncated_to" (VInt n),
         Ok (length h)))
  /\ (is_str (deref h output) = false ->
      _apply_truncate h output g r = (h, r, Ok output))
  /\ _apply_fallback h output g r
     = (h,
        set_detail (set_detail r "original_value" (deref h output))
          "fallback_value" (deref h (cfg_fallback_value g)),
        Ok (cfg_fallback_value g))
  /\ (forall self request rest results,
      cfg_enabled g = true ->
      evaluate_rule rt _rules (cfg_rule g)
        (VDict [("request", request); ("output", deref h output)]) = Ok false ->
      let record r' := with_summary self (add_result (_summary self) r') in
      let t := triggered_result g in
      let f := set_detail (set_detail t "original_value" (deref h output))
                 "fallback_value" (deref h (cfg_fallback_value g)) in
      (cfg_response g = Truncate -> is_str (deref h output) = false ->
       check_output_loop rt _rules self h request output (g :: rest) results
       = check_output_loop rt _rules (record t) h request output rest
           (results ++ [t])%list)
      /\ (cfg_response g = Fallback ->
          check_output_loop rt _rules self h request output (g :: rest) results
          = check_output_loop rt _rules (record f) h request
              (cfg_fallback_value g) rest (results ++ [f])%list)).
Proof.
  intros Hfield.
  assert (Hinert : forall r0, is_str (deref h output) = false ->
                              _apply_truncate h output g r0 = (h, r0, Ok output)).
  { intros r0 Hs. unfold _apply_truncate. rewrite Hfield.
    destruct (cfg_truncate_to g); [|reflexivity].
    destruct (deref h output); try reflexivity. discriminate. }
  assert (Hfall : forall r0,
             _apply_fallback h output g r0
             = (h,
                set_detail (set_detail r0 "original_value" (deref h output))
                  "fallback_value" (deref h (cfg_fallback_value g)),
                Ok (cfg_fallback_value g))).
  { intros r0. unfold _apply_fallback. rewrite Hfield. reflexivity. }
  split; [|split; [|split]].
  - intros n s Hn Hs. unfold _apply_truncate. rewrite Hn, Hfield, Hs.
    reflexivity.
  - apply Hinert.
  - apply Hfall.
  - intros self request rest results Hen Heval record t f.
    assert (E : _evaluate_guardrail rt _rules self g
                  (VDict [("request", request); ("output", deref h output)])
                = Ok t).
    { unfold _evaluate_guardrail. now rewrite Heval. }
    split; intros Hresp.
    + intros Hs. cbn [check_output_loop]. rewrite Hen. cbn [negb].
      rewrite E. cbn [triggered_result res_triggered res_response t].
      subst t. cbn [triggered_result res_triggered res_response].
      rewrite Hresp. now rewrite (Hinert _ Hs).
    + cbn [check_output_loop]. rewrite Hen. cbn [negb].
      rewrite E. subst t. cbn [triggered_result res_triggered res_response].
      rewrite Hresp. now rewrite Hfall.
Qed.

End OutputStage.

(** C1 fails as stated: the root is a mapping, not a string, the rule text
    holds no [output.] path, and the fallback is not inert: the output
    [check_output] returns is the fallback object, the text [Z]. *)
Lemma fallback_replaces_any_root :
  _extract_field_from_rule (cfg_rule Examples.shape) "output." = None
  /\ deref Examples.objects 2%nat = VDict [("x", VStr "draft")]
  /\ snd (_apply_fallback Examples.objects 2%nat Examples.shape
            (triggered_result Examples.shape))
     = Ok 0%nat
  /\ deref Examples.objects 0%nat = VDict [("x", VStr "abc")]
  /\ (let '(_, h', out) :=
         check_output Sample.rt Examples.rules
           (Examples.engine false [] [Examples.shape]) Examples.objects
           "writer" (Examples.allowing "abc") 2%nat in
       match out with
       | Ok (l, _) => deref h' l
       | Raise _ => VNone
       end) = VDict [("x", VStr "abc")].
Proof.
  repeat split.
Qed.

Lemma root_remediation_witness :
  _apply_truncate Examples.objects 1%nat Examples.cut
    (triggered_result Examples.cut)
  = ((Examples.objects ++ [Plain (VStr "Z...")])%list,
     set_detail (set_detail (triggered_result Examples.cut)
                   "original_length" (VInt 1)) "truncated_to" (VInt 4),
     Ok 3%nat)
  /\ _apply_truncate Examples.objects 2%nat Examples.cut
       (triggered_result Examples.cut)
     = (Examples.objects, triggered_result Examples.cut, Ok 2%nat).
Proof.
  destruct (root_remediation Sample.rt Examples.rules Examples.objects 1%nat
              Examples.cut (triggered_result Examples.cut) eq_refl)
    as (Hcut & _).
  destruct (root_remediation Sample.rt Examples.rules Examples.objects 2%nat
              Examples.cut (triggered_result Examples.cut) eq_refl)
    as (_ & Hinert & _).
  split.
  - exact (Hcut 4 "Z" eq_refl eq_refl).
  - exact (Hinert eq_refl).
Defined.

(** C3 at an input the code can receive: an output that is the object an
    earlier call returned.  The first call replaces the caller's output by
    the fallback mapping the configuration holds and returns that object;
    the second call, given it back with another request, copies it, replaces
    the copy by the same object, and then writes the second guardrail's
    fallback into it: the caller's output argument, [{"x": "abc"}] before
    the call, is [{"x": "Z"}] after it. *)
Lemma check_output_mutates_returned_fallback :
  let eng := Examples.engine false [] [Examples.shape; Examples.label] in
  let '(eng1, h1, out1) :=
    check_output Sample.rt Examples.rules eng Examples.objects "writer"
      (Examples.allowing "abc") 2%nat in
  let '(_, h2, out2) :=
    check_output Sample.rt Examples.rules eng1 h1 "writer"
      (Examples.allowing "other") 0%nat in
  (exists results, out1 = Ok (0%nat, results))
  /\ deref h1 2%nat = deref Examples.objects 2%nat
  /\ deref h1 0%nat = VDict [("x", VStr "abc")]
  /\ (exists results, out2 = Ok (0%nat, results))
  /\ deref h2 0%nat = VDict [("x", VStr "Z")].
Proof.
  vm_compute. repeat split; eexists; reflexivity.
Qed.

(** ** The scenarios of the repository's tests *)

Example scenario_membership :
  let status s := VDict [("output", VDict [("status", VStr s)])] in
  let eval rule s := evaluate_rule Sample.rt Examples.rules rule (status s) in
  eval "output.status in ['active','pending']" "active" = Ok true
  /\ eval "output.status in ['active','pending']" "inactive" = Ok false
  /\ eval "output.status not in ['active','pending']" "active" = Ok false
  /\ eval "output.status not in ['active','pending']" "inactive" = Ok true.
Proof.
  repeat split.
Qed.

Example scenario_truncate :
  let text := "this is a very long text that should be truncated" in
  let r := set_detail
             (set_detail (triggered_result Examples.truncate_text)
                "original_length" (VInt 49)) "truncated_to" (VInt 10) in
  Examples.run_output [Examples.truncate_text] (VDict [("text", VStr text)])
  = (Ok (VDict [("text", VStr "this is a ...")], [r]),
     VDict [("text", VStr text)]).
Proof.
  reflexivity.
Qed.

Example scenario_fallback :
  let r := set_detail
             (set_detail (triggered_result Examples.fallback_confidence)
                "original_value" (VStr "INVALID_VALUE"))
             "fallback_value" (VStr "MEDIUM") in
  Examples.run_output [Examples.fallback_confidence]
    (VDict [("confidence", VStr "INVALID_VALUE")])
  = (Ok (VDict [("confidence", VStr "MEDIUM")], [r]),
     VDict [("confidence", VStr "INVALID_VALUE")]).
Proof.
  reflexivity.
Qed.

Example scenario_flag :
  let output := VDict [("text", VStr "this is flagged but not modified")] in
  Examples.run_output [Examples.flag_suspicious] output
  = (Ok (output, [triggered_result Examples.flag_suspicious]), output).
Proof.
  reflexivity.
Qed.

Example scenario_two_guardrails :
  let output := VDict [("text", VStr "very long text"); ("field1", VStr "value")] in
  match fst (Examples.run_output [Examples.check1; Examples.truncate_text] output) with
  | Ok (modified, [r1; r2]) =>
      res_triggered r1 = false /\ res_triggered r2 = true
      /\ modified = VDict [("text", VStr "very long ..."); ("field1", VStr "value")]
  | _ => False
  end.
Proof.
  vm_compute. repeat split.
Qed.

(** ** The argument scanner *)

Lemma tok_run_app (a b : string) :
  forall st, tok_run st (a ++ b) = tok_run (tok_run st a) b.
Proof.
  induction a as [|c a IH]; intros st; [reflexivity|].
  rewrite append_cons. cbn [tok_run]. apply IH.
Qed.

Lemma tok_step_prepend (pre : list string) (st : tok_state) (c : ascii) :
  tok_step (tok_prepend pre st) c = tok_prepend pre (tok_step st c).
Proof.
  unfold tok_step, tok_prepend. cbn.
  destruct (tk_in_string st) as [q|].
  - destruct (Ascii.eqb c q); reflexivity.
  - destruct (_ || _); [reflexivity|].
    destruct (Ascii.eqb c "["); [reflexivity|].
    destruct (Ascii.eqb c "]"); [reflexivity|].
    destruct (_ && _); cbn; [|reflexivity].
    now rewrite app_assoc.
Qed.

Lemma tok_run_prepend (pre : list string) (s : string) :
  forall st, tok_run (tok_prepend pre st) s = tok_prepend pre (tok_run st s).
Proof.
  induction s as [|c s IH]; intros st; [reflexivity|].
  cbn [tok_run]. now rewrite tok_step_prepend, IH.
Qed.

Lemma push_append (a : string) (c : ascii) (b : string) :
  push a c ++ b = a ++ String c b.
Proof.
  unfold push. now rewrite append_assoc.
Qed.

Lemma append_empty_r (s : string) : s ++ "" = s.
Proof.
  induction s as [|c s IH]; [reflexivity|]. now rewrite append_cons, IH.
Qed.

(** Any step either closes an argument or adds the character to the
    current one. *)
Lemma tok_step_args (st : tok_state) (c : ascii) :
  (tk_args (tok_step st c) = tk_args st
   /\ tk_current (tok_step st c) = push (tk_current st) c)
  \/ (tk_args (tok_step st c) = tk_args st ++ [PyStr.strip (tk_current st)])%list.
Proof.
  unfold tok_step.
  destruct (tk_in_string st) as [q|].
  - destruct (Ascii.eqb c q); left; split; reflexivity.
  - destruct (_ || _); [left; split; reflexivity|].
    destruct (Ascii.eqb c "["); [left; split; reflexivity|].
    destruct (Ascii.eqb c "]"); [left; split; reflexivity|].
    destruct (_ && _); [right|left; split]; reflexivity.
Qed.

Lemma tok_run_args_grow (s : string) :
  forall st, exists more, tk_args (tok_run st s) = (tk_args st ++ more)%list.
Proof.
  induction s as [|c s IH]; intros st.
  - exists []. cbn. now rewrite app_nil_r.
  - cbn [tok_run]. destruct (IH (tok_step st c)) as [more Hm].
    destruct (tok_step_args st c) as [[Ha _]|Ha]; rewrite Hm, Ha.
    + now exists more.
    + eexists. now rewrite <- app_assoc.
Qed.

Lemma tok_run_current (s : string) :
  forall st, tk_args (tok_run st s) = tk_args st ->
             tk_current (tok_run st s) = tk_current st ++ s.
Proof.
  induction s as [|c s IH]; intros st Hargs.
  - cbn. now rewrite append_empty_r.
  - cbn [tok_run] in *.
    destruct (tok_run_args_grow s (tok_step st c)) as [more Hm].
    destruct (tok_step_args st c) as [[Ha Hc]|Ha].
    + rewrite IH by congruence. rewrite Hc. apply push_append.
    + exfalso. rewrite Hm, Ha, <- app_assoc in Hargs.
      apply (f_equal (@length string)) in Hargs.
      rewrite !length_app in Hargs. cbn in Hargs. lia.
Qed.

Lemma one_argument_state (a : string) :
  one_argument a = true ->
  tok_run tok_start a
  = {| tk_args := []; tk_current := a; tk_depth := 0; tk_in_string := None |}.
Proof.
  unfold one_argument. intros H.
  pose proof (tok_run_current a tok_start) as Hc.
  destruct (tok_run tok_start a) as [args cur d q]. cbn in *.
  destruct args; [|discriminate]. destruct q; [discriminate|].
  apply Z.eqb_eq in H. subst d. rewrite (Hc eq_refl). reflexivity.
Qed.

Lemma tok_run_from (pre : list string) (s : string) :
  tok_run {| tk_args := pre; tk_current := ""; tk_depth := 0;
             tk_in_string := None |} s
  = tok_prepend pre (tok_run tok_start s).
Proof.
  rewrite <- tok_run_prepend. unfold tok_prepend, tok_start. cbn.
  now rewrite app_nil_r.
Qed.

Lemma tokenize_args_unfold (s : string) :
  _tokenize_args s
  = let st := tok_run tok_start s in
    if String.eqb (PyStr.strip (tk_current st)) "" then tk_args st
    else (tk_args st ++ [PyStr.strip (tk_current st)])%list.
Proof.
  reflexivity.
Qed.

Lemma tokenize_args_at_comma_lemma (a : string) :
  one_argument a = true ->
  (forall b, _tokenize_args (a ++ String "," b)
             = PyStr.strip a :: _tokenize_args b)
  /\ _tokenize_args a
     = (if String.eqb (PyStr.strip a) "" then [] else [PyStr.strip a]).
Proof.
  intros Ha. pose proof (one_argument_state a Ha) as Hst. split.
  - intros b. rewrite !tokenize_args_unfold. cbv zeta.
    rewrite tok_run_app, Hst. cbn [tok_run].
    replace (tok_step _ ",")
      with {| tk_args := [PyStr.strip a]; tk_current := ""; tk_depth := 0;
              tk_in_string := None |} by reflexivity.
    rewrite tok_run_from. cbn [tok_prepend tk_args tk_current].
    destruct (String.eqb _ ""); reflexivity.
  - rewrite tokenize_args_unfold. cbv zeta. rewrite Hst. reflexivity.
Qed.

Lemma tok_run_in_quote (q : ascii) (s : string) :
  PyStr.contains_char q s = false ->
  forall args cur d,
    tok_run {| tk_args := args; tk_current := cur; tk_depth := d;
               tk_in_string := Some q |} s
    = {| tk_args := args; tk_current := cur ++ s; tk_depth := d;
         tk_in_string := Some q |}.
Proof.
  induction s as [|c s IH]; intros Hq args cur d.
  - cbn. now rewrite append_empty_r.
  - cbn in Hq. apply orb_false_iff in Hq as [Hc Hs].
    cbn [tok_run]. unfold tok_step. cbn [tk_in_string tk_args tk_current tk_depth].
    rewrite Hc, (IH Hs). now rewrite push_append.
Qed.

Lemma tok_run_quoted (q : ascii) (s : string) :
  q = squote \/ q = dquote ->
  PyStr.contains_char q s = false ->
  forall args cur d,
    tok_run {| tk_args := args; tk_current := cur; tk_depth := d;
               tk_in_string := None |} (String q (s ++ String q ""))
    = {| tk_args := args; tk_current := cur ++ String q (s ++ String q "");
         tk_depth := d; tk_in_string := None |}.
Proof.
  intros Hq Hs args cur d. cbn [tok_run].
  assert (E : tok_step {| tk_args := args; tk_current := cur; tk_depth := d;
                          tk_in_string := None |} q
              = {| tk_args := args; tk_current := push cur q; tk_depth := d;
                   tk_in_string := Some q |}).
  { unfold tok_step. cbn [tk_in_string tk_args tk_current tk_depth].
    destruct Hq; subst q; reflexivity. }
  rewrite E, tok_run_app, (tok_run_in_quote q s Hs). cbn [tok_run].
  unfold tok_step. cbn [tk_in_string tk_args tk_current tk_depth].
  rewrite Ascii.eqb_refl. cbn [tok_run].
  f_equal. unfold push. rewrite !append_assoc. reflexivity.
Qed.

Lemma tok_run_plain (s : string) :
  all_chars is_plain_char s = true ->
  forall args cur d,
    tok_run {| tk_args := args; tk_current := cur; tk_depth := d;
               tk_in_string := None |} s
    = {| tk_args := args; tk_current := cur ++ s; tk_depth := d;
         tk_in_string := None |}.
Proof.
  induction s as [|c s IH]; intros Hp args cur d.
  - cbn. now rewrite append_empty_r.
  - cbn in Hp. apply andb_true_iff in Hp as [Hc Hs].
    cbn [tok_run]. unfold tok_step. cbn [tk_in_string tk_args tk_current tk_depth].
    unfold is_plain_char in Hc. apply negb_true_iff in Hc.
    repeat (apply orb_false_iff in Hc as [Hc ?]).
    rewrite Hc. cbn [orb].
    repeat match goal with H : Ascii.eqb c _ = false |- _ => rewrite H; clear H end.
    cbn [orb andb]. rewrite (IH Hs). now rewrite push_append.
Qed.

Lemma plain_one_argument (s : string) :
  all_chars is_plain_char s = true -> one_argument s = true.
Proof.
  intros H. unfold one_argument, tok_start. now rewrite (tok_run_plain s H).
Qed.

Lemma quoted_one_argument (q : ascii) (s : string) :
  q = squote \/ q = dquote -> PyStr.contains_char q s = false ->
  one_argument (String q (s ++ String q "")) = true.
Proof.
  intros Hq Hs. unfold one_argument, tok_start.
  now rewrite (tok_run_quoted q s Hq Hs).
Qed.

(** Inside a bracket a comma is a character like any other. *)
Lemma tok_run_inside (s : string) (d : Z) :
  d <> 0 ->
  all_chars (fun c => is_plain_char c || Ascii.eqb c ",") s = true ->
  forall args cur,
    tok_run {| tk_args := args; tk_current := cur; tk_depth := d;
               tk_in_string := None |} s
    = {| tk_args := args; tk_current := cur ++ s; tk_depth := d;
         tk_in_string := None |}.
Proof.
  intros Hd. induction s as [|c s IH]; intros Hp args cur.
  - cbn. now rewrite append_empty_r.
  - cbn in Hp. apply andb_true_iff in Hp as [Hc Hs].
    cbn [tok_run].
    assert (E : tok_step {| tk_args := args; tk_current := cur; tk_depth := d;
                            tk_in_string := None |} c
                = {| tk_args := args; tk_current := push cur c; tk_depth := d;
                     tk_in_string := None |}).
    { unfold tok_step. cbn [tk_in_string tk_args tk_current tk_depth].
      replace (d =? 0) with false by (symmetry; now apply Z.eqb_neq).
      rewrite andb_false_r.
      apply orb_true_iff in Hc as [Hc|Hc].
      - unfold is_plain_char in Hc. apply negb_true_iff in Hc.
        repeat (apply orb_false_iff in Hc as [Hc ?]).
        rewrite Hc. cbn [orb].
        repeat match goal with H : Ascii.eqb c _ = false |- _ => rewrite H; clear H end.
        reflexivity.
      - apply Ascii.eqb_eq in Hc. subst c. reflexivity. }
    rewrite E, (IH Hs). now rewrite push_append.
Qed.

(** Quoted words separated by a comma and a blank, scanned inside a
    bracket. *)
Lemma tok_run_words (ws : list string) :
  Forall (fun w => PyStr.contains_char squote w = false) ws ->
  forall args cur d,
    d <> 0 ->
    tok_run {| tk_args := args; tk_current := cur; tk_depth := d;
               tk_in_string := None |} (str_join ", " (map quote_word ws))
    = {| tk_args := args; tk_current := cur ++ str_join ", " (map quote_word ws);
         tk_depth := d; tk_in_string := None |}.
Proof.
  induction 1 as [|w ws Hw Hws IH]; intros args cur d Hd.
  - cbn. now rewrite append_empty_r.
  - cbn [map str_join]. destruct ws as [|w' ws].
    + cbn [map]. unfold quote_word.
      now rewrite (tok_run_quoted squote w (or_introl eq_refl) Hw).
    + cbn [map] in *. rewrite tok_run_app. unfold quote_word at 1.
      rewrite (tok_run_quoted squote w (or_introl eq_refl) Hw).
      rewrite tok_run_app.
      rewrite (tok_run_inside ", " d Hd eq_refl).
      rewrite (IH args _ d Hd). f_equal.
      unfold quote_word. rewrite !append_assoc. reflexivity.
Qed.

Lemma list_text_one_argument (ws : list string) :
  Forall (fun w => PyStr.contains_char squote w = false) ws ->
  one_argument (list_text ws) = true.
Proof.
  intros Hws. unfold one_argument, list_text.
  change (tok_run tok_start (String "[" (str_join ", " (map quote_word ws) ++ "]")))
    with (tok_run {| tk_args := []; tk_current := "["; tk_depth := 1;
                     tk_in_string := None |}
            (str_join ", " (map quote_word ws) ++ "]")).
  rewrite tok_run_app, (tok_run_words ws Hws) by lia.
  reflexivity.
Qed.

(** ** Texts that are no rule *)

Lemma rstrip_no_space (s : string) :
  all_chars (fun c => negb (PyStr.is_space c)) s = true -> PyStr.rstrip s = s.
Proof.
  induction s as [|c s IH]; [reflexivity|].
  cbn. intros H. apply andb_true_iff in H as [Hc Hs].
  rewrite (IH Hs). apply negb_true_iff in Hc. rewrite Hc. now destruct s.
Qed.

Lemma strip_no_space (s : string) :
  all_chars (fun c => negb (PyStr.is_space c)) s = true -> PyStr.strip s = s.
Proof.
  intros H. unfold PyStr.strip.
  assert (Hl : PyStr.lstrip s = s).
  { destruct s as [|c s]; [reflexivity|]. cbn in *.
    apply andb_true_iff in H as [Hc _]. apply negb_true_iff in Hc. now rewrite Hc. }
  rewrite Hl. now apply rstrip_no_space.
Qed.

Lemma all_chars_impl (p q : ascii -> bool) (s : string) :
  (forall c, p c = true -> q c = true) ->
  all_chars p s = true -> all_chars q s = true.
Proof.
  intros Hpq. induction s as [|c s IH]; [reflexivity|].
  cbn. intros H. apply andb_true_iff in H as [Hc Hs].
  now rewrite (Hpq c Hc), (IH Hs).
Qed.

Lemma all_chars_app (p : ascii -> bool) (a b : string) :
  all_chars p (a ++ b) = all_chars p a && all_chars p b.
Proof.
  induction a as [|c a IH]; [reflexivity|].
  rewrite append_cons. cbn. now rewrite IH, andb_assoc.
Qed.

Lemma strip_words (s : string) :
  all_chars PyStr.is_word s = true -> PyStr.strip s = s.
Proof.
  intros H. apply strip_no_space. revert H. apply all_chars_impl.
  intros c Hc. now rewrite (word_not_space c Hc).
Qed.

Lemma span_whole (p : ascii -> bool) (s : string) :
  all_chars p s = true -> span p s = (s, "").
Proof.
  induction s as [|c s IH]; [reflexivity|].
  cbn. intros H. apply andb_true_iff in H as [Hc Hs]. now rewrite Hc, (IH Hs).
Qed.

Lemma length_push (pre : string) (x : ascii) :
  String.length (push pre x) = S (String.length pre).
Proof.
  unfold push. induction pre as [|a pre IH]; [reflexivity|].
  rewrite append_cons. cbn [String.length]. now rewrite IH.
Qed.

Lemma get_push (pre : string) (x : ascii) :
  String.get (String.length pre) (push pre x) = Some x.
Proof.
  unfold push. induction pre as [|a pre IH]; [reflexivity|].
  rewrite append_cons. exact IH.
Qed.

Lemma last_char_push (pre : string) (x : ascii) : last_char (push pre x) = x.
Proof.
  unfold last_char. rewrite length_push.
  replace (S (String.length pre) - 1)%nat with (String.length pre) by lia.
  now rewrite get_push.
Qed.

Lemma word_not_operator (c : ascii) :
  PyStr.is_word c = true ->
  Ascii.eqb c newline = false
  /\ Ascii.eqb (PyStr.lower_char c) "=" = false
  /\ Ascii.eqb (PyStr.lower_char c) "!" = false
  /\ Ascii.eqb (PyStr.lower_char c) ">" = false
  /\ Ascii.eqb (PyStr.lower_char c) "<" = false.
Proof.
  destruct c as [[] [] [] [] [] [] [] []]; vm_compute; intros H;
    first [discriminate H | repeat split].
Qed.

(** After a word character, before a text of word characters, no operator
    of the comparison grammar matches. *)
Lemma no_operator_in_word (prev : ascii) (s : string) :
  PyStr.is_word prev = true -> all_chars PyStr.is_word s = true ->
  operators_at prev s = [].
Proof.
  intros Hprev Hs. unfold operators_at, kw_in, kw_not_in, sym. rewrite Hprev.
  destruct s as [|x s]; [reflexivity|].
  cbn in Hs. apply andb_true_iff in Hs as [Hx _].
  destruct (word_not_operator x Hx) as (_ & E1 & E2 & E3 & E4).
  cbn [ci_prefix]. now rewrite E1, E2, E3, E4.
Qed.

Lemma comparison_scan_unfold (pre suf : string) :
  comparison_scan pre suf
  = let '(ws, s) := span PyStr.is_space suf in
    match first_operator (operators_at (last_char (pre ++ ws)) s) with
    | Some (op, operand) => Some (pre, op, operand)
    | None =>
        match suf with
        | EmptyString => None
        | String c r =>
            if Ascii.eqb c newline then None else comparison_scan (push pre c) r
        end
    end.
Proof.
  destruct suf; reflexivity.
Qed.

Lemma span_not (p : ascii -> bool) (c : ascii) (s : string) :
  p c = false -> span p (String c s) = ("", String c s).
Proof.
  intros H. cbn. now rewrite H.
Qed.

Lemma comparison_scan_words (suf : string) :
  forall pre,
    PyStr.is_word (last_char pre) = true ->
    all_chars PyStr.is_word suf = true ->
    comparison_scan pre suf = None.
Proof.
  induction suf as [|x suf IH]; intros pre Hpre Hsuf;
    rewrite comparison_scan_unfold.
  - cbn [span]. rewrite append_empty_r.
    now rewrite (no_operator_in_word _ "" Hpre eq_refl).
  - pose proof Hsuf as Hall. cbn in Hsuf. apply andb_true_iff in Hsuf as [Hx Hs].
    rewrite (span_not _ _ _ (word_not_space x Hx)). rewrite append_empty_r.
    rewrite (no_operator_in_word _ _ Hpre Hall). cbn [first_operator].
    destruct (word_not_operator x Hx) as (-> & _).
    apply IH; [|exact Hs]. now rewrite last_char_push.
Qed.

(** A rule text of word characters only (a bare name, a number, the
    empty text) is in neither grammar. *)
Theorem bare_word_is_no_rule (rt : runtime) (_rules : gmap string rule_fn)
  (rule : string) (context : value) :
  all_chars PyStr.is_word rule = true ->
  evaluate_rule rt _rules rule context
  = Raise (RuleParseError ("Cannot parse rule: " ++ rule)).
Proof.
  intros Hw. unfold evaluate_rule. rewrite (strip_words rule Hw).
  assert (Hf : func_match rule = None).
  { unfold func_match. rewrite (span_whole _ _ Hw). now destruct rule. }
  rewrite Hf.
  assert (Hc : comparison_match rule = None).
  { destruct rule as [|c r]; [reflexivity|].
    cbn in Hw. apply andb_true_iff in Hw as [Hc Hr].
    unfold comparison_match. destruct (word_not_operator c Hc) as (-> & _).
    now apply comparison_scan_words. }
  now rewrite Hc.
Qed.

(** ** Calls of registered rules *)

Lemma resolve_args_operands (rt : runtime) (tokens : list string) (context : value) :
  resolve_args rt tokens context
  = Ok (map (fun token => operand rt token context) tokens).
Proof.
  induction tokens as [|t tokens IH]; [reflexivity|].
  cbn [resolve_args map]. now rewrite resolve_parsed, IH.
Qed.

Lemma evaluate_function_call (rt : runtime) (_rules : gmap string rule_fn)
  (func_name args_str : string) (context : value) (rule_fn : rule_fn) :
  _rules !! func_name = Some rule_fn ->
  _evaluate_function rt _rules func_name args_str context
  = as_parse_error func_name
      (rule_fn (map (fun token => operand rt token context)
                  (_tokenize_args args_str))).
Proof.
  intros Hr. unfold _evaluate_function, get_rule. rewrite Hr.
  rewrite resolve_args_operands. cbn [bind].
  destruct (rule_fn _) as [b|[]]; reflexivity.
Qed.

(** [_evaluate_function] calls the registered function on the values
    its argument tokens stand for, resolving them never raises, and a
    [TypeError] of the call, from a wrong number of arguments or from inside
    the rule, comes out as a parse error: no [TypeError] leaves
    [_evaluate_function]. *)
Theorem function_call_type_errors (rt : runtime) (_rules : gmap string rule_fn)
  (func_name args_str : string) (context : value) :
  (forall rule_fn, _rules !! func_name = Some rule_fn ->
     let args := map (fun token => operand rt token context)
                   (_tokenize_args args_str) in
     _evaluate_function rt _rules func_name args_str context
     = as_parse_error func_name (rule_fn args)
     /\ (forall e, rule_fn args = Raise (TypeError e) ->
           _evaluate_function rt _rules func_name args_str context
           = Raise (RuleParseError ("Error calling " ++ func_name ++ ": " ++ e))))
  /\ (forall e, _evaluate_function rt _rules func_name args_str context
                <> Raise (TypeError e)).
Proof.
  split.
  - intros rule_fn Hr args. pose proof (evaluate_function_call rt _rules
      func_name args_str context rule_fn Hr) as E. fold args in E.
    split; [exact E|]. intros e He. now rewrite E, He.
  - intros e. destruct (_rules !! func_name) as [rule_fn|] eqn:Hr.
    + rewrite (evaluate_function_call rt _rules _ _ _ rule_fn Hr).
      destruct (rule_fn _) as [b|[]]; discriminate.
    + unfold _evaluate_function, get_rule. rewrite Hr. discriminate.
Qed.

Lemma builtin_arity (rt : runtime) :
  Forall (fun sig =>
            exists rule_fn,
              builtin_rules rt !! fst sig = Some rule_fn
              /\ forall args, length args <> length (snd sig) ->
                   rule_fn args
                   = Raise (arity_error (fst sig) (snd sig) (length args)))
    builtin_signatures.
Proof.
  unfold builtin_signatures.
  repeat (apply List.Forall_cons;
          [ eexists; split; [reflexivity|];
            intros [|a [|b [|c [|d args]]]] Hlen; cbn in Hlen; try lia; reflexivity
          |]).
  apply List.Forall_nil.
Qed.

Lemma builtin_names (rt : runtime) (name : string) :
  builtin_rules rt !! name = None <-> ~ In name (map fst builtin_signatures).
Proof.
  unfold builtin_rules. rewrite <- not_elem_of_list_to_map.
  rewrite <- list_elem_of_In. reflexivity.
Qed.

(** The registry of builtin rules holds the twelve names of
    [builtin_signatures] and no other, and each builtin called from a rule
    text with a number of arguments other than its number of parameters
    raises the parse error that carries the interpreter's arity message. *)
Theorem wrong_arity_is_parse_error (rt : runtime) :
  (forall name, builtin_rules rt !! name = None
                <-> ~ In name (map fst builtin_signatures))
  /\ Forall (fun sig =>
       forall args_str context,
         length (_tokenize_args args_str) <> length (snd sig) ->
         _evaluate_function rt (builtin_rules rt) (fst sig) args_str context
         = Raise (RuleParseError
                    ("Error calling " ++ fst sig ++ ": "
                     ++ exn_text (arity_error (fst sig) (snd sig)
                                    (length (_tokenize_args args_str))))))
      builtin_signatures.
Proof.
  split; [apply builtin_names|].
  eapply Forall_impl; [apply (builtin_arity rt)|].
  intros [name params] (rule_fn & Hr & Harity) args_str context Hlen.
  cbn [fst snd] in *.
  rewrite (evaluate_function_call rt _ _ _ _ rule_fn Hr).
  rewrite Harity by now rewrite length_map.
  rewrite length_map. unfold arity_error.
  destruct (_ <? _)%nat; reflexivity.
Qed.

(** ** The rules on the execution context, ranges and required fields *)

Lemma existsb_py_eq_text (t : string) (allowed : list string) :
  existsb (py_eq (VStr t)) (map VStr allowed) = existsb (String.eqb t) allowed.
Proof.
  induction allowed as [|a allowed IH]; [reflexivity|].
  cbn [map existsb]. now rewrite IH.
Qed.

Lemma all_in_texts (allowed tools : list string) :
  all_in (VList (map VStr allowed)) (map VStr tools)
  = Ok (forallb (fun t => existsb (String.eqb t) allowed) tools).
Proof.
  induction tools as [|t tools IH]; [reflexivity|].
  cbn [map all_in py_in bind forallb]. rewrite existsb_py_eq_text.
  destruct (existsb _ allowed); [exact IH|reflexivity].
Qed.

Lemma ctx_run_tool_calls (ops : list ctx_op) :
  forall c, tool_calls (ctx_run c ops) = (tool_calls c ++ recorded ops)%list.
Proof.
  induction ops as [|op ops IH]; intros c.
  - cbn. now rewrite app_nil_r.
  - change (ctx_run c (op :: ops)) with (ctx_run (ctx_apply c op) ops).
    rewrite IH. destruct op; cbn [ctx_apply record_tool_call increment_iteration
                                    tool_calls recorded]; try reflexivity.
    now rewrite <- app_assoc.
Qed.

Lemma context_attributes (rt : runtime) (c : GuardrailContext) :
  py_getattr rt (context_value c) "tool_call_count" = Ok (VInt (tool_call_count c))
  /\ py_getattr rt (context_value c) "iteration_count"
     = Ok (VInt (iteration_count c))
  /\ py_getattr rt (context_value c) "tool_calls"
     = Ok (VList (map VStr (tool_calls c))).
Proof.
  repeat split.
Qed.

Lemma max_tool_calls_context (rt : runtime) (c : GuardrailContext) (n : Z) :
  max_tool_calls rt (context_value c) (VInt n) = Ok (tool_call_count c <=? n).
Proof.
  unfold max_tool_calls.
  destruct (context_attributes rt c) as (-> & _). cbn [bind].
  now rewrite py_order_ints, holds_le.
Qed.

Lemma max_iterations_context (rt : runtime) (c : GuardrailContext) (n : Z) :
  max_iterations rt (context_value c) (VInt n) = Ok (iteration_count c <=? n).
Proof.
  unfold max_iterations.
  destruct (context_attributes rt c) as (_ & -> & _). cbn [bind].
  now rewrite py_order_ints, holds_le.
Qed.

Lemma allowed_tools_context (rt : runtime) (c : GuardrailContext)
  (allowed : list string) :
  allowed_tools rt (context_value c) (VList (map VStr allowed))
  = Ok (forallb (fun t => existsb (String.eqb t) allowed) (tool_calls c)).
Proof.
  unfold allowed_tools.
  destruct (context_attributes rt c) as (_ & _ & ->). cbn [bind].
  destruct (tool_calls c) as [|t ts] eqn:E; [reflexivity|].
  cbn [map truthy negb py_iter bind].
  change (VStr t :: map VStr ts) with (map VStr (t :: ts)).
  apply all_in_texts.
Qed.

(** On an execution context, [max_tool_calls] and [max_iterations]
    compare the counter with the limit and [allowed_tools] holds exactly
    when every recorded tool name is in the allowed list; so after a run of
    operations on a fresh context they decide on the number of
    [record_tool_call] calls, the number of [increment_iteration] calls and
    the names recorded. *)
Theorem behavioral_rules_on_context (rt : runtime) :
  (forall c n,
      max_tool_calls rt (context_value c) (VInt n) = Ok (tool_call_count c <=? n)
      /\ max_iterations rt (context_value c) (VInt n)
         = Ok (iteration_count c <=? n))
  /\ (forall c allowed,
      allowed_tools rt (context_value c) (VList (map VStr allowed))
      = Ok (forallb (fun t => existsb (String.eqb t) allowed) (tool_calls c)))
  /\ (forall now agent request ops n allowed,
      let c := context_value (ctx_run (create_context now agent request) ops) in
      max_tool_calls rt c (VInt n) = Ok (Z.of_nat (count_tool_calls ops) <=? n)
      /\ max_iterations rt c (VInt n) = Ok (Z.of_nat (count_iterations ops) <=? n)
      /\ allowed_tools rt c (VList (map VStr allowed))
         = Ok (forallb (fun t => existsb (String.eqb t) allowed) (recorded ops))).
Proof.
  split; [|split].
  - intros c n. split; [apply max_tool_calls_context|apply max_iterations_context].
  - intros c allowed. apply allowed_tools_context.
  - intros now agent request ops n allowed c. subst c.
    rewrite max_tool_calls_context, max_iterations_context, allowed_tools_context.
    destruct (ctx_run_counts ops (create_context now agent request))
      as (Ht & _ & Hi).
    rewrite Ht, Hi, ctx_run_tool_calls. cbn [create_context tool_call_count
      iteration_count tool_calls app]. rewrite !Z.add_0_l. repeat split.
Qed.

(** *** [in_range] *)

Lemma py_float_raises (rt : runtime) (v : value) (e : exn) :
  py_float rt v = Raise e ->
  (exists m, e = TypeError m) \/ (exists m, e = ValueError m)
  \/ (exists m, e = OverflowError m).
Proof.
  unfold py_float.
  destruct v; try (intros [= <-]; eauto);
    repeat match goal with
           | |- context [match ?x with _ => _ end] => destruct x
           end; intros [= <-]; eauto.
Qed.

Lemma py_order_float_right (op : ordering_op) (a : value) (f : spec_float)
  (e : exn) :
  py_order op a (VFloat f) = Raise e -> exists m, e = TypeError m.
Proof.
  destruct a; cbn; try (intros [= <-]; unfold order_type_error; eauto);
    discriminate.
Qed.

Lemma py_order_float_left (op : ordering_op) (f : spec_float) (b : value)
  (e : exn) :
  py_order op (VFloat f) b = Raise e -> exists m, e = TypeError m.
Proof.
  destruct b; cbn; try (intros [= <-]; unfold order_type_error; eauto);
    discriminate.
Qed.

(** [in_range] answers [False] instead of raising on [None], on a text
    that is no number, on a value of any other type that [float()] refuses,
    on a NaN and on a bound that does not compare with a float; the one
    exception it lets through is the [OverflowError] of an integer too large
    for a float.  On floats it is the two inclusive comparisons. *)
Theorem in_range_edge_cases (rt : runtime) :
  (forall lo hi, in_range rt VNone lo hi = Ok false)
  /\ (forall v lo hi e, in_range rt v lo hi = Raise e ->
                        exists m, e = OverflowError m)
  /\ (forall s lo hi, float_of_text rt s = None ->
                      in_range rt (VStr s) lo hi = Ok false)
  /\ (forall v lo hi,
      match v with
      | VList _ | VDict _ | VObj _ _ | VOther _ _ => True
      | _ => False
      end -> in_range rt v lo hi = Ok false)
  /\ (forall lo hi, in_range rt (VFloat S754_nan) lo hi = Ok false)
  /\ (forall f s hi, in_range rt (VFloat f) (VStr s) hi = Ok false)
  /\ (forall f lo s,
      in_range rt (VFloat f) (VFloat lo) (VStr s) = Ok false)
  /\ (forall f lo hi,
      in_range rt (VFloat f) (VFloat lo) (VFloat hi)
      = Ok (holds OpLe (SFcompare lo f) && holds OpLe (SFcompare f hi))).
Proof.
  split; [reflexivity|]. split; [|split; [|split; [|split; [|split; [|split]]]]].
  - intros v lo hi e. unfold in_range.
    destruct (is_none v); [discriminate|].
    destruct (py_float rt v) as [num|e1] eqn:Hf; cbn [bind].
    + destruct (py_order OpLe lo (VFloat num)) as [b|e2] eqn:Hlo; cbn [bind].
      * destruct b; [|discriminate].
        destruct (py_order OpLe (VFloat num) hi) as [b|e3] eqn:Hhi;
          [discriminate|].
        destruct (py_order_float_left _ _ _ _ Hhi) as [m ->]. discriminate.
      * destruct (py_order_float_right _ _ _ _ Hlo) as [m ->]. discriminate.
    + destruct (py_float_raises rt v e1 Hf) as [[m ->]|[[m ->]|[m ->]]];
        try discriminate.
      intros [= <-]. eauto.
  - intros s lo hi Hs. unfold in_range, py_float. cbn [is_none].
    now rewrite Hs.
  - intros v lo hi Hv. destruct v; try contradiction; reflexivity.
  - intros lo hi. unfold in_range. cbn [is_none py_float bind].
    destruct lo as [|b|n|f|s|l|d|c fs|t i]; try reflexivity.
    destruct f as [[]|[]| |[] ? ?]; reflexivity.
  - reflexivity.
  - intros f lo s. unfold in_range. cbn [is_none py_float bind].
    cbn. destruct (SFcompare lo f) as [[]|]; reflexivity.
  - intros f lo hi. unfold in_range. cbn [is_none py_float bind]. cbn.
    destruct (SFcompare lo f) as [[]|]; try reflexivity;
      destruct (SFcompare f hi) as [[]|]; reflexivity.
Qed.

(** *** [required] and [required_fields] *)

Lemma required_false (v : value) :
  required v = false
  <-> v = VNone \/ (exists s, v = VStr s /\ PyStr.strip s = "")
      \/ v = VList [] \/ v = VDict [].
Proof.
  split.
  - destruct v as [| | | |s|l|d| |]; cbn; try discriminate; intros H.
    + now left.
    + right; left. exists s. split; [reflexivity|].
      apply negb_false_iff in H. now apply String.eqb_eq in H.
    + destruct l; [|discriminate]. right; right; now left.
    + destruct d; [|discriminate]. right; right; now right.
  - intros [->|[(s & -> & Hs)|[->| ->]]]; cbn; try reflexivity.
    now rewrite Hs.
Qed.

Lemma required_fields_loop_names (d : list (string * value)) (names : list string) :
  required_fields_loop d (map VStr names)
  = Ok (forallb (fun k => required (py_dict_get k d)) names).
Proof.
  induction names as [|k names IH]; [reflexivity|].
  cbn [map required_fields_loop hashable forallb].
  destruct (required (py_dict_get k d)); [exact IH|reflexivity].
Qed.

(** [required] is false on [None], on a text that is empty once
    stripped, on the empty list and on the empty mapping, and true on
    everything else, zero and [False] included.  [required_fields] on a
    mapping and a list of names holds exactly when every name is bound to a
    value [required] accepts, a name that is not bound reading as [None];
    on anything that is no mapping it is false. *)
Theorem required_fields_all_present (rt : runtime) :
  (forall v, required v = false
             <-> v = VNone \/ (exists s, v = VStr s /\ PyStr.strip s = "")
                 \/ v = VList [] \/ v = VDict [])
  /\ required (VInt 0) = true /\ required (VBool false) = true
  /\ (forall d names,
      required_fields (VDict d) (VList (map VStr names))
      = Ok (forallb (fun k => required (py_dict_get k d)) names))
  /\ (forall d names k,
      In k names -> dict_get k d = None ->
      required_fields (VDict d) (VList (map VStr names)) = Ok false)
  /\ (forall obj fields, is_dict obj = false ->
                         required_fields obj fields = Ok false).
Proof.
  split; [apply required_false|]. split; [reflexivity|]. split; [reflexivity|].
  split; [|split].
  - intros d names. unfold required_fields. cbn [py_iter bind].
    apply required_fields_loop_names.
  - intros d names k Hin Hk. unfold required_fields. cbn [py_iter bind].
    rewrite required_fields_loop_names. f_equal.
    apply not_true_is_false. intros Hall.
    rewrite forallb_forall in Hall. specialize (Hall k Hin).
    unfold py_dict_get in Hall. rewrite Hk in Hall. discriminate.
  - intros obj fields Hobj. destruct obj; try reflexivity. discriminate.
Qed.

(** ** Field extraction *)

Lemma strip_prefix_app (p r : string) : strip_prefix p (p ++ r) = Some r.
Proof.
  induction p as [|a p IH]; [now destruct r|].
  rewrite append_cons. cbn. now rewrite Ascii.eqb_refl.
Qed.

Lemma strip_prefix_some (p s r : string) :
  strip_prefix p s = Some r -> s = p ++ r.
Proof.
  revert s. induction p as [|a p IH]; intros s.
  - destruct s; cbn; now intros [= <-].
  - destruct s as [|b s]; cbn; [discriminate|].
    destruct (Ascii.eqb a b) eqn:E; [|discriminate].
    apply Ascii.eqb_eq in E. subst b. intros H.
    rewrite append_cons. f_equal. now apply IH.
Qed.

Lemma span_spec (p : ascii -> bool) (s : string) :
  s = fst (span p s) ++ snd (span p s)
  /\ all_chars p (fst (span p s)) = true
  /\ (snd (span p s) = ""
      \/ exists c r, snd (span p s) = String c r /\ p c = false).
Proof.
  induction s as [|c s (IH1 & IH2 & IH3)].
  - cbn. repeat split. now left.
  - cbn [span]. destruct (p c) eqn:Hc.
    + destruct (span p s) as [a b]. cbn [fst snd] in *.
      rewrite append_cons, <- IH1. cbn [all_chars]. rewrite Hc, IH2.
      repeat split. exact IH3.
    + cbn. repeat split. right. eauto.
Qed.

Lemma span_head (p : ascii -> bool) (c : ascii) (r : string) :
  p c = true -> exists f, fst (span p (String c r)) = String c f.
Proof.
  intros H. cbn. rewrite H. destruct (span p r). cbn. eauto.
Qed.

Lemma extract_field_unfold (rule prefix : string) :
  _extract_field_from_rule rule prefix
  = match
      match strip_prefix prefix rule with
      | Some r =>
          match fst (span is_path_char r) with
          | EmptyString => None
          | field => Some field
          end
      | None => None
      end, rule
    with
    | Some field, _ => Some field
    | None, String _ rest => _extract_field_from_rule rest prefix
    | None, EmptyString => None
    end.
Proof.
  destruct rule; reflexivity.
Qed.

Lemma append_is_empty (a b : string) : a ++ b = "" -> a = "" /\ b = "".
Proof.
  destruct a; [cbn; auto|discriminate].
Qed.

(** What [_extract_field_from_rule] returns is the longest run of word
    characters and dots right after the leftmost place where the prefix is
    followed by such a character. *)
Lemma extract_field_some (prefix : string) (rule : string) :
  forall field,
    _extract_field_from_rule rule prefix = Some field ->
    exists pre post,
      rule = pre ++ prefix ++ field ++ post
      /\ field <> ""
      /\ all_chars is_path_char field = true
      /\ (post = "" \/ exists c r, post = String c r /\ is_path_char c = false)
      /\ (forall pre1 c post1,
             rule = pre1 ++ prefix ++ String c post1 ->
             (String.length pre1 < String.length pre)%nat ->
             is_path_char c = false).
Proof.
  induction rule as [|x rule IH]; intros field; rewrite extract_field_unfold.
  - destruct (strip_prefix prefix "") as [r|] eqn:Hp; [|discriminate].
    pose proof (span_spec is_path_char r) as (Hs & Hall & Hpost).
    destruct (fst (span is_path_char r)) as [|c f] eqn:Hf; [discriminate|].
    intros [= <-]. exists "", (snd (span is_path_char r)).
    rewrite append_nil. split.
    { apply strip_prefix_some in Hp.
      etransitivity; [exact Hp|]. f_equal. exact Hs. }
    repeat split; [discriminate|exact Hall|exact Hpost|].
    intros pre1 c1 post1 _ Hlt. cbn in Hlt. lia.
  - destruct (strip_prefix prefix (String x rule)) as [r|] eqn:Hp.
    + pose proof (span_spec is_path_char r) as (Hs & Hall & Hpost).
      destruct (fst (span is_path_char r)) as [|c f] eqn:Hf.
      * intros Hrec. destruct (IH field Hrec)
          as (pre & post & Hrule & Hne & Hfield & Hpost' & Hleft).
        exists (String x pre), post. rewrite append_cons, <- Hrule.
        repeat split; try assumption.
        intros pre1 c1 post1 Heq Hlt. destruct pre1 as [|y pre1].
        -- rewrite append_nil in Heq. rewrite Heq, strip_prefix_app in Hp.
           injection Hp as <-.
           destruct (is_path_char c1) eqn:Hc1; [|reflexivity].
           destruct (span_head is_path_char c1 post1 Hc1) as [f' Hf'].
           rewrite Hf' in Hf. discriminate.
        -- rewrite append_cons in Heq. injection Heq as <- Heq.
           apply (Hleft pre1 c1 post1 Heq). cbn in Hlt. lia.
      * intros [= <-]. exists "", (snd (span is_path_char r)).
        rewrite append_nil. split.
        { apply strip_prefix_some in Hp.
      etransitivity; [exact Hp|]. f_equal. exact Hs. }
        repeat split; [discriminate|exact Hall|exact Hpost|].
        intros pre1 c1 post1 _ Hlt. cbn in Hlt. lia.
    + intros Hrec. destruct (IH field Hrec)
        as (pre & post & Hrule & Hne & Hfield & Hpost' & Hleft).
      exists (String x pre), post. rewrite append_cons, <- Hrule.
      repeat split; try assumption.
      intros pre1 c1 post1 Heq Hlt. destruct pre1 as [|y pre1].
      * rewrite append_nil in Heq. rewrite Heq, strip_prefix_app in Hp.
        discriminate.
      * rewrite append_cons in Heq. injection Heq as <- Heq.
        apply (Hleft pre1 c1 post1 Heq). cbn in Hlt. lia.
Qed.

Lemma extract_field_none (prefix : string) (rule : string) :
  _extract_field_from_rule rule prefix = None ->
  forall pre c post,
    rule = pre ++ prefix ++ String c post -> is_path_char c = false.
Proof.
  induction rule as [|x rule IH]; rewrite extract_field_unfold;
    intros Hnone pre c post Heq.
  - symmetry in Heq. apply append_is_empty in Heq as [_ Heq].
    apply append_is_empty in Heq as [_ Heq]. discriminate.
  - destruct pre as [|y pre].
    + rewrite append_nil in Heq. rewrite Heq, strip_prefix_app in Hnone.
      destruct (is_path_char c) eqn:Hc; [|reflexivity].
      destruct (span_head is_path_char c post Hc) as [f Hf].
      rewrite Hf in Hnone. discriminate.
    + rewrite append_cons in Heq. injection Heq as <- Heq.
      apply (IH) with (pre := pre) (post := post); [|exact Heq].
      destruct (strip_prefix prefix (String x rule)) as [r|];
        [destruct (fst (span is_path_char r)); [exact Hnone|discriminate]
        |exact Hnone].
Qed.

(** [_extract_field_from_rule] finds the leftmost place of the rule
    text where the prefix is followed by a word character or a dot, and
    returns the longest run of such characters there; it returns nothing
    exactly when the text has no such place. *)
Theorem extract_field_is_leftmost_longest (rule prefix : string) :
  (forall field,
      _extract_field_from_rule rule prefix = Some field ->
      exists pre post,
        rule = pre ++ prefix ++ field ++ post
        /\ field <> ""
        /\ all_chars is_path_char field = true
        /\ (post = "" \/ exists c r, post = String c r /\ is_path_char c = false)
        /\ (forall pre1 c post1,
               rule = pre1 ++ prefix ++ String c post1 ->
               (String.length pre1 < String.length pre)%nat ->
               is_path_char c = false))
  /\ (_extract_field_from_rule rule prefix = None
      <-> forall pre c post,
            rule = pre ++ prefix ++ String c post -> is_path_char c = false).
Proof.
  split; [apply extract_field_some|]. split; [apply extract_field_none|].
  intros Hno. destruct (_extract_field_from_rule rule prefix) as [field|] eqn:E;
    [|reflexivity].
  destruct (extract_field_some prefix rule field E)
    as (pre & post & Hrule & Hne & Hfield & _).
  destruct field as [|c f]; [congruence|].
  cbn in Hfield. apply andb_true_iff in Hfield as [Hc _].
  rewrite append_cons in Hrule. rewrite (Hno pre c (f ++ post) Hrule) in Hc.
  discriminate.
Qed.

(** ** Nested access *)

Lemma dict_get_set_same {A} (k : string) (v : A) (d : list (string * A)) :
  dict_get k (dict_set k v d) = Some v.
Proof.
  induction d as [|[k' v'] d IH]; cbn.
  - now rewrite String.eqb_refl.
  - destruct (String.eqb k k') eqn:E; cbn; [now rewrite String.eqb_refl|].
    now rewrite E.
Qed.

Lemma dict_get_set_other {A} (k k' : string) (v : A) (d : list (string * A)) :
  k' <> k -> dict_get k' (dict_set k v d) = dict_get k' d.
Proof.
  intros Hne. induction d as [|[k0 v0] d IH]; cbn.
  - apply String.eqb_neq in Hne. now rewrite Hne.
  - destruct (String.eqb k k0) eqn:E; cbn.
    + apply String.eqb_eq in E. subst k0.
      apply String.eqb_neq in Hne. now rewrite Hne.
    + now rewrite IH.
Qed.

Lemma get_nested_loop_none (parts : list string) :
  parts <> [] -> get_nested_loop VNone parts = VNone.
Proof.
  destruct parts; [congruence|reflexivity].
Qed.

Lemma get_nested_loop_not_dict (v : value) (parts : list string) :
  is_dict v = false -> parts <> [] -> get_nested_loop v parts = VNone.
Proof.
  intros Hv Hp. destruct parts; [congruence|].
  destruct v; try reflexivity. discriminate.
Qed.

Lemma set_nested_loop_unfold (current : value) (part : string)
  (rest : list string) (v : value) :
  set_nested_loop current (part :: rest) v
  = match rest with
    | [] =>
        match current with
        | VDict d => Ok (VDict (dict_set part v d))
        | _ => Raise (set_nested_error false current part)
        end
    | _ :: _ =>
        match current with
        | VDict d =>
            let child := match dict_get part d with
                         | Some c => c
                         | None => VDict []
                         end in
            let* child' := set_nested_loop child rest v in
            Ok (VDict (dict_set part child' d))
        | _ => Raise (set_nested_error true current part)
        end
    end.
Proof.
  destruct rest; reflexivity.
Qed.

Lemma set_nested_loop_get (parts : list string) (v : value) :
  parts <> [] ->
  forall current current',
    set_nested_loop current parts v = Ok current' ->
    get_nested_loop current' parts = v
    /\ exists d d', current = VDict d /\ current' = VDict d'
                    /\ forall k, Some k <> head parts ->
                                 dict_get k d' = dict_get k d.
Proof.
  induction parts as [|part rest IH]; [congruence|]. intros _ current current'.
  rewrite set_nested_loop_unfold. destruct rest as [|p2 rest].
  - destruct current as [| | | | | |d| |]; try discriminate.
    intros [= <-]. split.
    + cbn. unfold py_dict_get. now rewrite dict_get_set_same.
    + exists d, (dict_set part v d). repeat split.
      intros k Hk. apply dict_get_set_other. cbn in Hk. congruence.
  - destruct current as [| | | | | |d| |]; try discriminate.
    cbv zeta.
    destruct (set_nested_loop _ (p2 :: rest) v) as [child'|e] eqn:Hc;
      [|discriminate].
    cbn [bind]. intros [= <-].
    destruct (IH ltac:(discriminate) _ _ Hc) as [Hget _]. split.
    + cbn [get_nested_loop]. unfold py_dict_get.
      rewrite dict_get_set_same. exact Hget.
    + exists d, (dict_set part child' d). repeat split.
      intros k Hk. apply dict_get_set_other. cbn in Hk. congruence.
Qed.

Lemma set_nested_loop_raises (parts : list string) (v : value) :
  forall current e,
    set_nested_loop current parts v = Raise e -> exists m, e = TypeError m.
Proof.
  induction parts as [|part rest IH]; intros current e; [discriminate|].
  rewrite set_nested_loop_unfold.
  assert (Herr : forall w x p, exists m, set_nested_error w x p = TypeError m).
  { intros w x p. unfold set_nested_error.
    destruct x; try (destruct w; eauto); eauto.
    destruct (PyStr.is_substring p s); eauto. }
  destruct rest as [|p2 rest].
  - destruct (Herr false current part) as [m Hm].
    destruct current; intros H; exists m; congruence.
  - destruct (Herr true current part) as [m Hm].
    destruct current; try (intros H; exists m; congruence).
    cbv zeta. destruct (set_nested_loop _ (p2 :: rest) v) as [c|e'] eqn:Hc;
      [discriminate|].
    cbn [bind]. intros [= <-]. apply (IH _ _ Hc).
Qed.

Lemma set_nested_loop_found (parts : list string) (v : value) :
  forall current,
    get_nested_loop current parts <> VNone ->
    exists current', set_nested_loop current parts v = Ok current'.
Proof.
  induction parts as [|part rest IH]; intros current Hget; [cbn; eauto|].
  rewrite set_nested_loop_unfold.
  destruct current as [| | | | | |d| |]; try (exfalso; apply Hget; reflexivity).
  destruct rest as [|p2 rest]; [eauto|].
  cbn [get_nested_loop] in Hget. unfold py_dict_get in Hget. cbv zeta.
  destruct (dict_get part d) as [c|].
  - destruct (IH c Hget) as [c' ->]. cbn [bind]. eauto.
  - exfalso. apply Hget. reflexivity.
Qed.

Lemma set_nested_loop_not_dict (parts : list string) (v current : value) :
  parts <> [] -> is_dict current = false ->
  exists m, set_nested_loop current parts v = Raise (TypeError m).
Proof.
  intros Hp Hc. destruct parts as [|part rest]; [congruence|].
  destruct (set_nested_loop current (part :: rest) v) as [c|e] eqn:E.
  - destruct (set_nested_loop_get (part :: rest) v Hp _ _ E)
      as (_ & d & d' & -> & _). discriminate.
  - destruct (set_nested_loop_raises _ _ _ _ E) as [m ->]. eauto.
Qed.

Lemma split_not_nil (sep : ascii) (s : string) : PyStr.split sep s <> [].
Proof.
  destruct (split_cons sep s) as (p & ps & ->). discriminate.
Qed.

(** The engine's reader and the rules' resolver agree wherever the engine
    finds a value. *)
Lemma get_nested_loop_follow (rt : runtime) (parts : list string) :
  forall current,
    get_nested_loop current parts <> VNone ->
    follow rt current parts = get_nested_loop current parts.
Proof.
  induction parts as [|part rest IH]; intros current Hget; [reflexivity|].
  destruct current as [| | | | | |d| |]; try (exfalso; apply Hget; reflexivity).
  cbn [follow get_nested_loop] in *. now apply IH.
Qed.

(** Writing a nested field and reading it back: when [_set_nested]
    returns, the root was a mapping and still is, [_get_nested] on the same
    path reads the value written, and the bindings of the other top-level
    keys are as before.  [_set_nested] fails only with a [TypeError]; it
    fails on a root that is no mapping, and never on a path at which
    [_get_nested] finds a value.  Where [_get_nested] finds a value, the
    rules' resolver [_get_nested_value] finds the same. *)
Theorem set_nested_then_get_nested (obj : value) (path : string) (v : value) :
  (forall obj',
      _set_nested obj path v = Ok obj' ->
      _get_nested obj' path = v
      /\ exists d d',
           obj = VDict d /\ obj' = VDict d'
           /\ forall k, Some k <> head (PyStr.split "." path) ->
                        dict_get k d' = dict_get k d)
  /\ (forall e, _set_nested obj path v = Raise e -> exists m, e = TypeError m)
  /\ (is_dict obj = false ->
      _get_nested obj path = VNone
      /\ exists m, _set_nested obj path v = Raise (TypeError m))
  /\ (_get_nested obj path <> VNone ->
      exists obj', _set_nested obj path v = Ok obj')
  /\ (forall rt, _get_nested obj path <> VNone ->
                 _get_nested_value rt obj path = _get_nested obj path).
Proof.
  unfold _set_nested, _get_nested, _get_nested_value.
  pose proof (split_not_nil "." path) as Hp.
  split; [|split; [|split; [|split]]].
  - intros obj'. apply set_nested_loop_get, Hp.
  - apply set_nested_loop_raises.
  - intros Hobj. split.
    + now apply get_nested_loop_not_dict.
    + now apply set_nested_loop_not_dict.
  - apply set_nested_loop_found.
  - intros rt. apply get_nested_loop_follow.
Qed.

(** ** The store *)

Section ObjectInduction.

Variable P : object -> Prop.
Hypothesis HPlain : forall v, P (Plain v).
Hypothesis HRef : forall l, P (Ref l).
Hypothesis HDict :
  forall items, Forall (fun kv => P (snd kv)) items -> P (Dict items).
Hypothesis HItems : forall items, Forall P items -> P (Items items).
Hypothesis HFields :
  forall cls fields, Forall (fun kv => P (snd kv)) fields -> P (Fields cls fields).

Lemma object_induction : forall o, P o.
Proof.
  fix IH 1. intros [v|l|items|items|cls fields].
  - apply HPlain.
  - apply HRef.
  - apply HDict. revert items. fix IHl 1.
    intros [|[k x] r]; [apply List.Forall_nil|].
    apply List.Forall_cons; [apply IH|apply IHl].
  - apply HItems. revert items. fix IHl 1.
    intros [|x r]; [apply List.Forall_nil|].
    apply List.Forall_cons; [apply IH|apply IHl].
  - apply HFields. revert fields. fix IHl 1.
    intros [|[k x] r]; [apply List.Forall_nil|].
    apply List.Forall_cons; [apply IH|apply IHl].
Qed.

End ObjectInduction.

Lemma resolve_unfold (f : nat) (rem : list loc) (h : store) (o : object) :
  resolve (S f) rem h o
  = match o with
    | Plain v => Some v
    | Ref l =>
        if existsb (Nat.eqb l) rem then
          match h !! l with
          | None | Some (Ref _) => None
          | Some c => resolve f (without l rem) h c
          end
        else None
    | Dict items => option_map VDict (map_pairs (resolve (S f) rem h) items)
    | Items items => option_map VList (map_each (resolve (S f) rem h) items)
    | Fields cls fields =>
        option_map (VObj cls) (map_pairs (resolve (S f) rem h) fields)
    end.
Proof.
  destruct o; reflexivity.
Qed.

Lemma allowed_without (a l : loc) (rem : list loc) :
  existsb (Nat.eqb a) (without l rem)
  = existsb (Nat.eqb a) rem && negb (Nat.eqb a l).
Proof.
  unfold without. induction rem as [|x rem IH]; [reflexivity|].
  cbn [List.filter existsb].
  destruct (Nat.eqb x l) eqn:Hx; cbn [negb existsb].
  - rewrite IH. apply Nat.eqb_eq in Hx. subst x.
    destruct (Nat.eqb a l); cbn; [now rewrite andb_false_r|reflexivity].
  - rewrite IH. destruct (Nat.eqb a x) eqn:Ha; [|reflexivity].
    apply Nat.eqb_eq in Ha. subst x. rewrite Hx. reflexivity.
Qed.

Lemma length_without (l : loc) (rem : list loc) :
  existsb (Nat.eqb l) rem = true ->
  (length (without l rem) < length rem)%nat.
Proof.
  unfold without. induction rem as [|x rem IH]; [discriminate|].
  cbn [existsb List.filter]. intros H.
  assert (Hle : (length (List.filter (fun x0 => negb (Nat.eqb x0 l)) rem)
                 <= length rem)%nat) by apply List.filter_length_le.
  destruct (Nat.eqb l x) eqn:Hx.
  - apply Nat.eqb_eq in Hx. subst x. rewrite Nat.eqb_refl.
    cbn [negb length]. unfold loc in *. lia.
  - cbn in H. specialize (IH H).
    rewrite Nat.eqb_sym, Hx. cbn [negb length]. unfold loc in *. lia.
Qed.

Lemma map_pairs_ext {A B : Type} (f g : A -> option B)
  (xs : list (string * A)) :
  Forall (fun kv => f (snd kv) = g (snd kv)) xs ->
  map_pairs f xs = map_pairs g xs.
Proof.
  induction 1 as [|[k x] r Hx _ IH]; [reflexivity|].
  cbn in *. now rewrite Hx, IH.
Qed.

Lemma map_each_ext {A B : Type} (f g : A -> option B) (xs : list A) :
  Forall (fun x => f x = g x) xs -> map_each f xs = map_each g xs.
Proof.
  induction 1 as [|x r Hx _ IH]; [reflexivity|].
  cbn in *. now rewrite Hx, IH.
Qed.

Lemma map_pairs_map {A B C : Type} (f : B -> option C) (g : A -> B)
  (xs : list (string * A)) :
  map_pairs f (map (fun kv => (fst kv, g (snd kv))) xs)
  = map_pairs (fun x => f (g x)) xs.
Proof.
  induction xs as [|[k x] r IH]; [reflexivity|].
  cbn. now rewrite IH.
Qed.

Lemma map_each_map {A B C : Type} (f : B -> option C) (g : A -> B)
  (xs : list A) :
  map_each f (map g xs) = map_each (fun x => f (g x)) xs.
Proof.
  induction xs as [|x r IH]; [reflexivity|].
  cbn. now rewrite IH.
Qed.

(** The objects an object holds are among those of [U]. *)
Lemma refs_items (U : loc -> Prop) (items : list (string * object)) :
  Forall U (flat_map (fun kv => refs (snd kv)) items) ->
  Forall (fun kv => Forall U (refs (snd kv))) items.
Proof.
  induction items as [|[k x] r IH]; intros H; [constructor|].
  cbn in H. apply Forall_app in H as [Hx Hr].
  apply List.Forall_cons; [exact Hx|now apply IH].
Qed.

Lemma refs_each (U : loc -> Prop) (items : list object) :
  Forall U (flat_map refs items) -> Forall (fun x => Forall U (refs x)) items.
Proof.
  induction items as [|x r IH]; intros H; [constructor|].
  cbn in H. apply Forall_app in H as [Hx Hr].
  apply List.Forall_cons; [exact Hx|now apply IH].
Qed.

(** Reading an object in two stores that hold, up to a renaming of the
    locations, the same objects where the reading goes. *)
Lemma resolve_sim (rho : loc -> loc) (U : loc -> Prop) (h h' : store) :
  (forall l c, U l -> h !! l = Some c ->
               h' !! rho l = Some (relocate rho c)
               /\ (is_ref c = false -> Forall U (refs c))) ->
  (forall l, U l -> h !! l = None -> h' !! rho l = None) ->
  (forall a b, U a -> U b -> rho a = rho b -> a = b) ->
  forall f f' rem rem' o,
    (length rem < f)%nat -> (length rem' < f')%nat ->
    Forall U (refs o) ->
    (forall l, U l ->
               existsb (Nat.eqb l) rem = existsb (Nat.eqb (rho l)) rem') ->
    resolve f' rem' h' (relocate rho o) = resolve f rem h o.
Proof.
  intros Hcell Hnone Hinj.
  induction f as [|f IH]; intros f' rem rem' o Hf Hf' Ho Hrem; [lia|].
  destruct f' as [|f']; [lia|].
  revert Ho. induction o as [v|l|items IHo|items IHo|cls fields IHo]
    using object_induction; intros Ho.
  - reflexivity.
  - cbn [relocate]. rewrite !resolve_unfold.
    cbn [refs] in Ho. apply Forall_cons in Ho as [Hl _].
    rewrite <- (Hrem l Hl).
    destruct (existsb (Nat.eqb l) rem) eqn:Hin; [|reflexivity].
    destruct (h !! l) as [c|] eqn:Hc.
    + destruct (Hcell l c Hl Hc) as [-> Hrefs].
      assert (E : is_ref c = false ->
                  resolve f' (without (rho l) rem') h' (relocate rho c)
                  = resolve f (without l rem) h c).
      { intros Hnr. specialize (Hrefs Hnr). apply IH.
        - pose proof (length_without l rem Hin). unfold loc in *. lia.
        - assert (Hin' : existsb (Nat.eqb (rho l)) rem' = true)
            by now rewrite <- (Hrem l Hl).
          pose proof (length_without (rho l) rem' Hin'). unfold loc in *. lia.
        - exact Hrefs.
        - intros a Ha. rewrite !allowed_without, (Hrem a Ha). f_equal. f_equal.
          destruct (Nat.eqb a l) eqn:E1.
          + apply Nat.eqb_eq in E1. subst a. now rewrite Nat.eqb_refl.
          + symmetry. apply Nat.eqb_neq. intros E2.
            apply Nat.eqb_neq in E1. apply E1. now apply Hinj. }
      destruct c; cbn [relocate] in *; try exact (E eq_refl). reflexivity.
    + now rewrite (Hnone l Hl Hc).
  - cbn [relocate refs] in *. rewrite !resolve_unfold. f_equal.
    rewrite map_pairs_map. apply map_pairs_ext.
    apply refs_items in Ho. clear -IHo Ho.
    induction IHo as [|kv r Hkv _ IHr]; [constructor|].
    apply Forall_cons in Ho as [H1 H2].
    apply List.Forall_cons; [now apply Hkv|now apply IHr].
  - cbn [relocate refs] in *. rewrite !resolve_unfold. f_equal.
    rewrite map_each_map. apply map_each_ext.
    apply refs_each in Ho. clear -IHo Ho.
    induction IHo as [|kv r Hkv _ IHr]; [constructor|].
    apply Forall_cons in Ho as [H1 H2].
    apply List.Forall_cons; [now apply Hkv|now apply IHr].
  - cbn [relocate refs] in *. rewrite !resolve_unfold. f_equal.
    rewrite map_pairs_map. apply map_pairs_ext.
    apply refs_items in Ho. clear -IHo Ho.
    induction IHo as [|kv r Hkv _ IHr]; [constructor|].
    apply Forall_cons in Ho as [H1 H2].
    apply List.Forall_cons; [now apply Hkv|now apply IHr].
Qed.

Lemma relocate_id (o : object) : relocate (fun l => l) o = o.
Proof.
  induction o as [v|l|items IHo|items IHo|cls fields IHo]
    using object_induction; cbn [relocate]; try reflexivity.
  - f_equal. induction IHo as [|[k x] r Hx _ IH]; [reflexivity|].
    cbn in *. now rewrite Hx, IH.
  - f_equal. induction IHo as [|x r Hx _ IH]; [reflexivity|].
    cbn in *. now rewrite Hx, IH.
  - f_equal. induction IHo as [|[k x] r Hx _ IH]; [reflexivity|].
    cbn in *. now rewrite Hx, IH.
Qed.

Lemma allowed_seq (l n : nat) :
  existsb (Nat.eqb l) (seq 0 n) = (l <? n)%nat.
Proof.
  destruct (l <? n)%nat eqn:Hl.
  - apply Nat.ltb_lt in Hl. apply existsb_exists. exists l.
    split; [apply in_seq; lia|apply Nat.eqb_refl].
  - apply Nat.ltb_ge in Hl. apply not_true_is_false. intros H.
    apply existsb_exists in H as (x & Hx & E). apply Nat.eqb_eq in E. subst x.
    apply in_seq in Hx. lia.
Qed.

(** The copy of an object has the value of the object. *)
Lemma view_deepcopy (h : store) (o : object) :
  view (h ++ map (relocate (Nat.add (length h))) h)%list
    (relocate (Nat.add (length h)) o)
  = view h o.
Proof.
  unfold view. f_equal.
  apply (resolve_sim (Nat.add (length h)) (fun _ => True)).
  - intros l c _ Hc. split.
    + unfold store, loc in *.
      rewrite lookup_app_r by lia.
      replace (length h + l - length h)%nat with l by lia.
      now rewrite list_lookup_fmap, Hc.
    + intros _. apply Forall_forall. intros; exact I.
  - intros l _ Hc. unfold store, loc in *.
    rewrite lookup_app_r by lia.
    replace (length h + l - length h)%nat with l by lia.
    now rewrite list_lookup_fmap, Hc.
  - intros a b _ _. lia.
  - rewrite length_seq. lia.
  - rewrite length_seq. lia.
  - apply Forall_forall. intros; exact I.
  - intros l _. rewrite !allowed_seq, length_app, length_map.
    destruct (l <? length h)%nat eqn:E; symmetry.
    + apply Nat.ltb_lt in E. apply Nat.ltb_lt. lia.
    + apply Nat.ltb_ge in E. apply Nat.ltb_ge. lia.
Qed.

Lemma deref_deepcopy (h : store) (l : loc) :
  deref (fst (deepcopy h l)) (snd (deepcopy h l)) = deref h l.
Proof.
  unfold deref, deepcopy. cbn [fst snd].
  exact (view_deepcopy h (Ref l)).
Qed.

(** The value of an object depends on the objects it holds, and on those
    they hold, only. *)
Lemma view_region (U : loc -> Prop) (h h' : store) (o : object) :
  (forall l, U l -> (l < length h)%nat /\ h' !! l = h !! l
                    /\ Forall U (refs (content h l))) ->
  (length h <= length h')%nat ->
  Forall U (refs o) ->
  view h' o = view h o.
Proof.
  intros HU Hlen Ho. unfold view. f_equal.
  rewrite <- (relocate_id o) at 1.
  apply (resolve_sim (fun l => l) U).
  - intros l c Hl Hc. destruct (HU l Hl) as (_ & E & Hr).
    rewrite relocate_id, E. split; [exact Hc|]. intros Hnr.
    unfold content in Hr. rewrite Hc in Hr. destruct c; try exact Hr.
    discriminate.
  - intros l Hl Hc. destruct (HU l Hl) as (_ & E & _). now rewrite E.
  - auto.
  - rewrite length_seq. lia.
  - rewrite length_seq. lia.
  - exact Ho.
  - intros l Hl. destruct (HU l Hl) as (Hlt & _). rewrite !allowed_seq.
    transitivity true; [|symmetry]; apply Nat.ltb_lt; lia.
Qed.

(** A location that may not be visited is not read. *)
Lemma resolve_insert_unvisited (l : loc) (c : object) (h : store) :
  forall f rem o,
    existsb (Nat.eqb l) rem = false ->
    resolve f rem (<[l := c]> h) o = resolve f rem h o.
Proof.
  induction f as [|f IH]; intros rem o Hl; [reflexivity|].
  induction o as [v|a|items IHo|items IHo|cls fields IHo]
    using object_induction; rewrite !resolve_unfold.
  - reflexivity.
  - destruct (existsb (Nat.eqb a) rem) eqn:Ha; [|reflexivity].
    assert (Hne : l <> a) by (intros ->; congruence).
    unfold store, loc in *.
    rewrite list_lookup_insert_ne by exact Hne.
    destruct (h !! a) as [[]|]; try reflexivity;
      apply IH; rewrite allowed_without, Hl; reflexivity.
  - f_equal. apply map_pairs_ext. exact IHo.
  - f_equal. apply map_each_ext. exact IHo.
  - f_equal. apply map_pairs_ext. exact IHo.
Qed.

Lemma map_pairs_some {A B : Type} (f g : A -> option B)
  (xs : list (string * A)) (vs : list (string * B)) :
  Forall (fun kv => forall v, f (snd kv) = Some v -> g (snd kv) = Some v) xs ->
  map_pairs f xs = Some vs -> map_pairs g xs = Some vs.
Proof.
  intros H. revert vs.
  induction H as [|[k x] r Hx _ IH]; intros vs; [auto|].
  cbn in *. destruct (f x) as [v|]; [|discriminate].
  destruct (map_pairs f r) as [ws|]; [|discriminate].
  intros [= <-]. now rewrite (Hx v eq_refl), (IH ws eq_refl).
Qed.

Lemma map_each_some {A B : Type} (f g : A -> option B)
  (xs : list A) (vs : list B) :
  Forall (fun x => forall v, f x = Some v -> g x = Some v) xs ->
  map_each f xs = Some vs -> map_each g xs = Some vs.
Proof.
  intros H. revert vs.
  induction H as [|x r Hx _ IH]; intros vs; [auto|].
  cbn in *. destruct (f x) as [v|]; [|discriminate].
  destruct (map_each f r) as [ws|]; [|discriminate].
  intros [= <-]. now rewrite (Hx v eq_refl), (IH ws eq_refl).
Qed.

(** A value read with fewer locations to visit is read with more. *)
Lemma resolve_mono (h : store) :
  forall f f' rem rem' o v,
    (length rem' < f')%nat ->
    (forall l, existsb (Nat.eqb l) rem = true -> (l < length h)%nat ->
               existsb (Nat.eqb l) rem' = true) ->
    resolve f rem h o = Some v ->
    resolve f' rem' h o = Some v.
Proof.
  induction f as [|f IH]; intros f' rem rem' o v Hf' Hrem; [discriminate|].
  destruct f' as [|f']; [lia|].
  revert v. induction o as [w|a|items IHo|items IHo|cls fields IHo]
    using object_induction; intros v; rewrite !resolve_unfold.
  - auto.
  - destruct (existsb (Nat.eqb a) rem) eqn:Ha; [|discriminate].
    destruct (h !! a) as [c|] eqn:Hc; [|discriminate].
    assert (Hlt : (a < length h)%nat) by (eapply lookup_lt_Some; exact Hc).
    assert (Ha' : existsb (Nat.eqb a) rem' = true) by now apply Hrem.
    rewrite Ha'.
    assert (E : resolve f (without a rem) h c = Some v ->
                resolve f' (without a rem') h c = Some v).
    { apply IH.
      - pose proof (length_without a rem' Ha'). unfold loc in *. lia.
      - intros l. rewrite !allowed_without. intros H Hl.
        apply andb_true_iff in H as [H1 H2]. now rewrite (Hrem l H1 Hl), H2. }
    destruct c; try exact E. discriminate.
  - destruct (map_pairs _ items) as [d|] eqn:Hd; [|discriminate].
    intros [= <-]. now rewrite (map_pairs_some _ _ _ _ IHo Hd).
  - destruct (map_each _ items) as [d|] eqn:Hd; [|discriminate].
    intros [= <-]. now rewrite (map_each_some _ _ _ _ IHo Hd).
  - destruct (map_pairs _ fields) as [d|] eqn:Hd; [|discriminate].
    intros [= <-]. now rewrite (map_pairs_some _ _ _ _ IHo Hd).
Qed.

Lemma resolve_view (h : store) (f : nat) (rem : list loc) (o : object)
  (v : value) :
  resolve f rem h o = Some v -> view h o = v.
Proof.
  intros H. unfold view.
  rewrite (resolve_mono h f (S (length h)) rem (seq 0 (length h)) o v).
  - reflexivity.
  - rewrite length_seq. lia.
  - intros l _ Hl. rewrite allowed_seq. now apply Nat.ltb_lt.
  - exact H.
Qed.

Lemma deref_plain (h : store) (l : loc) (v : value) :
  h !! l = Some (Plain v) -> deref h l = v.
Proof.
  intros Hl. unfold deref, view. rewrite resolve_unfold.
  assert (Hlt : (l < length h)%nat) by (eapply lookup_lt_Some; exact Hl).
  rewrite allowed_seq. replace (l <? length h)%nat with true
    by (symmetry; now apply Nat.ltb_lt).
  rewrite Hl. destruct (length h); [lia|]. reflexivity.
Qed.

Lemma deref_bound (h : store) (l : loc) :
  deref h l <> VNone -> (l < length h)%nat.
Proof.
  intros H. destruct (Nat.lt_ge_cases l (length h)) as [Hlt|Hge]; [exact Hlt|].
  exfalso. apply H. unfold deref, view. rewrite resolve_unfold, allowed_seq.
  replace (l <? length h)%nat with false; [reflexivity|].
  symmetry. now apply Nat.ltb_ge.
Qed.

Lemma deref_alloc (h : store) (v : value) :
  deref (h ++ [Plain v])%list (length h) = v.
Proof.
  apply deref_plain. unfold store, loc. now rewrite list_lookup_middle.
Qed.

(** ** Writing into an object of the store *)

Lemma set_in_unfold (h : store) (current : object) (part : string)
  (rest : list string) (new : object) :
  set_in h current (part :: rest) new
  = match items_of current with
    | None =>
        Raise (set_nested_error (match rest with [] => false | _ => true end)
                 (view h current) part)
    | Some items =>
        match rest with
        | [] => Ok (inl (pack (dict_set part new items)))
        | _ :: _ =>
            match dict_get part items with
            | Some (Ref l) =>
                match set_in h (content h l) rest new with
                | Ok (inl c) => Ok (inr (<[l := c]> h))
                | Ok (inr h') => Ok (inr h')
                | Raise e => Raise e
                end
            | child =>
                match set_in h (default (Plain (VDict [])) child) rest new with
                | Ok (inl c) => Ok (inl (pack (dict_set part c items)))
                | Ok (inr h') => Ok (inr h')
                | Raise e => Raise e
                end
            end
        end
    end.
Proof.
  reflexivity.
Qed.

Lemma map_pairs_plain (g : object -> option value)
  (d : list (string * value)) :
  (forall v, g (Plain v) = Some v) ->
  map_pairs g (map (fun kv => (fst kv, Plain (snd kv))) d) = Some d.
Proof.
  intros Hg. induction d as [|[k v] d IH]; [reflexivity|].
  cbn. now rewrite Hg, IH.
Qed.

Lemma plain_items_spec (items : list (string * object)) :
  forall d, plain_items items = Some d ->
            items = map (fun kv => (fst kv, Plain (snd kv))) d.
Proof.
  induction items as [|[k x] r IH]; intros d; [now intros [= <-]|].
  cbn. destruct x; try discriminate.
  destruct (plain_items r) as [d'|]; [|discriminate].
  intros [= <-]. cbn. now rewrite (IH d' eq_refl).
Qed.

Lemma plain_items_plain (d : list (string * value)) :
  plain_items (map (fun kv => (fst kv, Plain (snd kv))) d) = Some d.
Proof.
  induction d as [|[k v] d IH]; [reflexivity|]. cbn. now rewrite IH.
Qed.

Lemma is_ref_pack (items : list (string * object)) : is_ref (pack items) = false.
Proof.
  unfold pack. now destruct (plain_items items).
Qed.

Lemma resolve_pack (f : nat) (rem : list loc) (h : store)
  (items : list (string * object)) :
  resolve (S f) rem h (pack items)
  = option_map VDict (map_pairs (resolve (S f) rem h) items).
Proof.
  unfold pack. destruct (plain_items items) as [d|] eqn:Hd.
  - rewrite (plain_items_spec _ _ Hd), map_pairs_plain; [reflexivity|].
    reflexivity.
  - now rewrite resolve_unfold.
Qed.

Lemma resolve_items (f : nat) (rem : list loc) (h : store) (current : object)
  (items : list (string * object)) :
  items_of current = Some items ->
  resolve (S f) rem h current
  = option_map VDict (map_pairs (resolve (S f) rem h) items).
Proof.
  destruct current as [v| | | |]; try discriminate.
  - destruct v; try discriminate. intros [= <-].
    rewrite map_pairs_plain; reflexivity.
  - intros [= <-]. now rewrite resolve_unfold.
Qed.

Lemma items_of_none (f : nat) (rem : list loc) (h : store) (current : object)
  (v : value) :
  is_ref current = false -> resolve f rem h current = Some v ->
  is_dict v = false -> items_of current = None.
Proof.
  intros Hr Hv Hd. destruct f as [|f]; [discriminate|].
  destruct (items_of current) as [items|] eqn:Hi; [|reflexivity].
  rewrite (resolve_items _ _ _ _ _ Hi) in Hv.
  destruct (map_pairs _ items); [|discriminate].
  injection Hv as <-. discriminate.
Qed.

Lemma items_of_some (f : nat) (rem : list loc) (h : store) (current : object)
  (d : list (string * value)) :
  is_ref current = false -> resolve f rem h current = Some (VDict d) ->
  exists f' items, f = S f' /\ items_of current = Some items
                   /\ map_pairs (resolve f rem h) items = Some d.
Proof.
  intros Hr Hv. destruct f as [|f]; [discriminate|]. exists f.
  destruct current as [v|l|items|items|cls fields]; try discriminate.
  - cbn in Hv. injection Hv as ->. eexists. split; [reflexivity|].
    split; [reflexivity|]. apply map_pairs_plain. reflexivity.
  - rewrite resolve_unfold in Hv. exists items. split; [reflexivity|].
    split; [reflexivity|].
    destruct (map_pairs _ items); [|discriminate]. now injection Hv as ->.
  - rewrite resolve_unfold in Hv. destruct (map_each _ items); discriminate.
  - rewrite resolve_unfold in Hv. destruct (map_pairs _ fields); discriminate.
Qed.

Lemma map_pairs_get {A B : Type} (g : A -> option B) (k : string)
  (items : list (string * A)) :
  forall d, map_pairs g items = Some d ->
            dict_get k d = match dict_get k items with
                           | Some x => g x
                           | None => None
                           end.
Proof.
  induction items as [|[k' x] r IH]; intros d; [now intros [= <-]|].
  cbn. destruct (g x) as [v|] eqn:Hx; [|discriminate].
  destruct (map_pairs g r) as [vs|]; [|discriminate].
  intros [= <-]. cbn. destruct (String.eqb k k'); [now rewrite Hx|].
  now apply IH.
Qed.

Lemma map_pairs_set {A B : Type} (g : A -> option B) (k : string) (x : A)
  (v : B) (items : list (string * A)) :
  g x = Some v ->
  forall d, map_pairs g items = Some d ->
            map_pairs g (dict_set k x items) = Some (dict_set k v d).
Proof.
  intros Hx. induction items as [|[k' y] r IH]; intros d.
  - intros [= <-]. cbn. now rewrite Hx.
  - cbn. destruct (g y) as [w|] eqn:Hy; [|discriminate].
    destruct (map_pairs g r) as [vs|] eqn:Hr; [|discriminate].
    intros [= <-]. cbn. destruct (String.eqb k k').
    + cbn. now rewrite Hx, Hr.
    + cbn. now rewrite Hy, (IH vs eq_refl).
Qed.

Lemma map_pairs_keeps {A B : Type} (f g : A -> option B)
  (xs : list (string * A)) :
  Forall (fun kv => f (snd kv) <> None -> g (snd kv) <> None) xs ->
  map_pairs f xs <> None -> map_pairs g xs <> None.
Proof.
  induction 1 as [|[k x] r Hx _ IH]; [auto|].
  cbn in *. destruct (f x) as [v|]; [|congruence].
  destruct (map_pairs f r) as [vs|]; [|congruence].
  intros _. destruct (g x); [|exfalso; apply Hx; [discriminate|reflexivity]].
  destruct (map_pairs g r); [discriminate|].
  exfalso; apply IH; [discriminate|reflexivity].
Qed.

Lemma map_each_keeps {A B : Type} (f g : A -> option B) (xs : list A) :
  Forall (fun x => f x <> None -> g x <> None) xs ->
  map_each f xs <> None -> map_each g xs <> None.
Proof.
  induction 1 as [|x r Hx _ IH]; [auto|].
  cbn in *. destruct (f x) as [v|]; [|congruence].
  destruct (map_each f r) as [vs|]; [|congruence].
  intros _. destruct (g x); [|exfalso; apply Hx; [discriminate|reflexivity]].
  destruct (map_each g r); [discriminate|].
  exfalso; apply IH; [discriminate|reflexivity].
Qed.

Lemma map_pairs_items {A B : Type} (g : A -> option B) (k : string) (x : A)
  (items : list (string * A)) :
  map_pairs g items <> None -> dict_get k items = Some x -> g x <> None.
Proof.
  induction items as [|[k' y] r IH]; [discriminate|].
  cbn. destruct (g y) as [w|] eqn:Hy; [|congruence].
  destruct (map_pairs g r) as [vs|]; [|congruence].
  intros _. destruct (String.eqb k k').
  - intros [= <-]. congruence.
  - apply IH. discriminate.
Qed.

Lemma map_pairs_set_keeps {A B : Type} (g : A -> option B) (k : string)
  (x : A) (items : list (string * A)) :
  g x <> None -> map_pairs g items <> None ->
  map_pairs g (dict_set k x items) <> None.
Proof.
  intros Hx. induction items as [|[k' y] r IH].
  - intros _. cbn. destruct (g x); congruence.
  - cbn. destruct (g y) as [w|] eqn:Hy; [|congruence].
    destruct (map_pairs g r) as [vs|] eqn:Hr; [|congruence].
    intros _. destruct (String.eqb k k'); cbn.
    + destruct (g x); [|congruence]. now rewrite Hr.
    + rewrite Hy. destruct (map_pairs g (dict_set k x r)); [discriminate|].
      exfalso; apply IH; [discriminate|reflexivity].
Qed.

(** An object that has a value still has one when a part of it that is a
    mapping gets an item that has a value. *)
Lemma pack_set_keeps (current c child : object) (part : string)
  (items : list (string * object)) :
  items_of current = Some items ->
  (forall x, dict_get part items = Some x -> x = child) ->
  (forall f rem h, (dict_get part items = None \/ resolve f rem h child <> None) ->
                   f <> O -> resolve f rem h c <> None) ->
  forall f rem h,
    resolve f rem h current <> None ->
    resolve f rem h (pack (dict_set part c items)) <> None.
Proof.
  intros Hi Hchild Hc f rem h Hcur. destruct f as [|f]; [exact Hcur|].
  rewrite (resolve_items _ _ _ _ _ Hi) in Hcur. rewrite resolve_pack.
  assert (Hall : map_pairs (resolve (S f) rem h) items <> None).
  { destruct (map_pairs _ items); [discriminate|].
    exfalso. apply Hcur. reflexivity. }
  assert (Hnew : map_pairs (resolve (S f) rem h) (dict_set part c items) <> None).
  { apply map_pairs_set_keeps; [|exact Hall].
    apply Hc; [|discriminate].
    destruct (dict_get part items) as [x|] eqn:Hx; [right|now left].
    rewrite <- (Hchild x eq_refl). exact (map_pairs_items _ _ _ _ Hall Hx). }
  destruct (map_pairs _ (dict_set part c items)); [discriminate|].
  exfalso. now apply Hnew.
Qed.

(** A store in which every object that had a value still has one, after an
    object is replaced by one that has a value whenever the old one had. *)
Lemma insert_keeps (h : store) (l : loc) (c : object) :
  is_ref c = false ->
  (forall f rem h0, resolve f rem h0 (content h l) <> None ->
                    resolve f rem h0 c <> None) ->
  forall f rem x, resolve f rem h x <> None ->
                  resolve f rem (<[l := c]> h) x <> None.
Proof.
  intros Hr Hc. induction f as [|f IH]; intros rem x; [auto|].
  induction x as [v|a|items IHo|items IHo|cls fields IHo]
    using object_induction; rewrite !resolve_unfold.
  - auto.
  - destruct (existsb (Nat.eqb a) rem) eqn:Ha; [|auto].
    destruct (Nat.eq_dec a l) as [->|Hne].
    + destruct (h !! l) as [c0|] eqn:Hl; [|intros H; now contradiction H].
      unfold store, loc in *.
      rewrite list_lookup_insert_eq by (eapply lookup_lt_Some; exact Hl).
      intros H.
      assert (H0 : resolve f (without l rem) h (content h l) <> None).
      { unfold content, store, loc in *. rewrite Hl.
        destruct c0; try exact H. congruence. }
      apply Hc in H0.
      rewrite <- (resolve_insert_unvisited l c h) in H0
        by (rewrite allowed_without, Nat.eqb_refl; apply andb_false_r).
      destruct c; try exact H0. discriminate.
    + unfold store, loc in *. rewrite list_lookup_insert_ne by congruence.
      destruct (h !! a) as [[]|]; auto.
  - intros H. destruct (map_pairs (resolve (S f) rem h) items) eqn:E;
      [|exfalso; apply H; reflexivity].
    assert (Hk : map_pairs (resolve (S f) rem (<[l:=c]> h)) items <> None).
    { apply (map_pairs_keeps (resolve (S f) rem h)); [exact IHo|].
      rewrite E. discriminate. }
    destruct (map_pairs (resolve (S f) rem (<[l:=c]> h)) items);
      [discriminate|]. exfalso. now apply Hk.
  - intros H. destruct (map_each (resolve (S f) rem h) items) eqn:E;
      [|exfalso; apply H; reflexivity].
    assert (Hk : map_each (resolve (S f) rem (<[l:=c]> h)) items <> None).
    { apply (map_each_keeps (resolve (S f) rem h)); [exact IHo|].
      rewrite E. discriminate. }
    destruct (map_each (resolve (S f) rem (<[l:=c]> h)) items);
      [discriminate|]. exfalso. now apply Hk.
  - intros H. destruct (map_pairs (resolve (S f) rem h) fields) eqn:E;
      [|exfalso; apply H; reflexivity].
    assert (Hk : map_pairs (resolve (S f) rem (<[l:=c]> h)) fields <> None).
    { apply (map_pairs_keeps (resolve (S f) rem h)); [exact IHo|].
      rewrite E. discriminate. }
    destruct (map_pairs (resolve (S f) rem (<[l:=c]> h)) fields);
      [discriminate|]. exfalso. now apply Hk.
Qed.

Lemma map_pairs_again {A B : Type} (g g' : A -> option B)
  (items : list (string * A)) (d : list (string * B)) :
  map_pairs g items = Some d ->
  (forall x, g x <> None -> g' x <> None) ->
  exists d', map_pairs g' items = Some d'.
Proof.
  intros Hd Hg.
  assert (H : map_pairs g' items <> None).
  { apply (map_pairs_keeps g).
    - apply Forall_forall. intros kv _. apply Hg.
    - rewrite Hd. discriminate. }
  destruct (map_pairs g' items) as [d'|]; [eauto|congruence].
Qed.

Lemma resolve_ref (f : nat) (rem : list loc) (h : store) (l : loc) (v : value) :
  resolve (S f) rem h (Ref l) = Some v ->
  existsb (Nat.eqb l) rem = true
  /\ exists c, h !! l = Some c /\ is_ref c = false /\ content h l = c
               /\ resolve f (without l rem) h c = Some v.
Proof.
  rewrite resolve_unfold.
  destruct (existsb (Nat.eqb l) rem); [|discriminate].
  destruct (h !! l) as [c|] eqn:Hl; [|discriminate].
  intros H. split; [reflexivity|]. exists c.
  unfold content. rewrite Hl.
  destruct c; try discriminate; repeat split; exact H.
Qed.

Lemma resolve_ref_at (f : nat) (rem : list loc) (h : store) (l : loc)
  (c : object) :
  existsb (Nat.eqb l) rem = true -> h !! l = Some c -> is_ref c = false ->
  resolve (S f) rem h (Ref l) = resolve f (without l rem) h c.
Proof.
  intros Ha Hl Hr. rewrite resolve_unfold, Ha, Hl.
  destruct c; try reflexivity. discriminate.
Qed.

(** Writing a value where the object holds one, and reading it back. *)
Lemma set_in_read (h : store) (nv : value) :
  forall parts current f rem v,
    parts <> [] -> is_ref current = false -> (length rem < f)%nat ->
    resolve f rem h current = Some v ->
    get_nested_loop v parts <> VNone ->
    exists res,
      set_in h current parts (Plain nv) = Ok res
      /\ match res with
         | inl c =>
             is_ref c = false
             /\ (exists v', resolve f rem h c = Some v'
                            /\ get_nested_loop v' parts = nv)
             /\ (forall f0 rem0 h0, resolve f0 rem0 h0 current <> None ->
                                    resolve f0 rem0 h0 c <> None)
         | inr h' =>
             length h' = length h
             /\ (exists v', resolve f rem h' current = Some v'
                            /\ get_nested_loop v' parts = nv)
             /\ (forall f0 rem0 x, resolve f0 rem0 h x <> None ->
                                   resolve f0 rem0 h' x <> None)
             /\ (forall l, existsb (Nat.eqb l) rem = false -> h' !! l = h !! l)
         end.
Proof.
  induction parts as [|part rest IH]; [congruence|].
  intros current f rem v _ Hr Hf Hv Hget.
  destruct v as [| | | | | |d| |]; try (exfalso; apply Hget; reflexivity).
  destruct (items_of_some _ _ _ _ _ Hr Hv) as (f0 & items & -> & Hi & Hd).
  rewrite set_in_unfold, Hi.
  cbn [get_nested_loop] in Hget. unfold py_dict_get in Hget.
  destruct rest as [|p2 rest].
  - eexists. split; [reflexivity|]. cbv beta iota.
    split; [apply is_ref_pack|]. split.
    + exists (VDict (dict_set part nv d)). split.
      * rewrite resolve_pack.
        now rewrite (map_pairs_set _ part (Plain nv) nv items eq_refl d Hd).
      * cbn. unfold py_dict_get. now rewrite dict_get_set_same.
    + apply (pack_set_keeps current (Plain nv)
               (default (Plain VNone) (dict_get part items)) part items Hi).
      * intros x ->. reflexivity.
      * intros f1 rem1 h1 _ Hf1. destruct f1; [congruence|discriminate].
  - assert (Hx : exists x vx,
               dict_get part items = Some x
               /\ resolve (S f0) rem h x = Some vx
               /\ dict_get part d = Some vx
               /\ get_nested_loop vx (p2 :: rest) <> VNone).
    { rewrite (map_pairs_get _ part items d Hd) in Hget.
      pose proof (map_pairs_get _ part items d Hd) as Hk.
      destruct (dict_get part items) as [x|].
      - destruct (resolve (S f0) rem h x) as [vx|] eqn:Hvx.
        + exists x, vx. repeat split; assumption.
        + exfalso. apply Hget. reflexivity.
      - exfalso. apply Hget. reflexivity. }
    destruct Hx as (x & vx & Hpx & Hvx & Hdx & Hgx).
    rewrite Hpx.
    assert (Hread : forall (h' : store) d' v',
               map_pairs (resolve (S f0) rem h') items = Some d' ->
               resolve (S f0) rem h' x = Some v' ->
               get_nested_loop v' (p2 :: rest) = nv ->
               exists w, resolve (S f0) rem h' current = Some w
                         /\ get_nested_loop w (part :: p2 :: rest) = nv).
    { intros h' d' v' Hd' Hv' Hg'. exists (VDict d'). split.
      - now rewrite (resolve_items _ _ _ _ _ Hi), Hd'.
      - cbn [get_nested_loop]. unfold py_dict_get.
        rewrite (map_pairs_get _ part items d' Hd'), Hpx, Hv'. exact Hg'. }
    destruct (is_ref x) eqn:Hrx.
    + destruct x as [|l| | |]; try discriminate.
      destruct (resolve_ref _ _ _ _ _ Hvx) as (Ha & c & Hl & Hrc & Hc & Hvc).
      rewrite Hc.
      assert (Hlen : (length (without l rem) < f0)%nat).
      { pose proof (length_without l rem Ha). unfold loc in *. lia. }
      destruct (IH c f0 (without l rem) vx ltac:(discriminate) Hrc Hlen Hvc Hgx)
        as (res & Hset & Hres).
      rewrite Hset. destruct res as [c'|h1].
      * destruct Hres as (Hrc' & (v' & Hv' & Hg') & Hkeep).
        eexists. split; [reflexivity|]. cbv beta iota.
        assert (Hlt : (l < length h)%nat) by (eapply lookup_lt_Some; exact Hl).
        assert (Hpres : forall f1 rem1 y,
                   resolve f1 rem1 h y <> None ->
                   resolve f1 rem1 (<[l := c']> h) y <> None).
        { apply insert_keeps; [exact Hrc'|]. rewrite Hc. exact Hkeep. }
        split; [unfold store in *; apply length_insert|].
        split; [|split; [exact Hpres|]].
        -- destruct (map_pairs_again _ (resolve (S f0) rem (<[l := c']> h))
                       items d Hd) as [d' Hd']; [intros y; apply Hpres|].
           apply (Hread _ d' v' Hd'); [|exact Hg'].
           rewrite (resolve_ref_at _ _ _ l c' Ha); [| |exact Hrc'].
           ++ rewrite resolve_insert_unvisited; [exact Hv'|].
              rewrite allowed_without, Nat.eqb_refl. apply andb_false_r.
           ++ unfold store, loc in *. now apply list_lookup_insert_eq.
        -- intros l0 Hl0. unfold store, loc in *.
           apply list_lookup_insert_ne. intros ->. congruence.
      * destruct Hres as (Hlen1 & (v' & Hv' & Hg') & Hpres & Hsame).
        eexists. split; [reflexivity|]. cbv beta iota.
        split; [exact Hlen1|]. split; [|split; [exact Hpres|]].
        -- destruct (map_pairs_again _ (resolve (S f0) rem h1) items d Hd)
             as [d' Hd']; [intros y; apply Hpres|].
           apply (Hread _ d' v' Hd'); [|exact Hg'].
           rewrite (resolve_ref_at _ _ _ l c Ha); [exact Hv'| |exact Hrc].
           rewrite Hsame; [exact Hl|].
           rewrite allowed_without, Nat.eqb_refl. apply andb_false_r.
        -- intros l0 Hl0. apply Hsame. rewrite allowed_without, Hl0. reflexivity.
    + destruct (IH x (S f0) rem vx ltac:(discriminate) Hrx Hf Hvx Hgx)
        as (res & Hset & Hres).
      assert (E : set_in h (default (Plain (VDict [])) (Some x)) (p2 :: rest)
                    (Plain nv) = Ok res) by exact Hset.
      assert (Hgoal :
        exists res0,
          match set_in h (default (Plain (VDict [])) (Some x)) (p2 :: rest)
                  (Plain nv) with
          | Ok (inl c) => Ok (inl (pack (dict_set part c items)))
          | Ok (inr h') => Ok (inr h')
          | Raise e => Raise e
          end = Ok res0
          /\ match res0 with
             | inl c =>
                 is_ref c = false
                 /\ (exists v', resolve (S f0) rem h c = Some v'
                                /\ get_nested_loop v' (part :: p2 :: rest) = nv)
                 /\ (forall f1 rem0 h0, resolve f1 rem0 h0 current <> None ->
                                        resolve f1 rem0 h0 c <> None)
             | inr h' =>
                 length h' = length h
                 /\ (exists v', resolve (S f0) rem h' current = Some v'
                                /\ get_nested_loop v' (part :: p2 :: rest) = nv)
                 /\ (forall f1 rem0 y, resolve f1 rem0 h y <> None ->
                                       resolve f1 rem0 h' y <> None)
                 /\ (forall l, existsb (Nat.eqb l) rem = false ->
                               h' !! l = h !! l)
             end).
      { rewrite E. destruct res as [x'|h1].
        - destruct Hres as (Hrx' & (v' & Hv' & Hg') & Hkeep).
          eexists. split; [reflexivity|]. cbv beta iota.
          split; [apply is_ref_pack|]. split.
          + exists (VDict (dict_set part v' d)). split.
            * rewrite resolve_pack.
              now rewrite (map_pairs_set _ part x' v' items Hv' d Hd).
            * cbn [get_nested_loop]. unfold py_dict_get.
              rewrite dict_get_set_same. exact Hg'.
          + apply (pack_set_keeps current x' x part items Hi).
            * intros y Hy. congruence.
            * intros f1 rem1 h1 [Hnone|Hsome] _; [congruence|].
              now apply Hkeep.
        - destruct Hres as (Hlen1 & (v' & Hv' & Hg') & Hpres & Hsame).
          eexists. split; [reflexivity|]. cbv beta iota.
          split; [exact Hlen1|]. split; [|split; [exact Hpres|exact Hsame]].
          destruct (map_pairs_again _ (resolve (S f0) rem h1) items d Hd)
            as [d' Hd']; [intros y; apply Hpres|].
          now apply (Hread _ d' v' Hd'). }
      destruct x; try exact Hgoal. discriminate.
Qed.

Lemma deref_resolves (h : store) (l : loc) (v : value) :
  deref h l = v -> v <> VNone ->
  existsb (Nat.eqb l) (seq 0 (length h)) = true
  /\ exists c, h !! l = Some c /\ is_ref c = false /\ content h l = c
               /\ resolve (length h) (without l (seq 0 (length h))) h c = Some v.
Proof.
  unfold deref, view. intros Hv Hne.
  destruct (resolve (S (length h)) (seq 0 (length h)) h (Ref l)) as [w|] eqn:E;
    [|cbn in Hv; congruence].
  cbn in Hv. subst w. now apply resolve_ref.
Qed.

Lemma length_without_seq (l n : nat) :
  existsb (Nat.eqb l) (seq 0 n) = true -> (length (without l (seq 0 n)) < n)%nat.
Proof.
  intros H. pose proof (length_without l (seq 0 n) H) as Hlt.
  rewrite length_seq in Hlt. exact Hlt.
Qed.

(** [_set_nested] of a value on a path where [_get_nested] finds one,
    then [_get_nested]: the write does not fail, the store keeps its
    objects, and the value written is read back. *)
Lemma set_nested_at_read (h : store) (obj : loc) (path : string) (nv : value)
  (d : list (string * value)) :
  deref h obj = VDict d ->
  _get_nested (VDict d) path <> VNone ->
  exists h',
    set_nested_at h obj path (Plain nv) = Ok h'
    /\ length h' = length h
    /\ _get_nested (deref h' obj) path = nv.
Proof.
  intros Hd Hget.
  destruct (deref_resolves h obj _ Hd ltac:(discriminate))
    as (Ha & c & Hl & Hrc & Hc & Hv).
  pose proof (length_without_seq _ _ Ha) as Hlen.
  assert (Hp : PyStr.split "." path <> []).
  { destruct path; cbn; [discriminate|].
    destruct (Ascii.eqb _ _); [discriminate|].
    destruct (PyStr.split "." path); discriminate. }
  destruct (set_in_read h nv (PyStr.split "." path) c (length h)
              (without obj (seq 0 (length h))) (VDict d) Hp Hrc Hlen Hv Hget)
    as (res & Hset & Hres).
  unfold set_nested_at. rewrite Hc, Hset.
  assert (Hlt : (obj < length h)%nat) by (eapply lookup_lt_Some; exact Hl).
  destruct res as [c'|h1].
  - destruct Hres as (Hrc' & (v' & Hv' & Hg') & _).
    eexists. split; [reflexivity|].
    split; [unfold store in *; apply length_insert|].
    unfold deref, view. unfold store in *. rewrite length_insert.
    rewrite (resolve_ref_at _ _ _ obj c' Ha); [| |exact Hrc'].
    + rewrite resolve_insert_unvisited; [rewrite Hv'; exact Hg'|].
      rewrite allowed_without, Nat.eqb_refl. apply andb_false_r.
    + unfold loc in *. now apply list_lookup_insert_eq.
  - destruct Hres as (Hlen1 & (v' & Hv' & Hg') & _ & Hsame).
    eexists. split; [reflexivity|]. split; [exact Hlen1|].
    unfold deref, view. rewrite Hlen1.
    rewrite (resolve_ref_at _ _ _ obj c Ha); [rewrite Hv'; exact Hg'| |exact Hrc].
    rewrite Hsame; [exact Hl|].
    rewrite allowed_without, Nat.eqb_refl. apply andb_false_r.
Qed.

(** Where [_set_nested] fails on the value of an object, it fails the same
    way on the object. *)
Lemma set_in_raises (h : store) (new : object) (nv : value) :
  forall parts current f rem v e,
    is_ref current = false ->
    resolve f rem h current = Some v ->
    set_nested_loop v parts nv = Raise e ->
    set_in h current parts new = Raise e.
Proof.
  induction parts as [|part rest IH]; intros current f rem v e Hr Hv;
    [discriminate|].
  rewrite set_nested_loop_unfold, set_in_unfold.
  destruct (is_dict v) eqn:Hdict.
  - destruct v as [| | | | | |d| |]; try discriminate.
    destruct (items_of_some _ _ _ _ _ Hr Hv) as (f0 & items & -> & Hi & Hd).
    rewrite Hi. destruct rest as [|p2 rest]; [discriminate|].
    cbv zeta. rewrite (map_pairs_get _ part items d Hd).
    destruct (dict_get part items) as [x|] eqn:Hx.
    + pose proof (map_pairs_items _ part x items
                    ltac:(rewrite Hd; discriminate) Hx) as Hsome.
      destruct (resolve (S f0) rem h x) as [vx|] eqn:Hvx; [|congruence].
      destruct (set_nested_loop vx (p2 :: rest) nv) as [c'|e'] eqn:Hset;
        [discriminate|].
      cbn [bind]. intros [= <-].
      destruct (is_ref x) eqn:Hrx.
      * destruct x as [|l| | |]; try discriminate.
        destruct (resolve_ref _ _ _ _ _ Hvx) as (Ha & c & Hl & Hrc & Hc & Hvc).
        rewrite Hc. now rewrite (IH c f0 (without l rem) vx e' Hrc Hvc Hset).
      * assert (E : set_in h (default (Plain (VDict [])) (Some x)) (p2 :: rest)
                      new = Raise e')
          by exact (IH x (S f0) rem vx e' Hrx Hvx Hset).
        destruct x; try (now rewrite E). discriminate.
    + destruct (set_nested_loop (VDict []) (p2 :: rest) nv) as [c'|e'] eqn:Hset;
        [discriminate|].
      cbn [bind]. intros [= <-]. cbn [default].
      now rewrite (IH (Plain (VDict [])) 1%nat [] (VDict []) e' eq_refl eq_refl
                     Hset).
  - rewrite (items_of_none _ _ _ _ _ Hr Hv Hdict).
    rewrite (resolve_view _ _ _ _ _ Hv).
    destruct rest; destruct v; try discriminate; now intros [= <-].
Qed.

Lemma set_nested_at_raises (h : store) (obj : loc) (path : string)
  (new : object) (nv : value) (e : exn) :
  deref h obj <> VNone ->
  _set_nested (deref h obj) path nv = Raise e ->
  set_nested_at h obj path new = Raise e.
Proof.
  intros Hne Hset.
  destruct (deref_resolves h obj _ eq_refl Hne) as (Ha & c & Hl & Hrc & Hc & Hv).
  unfold set_nested_at. rewrite Hc.
  now rewrite (set_in_raises h new nv _ c _ _ _ e Hrc Hv Hset).
Qed.

(** On an object that holds no object of the store, [_set_nested] of a
    value is [_set_nested] on the value of the object. *)
Lemma pack_plain_set (k : string) (v : value) (d : list (string * value)) :
  pack (dict_set k (Plain v) (map (fun kv => (fst kv, Plain (snd kv))) d))
  = Plain (VDict (dict_set k v d)).
Proof.
  unfold pack.
  replace (dict_set k (Plain v) (map (fun kv => (fst kv, Plain (snd kv))) d))
    with (map (fun kv : string * value => (fst kv, Plain (snd kv)))
            (dict_set k v d)).
  - now rewrite plain_items_plain.
  - induction d as [|[k' w] d IH]; [reflexivity|].
    cbn. destruct (String.eqb k k'); [reflexivity|]. cbn. now rewrite IH.
Qed.

Lemma dict_get_plain (k : string) (d : list (string * value)) :
  dict_get k (map (fun kv => (fst kv, Plain (snd kv))) d)
  = option_map Plain (dict_get k d).
Proof.
  induction d as [|[k' w] d IH]; [reflexivity|].
  cbn. destruct (String.eqb k k'); [reflexivity|exact IH].
Qed.

Lemma set_in_plain (h : store) (nv : value) :
  forall parts v,
    set_in h (Plain v) parts (Plain nv)
    = match set_nested_loop v parts nv with
      | Ok v' => Ok (inl (Plain v'))
      | Raise e => Raise e
      end.
Proof.
  induction parts as [|part rest IH]; intros v; [reflexivity|].
  rewrite set_in_unfold, set_nested_loop_unfold.
  assert (Hview : view h (Plain v) = v).
  { unfold view. now rewrite resolve_unfold. }
  rewrite Hview.
  destruct v as [| | | | | |d| |]; try (destruct rest; reflexivity).
  cbn [items_of]. destruct rest as [|p2 rest].
  - now rewrite pack_plain_set.
  - cbv zeta. rewrite dict_get_plain.
    destruct (dict_get part d) as [c|]; cbn [option_map]; cbv beta iota;
      cbn [default from_option id].
    + rewrite IH. destruct (set_nested_loop c (p2 :: rest) nv); cbn [bind];
        [now rewrite pack_plain_set|reflexivity].
    + rewrite IH. destruct (set_nested_loop (VDict []) (p2 :: rest) nv);
        cbn [bind]; [now rewrite pack_plain_set|reflexivity].
Qed.

Lemma set_nested_at_plain (h : store) (obj : loc) (path : string)
  (v nv : value) :
  h !! obj = Some (Plain v) ->
  set_nested_at h obj path (Plain nv)
  = match _set_nested v path nv with
    | Ok v' => Ok (<[obj := Plain v']> h)
    | Raise e => Raise e
    end.
Proof.
  intros Hl. unfold set_nested_at, _set_nested, content. rewrite Hl.
  rewrite set_in_plain. now destruct (set_nested_loop v _ nv).
Qed.

(** ** Where a write lands *)

Lemma refs_pack (U : loc -> Prop) (items : list (string * object)) :
  Forall U (flat_map (fun kv => refs (snd kv)) items) ->
  Forall U (refs (pack items)).
Proof.
  intros H. unfold pack. destruct (plain_items items); [constructor|exact H].
Qed.

Lemma refs_dict_set (U : loc -> Prop) (k : string) (x : object)
  (items : list (string * object)) :
  Forall U (refs x) ->
  Forall U (flat_map (fun kv => refs (snd kv)) items) ->
  Forall U (flat_map (fun kv => refs (snd kv)) (dict_set k x items)).
Proof.
  intros Hx. induction items as [|[k' y] r IH]; intros H.
  - cbn. rewrite app_nil_r. exact Hx.
  - cbn in *. apply Forall_app in H as [Hy Hr].
    destruct (String.eqb k k'); cbn; apply Forall_app; split; auto.
Qed.

Lemma refs_items_of (U : loc -> Prop) (current : object)
  (items : list (string * object)) :
  items_of current = Some items -> Forall U (refs current) ->
  Forall U (flat_map (fun kv => refs (snd kv)) items).
Proof.
  destruct current as [v| | | |]; try discriminate.
  - destruct v; try discriminate. intros [= <-] _.
    induction d as [|[k w] d IH]; [constructor|exact IH].
  - now intros [= <-].
Qed.

Lemma refs_dict_get (U : loc -> Prop) (k : string) (x : object)
  (items : list (string * object)) :
  dict_get k items = Some x ->
  Forall U (flat_map (fun kv => refs (snd kv)) items) -> Forall U (refs x).
Proof.
  induction items as [|[k' y] r IH]; [discriminate|].
  cbn. intros Hk H. apply Forall_app in H as [Hy Hr].
  destruct (String.eqb k k'); [now injection Hk as <-|auto].
Qed.

Lemma content_insert (h : store) (l a : loc) (c : object) :
  content (<[l := c]> h) a
  = if Nat.eqb a l && (l <? length h)%nat
    then (if is_ref c then Plain VNone else c)
    else content h a.
Proof.
  unfold content, store, loc in *.
  destruct (Nat.eqb a l) eqn:E; cbn [andb].
  - apply Nat.eqb_eq in E. subst a.
    destruct (l <? length h)%nat eqn:Hl.
    + apply Nat.ltb_lt in Hl. rewrite list_lookup_insert_eq by exact Hl.
      now destruct c.
    + apply Nat.ltb_ge in Hl. now rewrite list_insert_ge by exact Hl.
  - apply Nat.eqb_neq in E. now rewrite list_lookup_insert_ne by congruence.
Qed.

(** A set of objects that holds what its objects hold stays so when one of
    them is replaced by an object that holds objects of the set. *)
Lemma closed_insert (U : loc -> Prop) (h : store) (l : loc) (c : object) :
  (forall a, U a -> Forall U (refs (content h a))) ->
  Forall U (refs c) ->
  forall a, U a -> Forall U (refs (content (<[l := c]> h) a)).
Proof.
  intros Hclosed Hc a Ha. rewrite content_insert.
  destruct (_ && _); [|now apply Hclosed].
  destruct (is_ref c); [constructor|exact Hc].
Qed.

(** A write through an object lands in the object, in a part of it, or in
    an object of the store that it holds, directly or not. *)
Lemma set_in_region (U : loc -> Prop) (h : store) (new : object) :
  (forall a, U a -> Forall U (refs (content h a))) ->
  Forall U (refs new) ->
  forall parts current res,
    Forall U (refs current) ->
    set_in h current parts new = Ok res ->
    match res with
    | inl c => Forall U (refs c)
    | inr h' =>
        length h' = length h
        /\ (forall a, U a -> Forall U (refs (content h' a)))
        /\ (forall a, ~ U a -> h' !! a = h !! a)
    end.
Proof.
  intros Hclosed Hnew.
  induction parts as [|part rest IH]; intros current res Hcur.
  - intros [= <-]. exact Hcur.
  - rewrite set_in_unfold.
    destruct (items_of current) as [items|] eqn:Hi; [|discriminate].
    pose proof (refs_items_of U _ _ Hi Hcur) as Hitems.
    destruct rest as [|p2 rest].
    + intros [= <-]. apply refs_pack. now apply refs_dict_set.
    + assert (Hstep : forall child,
                 Forall U (refs child) ->
                 match set_in h child (p2 :: rest) new with
                 | Ok (inl c) => Ok (inl (pack (dict_set part c items)))
                 | Ok (inr h') => Ok (inr h')
                 | Raise e => Raise e
                 end = Ok res ->
                 match res with
                 | inl c => Forall U (refs c)
                 | inr h' =>
                     length h' = length h
                     /\ (forall a, U a -> Forall U (refs (content h' a)))
                     /\ (forall a, ~ U a -> h' !! a = h !! a)
                 end).
      { intros child Hchild.
        destruct (set_in h child (p2 :: rest) new) as [[c|h1]|e] eqn:Hset;
          [| |discriminate]; intros [= <-].
        - apply refs_pack, refs_dict_set; [|exact Hitems].
          exact (IH child (inl c) Hchild Hset).
        - exact (IH child (inr h1) Hchild Hset). }
      destruct (dict_get part items) as [x|] eqn:Hx.
      * pose proof (refs_dict_get U _ _ _ Hx Hitems) as Hrx.
        destruct x as [v|l|its|its|cls fs]; try (now apply Hstep).
        cbn in Hrx. apply Forall_cons in Hrx as [Hl _].
        destruct (set_in h (content h l) (p2 :: rest) new) as [[c|h1]|e] eqn:Hset;
          [| |discriminate]; intros [= <-].
        -- pose proof (IH _ (inl c) (Hclosed l Hl) Hset) as Hc.
           split; [unfold store in *; apply length_insert|]. split.
           ++ now apply closed_insert.
           ++ intros a Ha. unfold store, loc in *.
              apply list_lookup_insert_ne. intros ->. contradiction.
        -- exact (IH _ (inr h1) (Hclosed l Hl) Hset).
      * apply Hstep. constructor.
Qed.

Lemma set_nested_at_region (U : loc -> Prop) (h h' : store) (obj : loc)
  (path : string) (new : object) :
  (forall a, U a -> Forall U (refs (content h a))) ->
  Forall U (refs new) -> U obj ->
  set_nested_at h obj path new = Ok h' ->
  length h' = length h
  /\ (forall a, U a -> Forall U (refs (content h' a)))
  /\ (forall a, ~ U a -> h' !! a = h !! a).
Proof.
  intros Hclosed Hnew Hobj. unfold set_nested_at.
  destruct (set_in h (content h obj) _ new) as [[c|h1]|e] eqn:Hset;
    [| |discriminate]; intros [= <-].
  - pose proof (set_in_region U h new Hclosed Hnew _ _ (inl c)
                  (Hclosed obj Hobj) Hset) as Hc.
    split; [unfold store in *; apply length_insert|]. split.
    + now apply closed_insert.
    + intros a Ha. unfold store, loc in *.
      apply list_lookup_insert_ne. intros ->. contradiction.
  - exact (set_in_region U h new Hclosed Hnew _ _ (inr h1)
             (Hclosed obj Hobj) Hset).
Qed.

(** ** Remediation of a field *)

Lemma length_append (a b : string) :
  String.length (a ++ b) = (String.length a + String.length b)%nat.
Proof.
  induction a as [|c a IH]; [reflexivity|].
  rewrite append_cons. cbn [String.length]. now rewrite IH.
Qed.

Lemma len_append (a b : string) : PyStr.len (a ++ b) = PyStr.len a + PyStr.len b.
Proof.
  unfold PyStr.len. rewrite length_append. lia.
Qed.

Lemma length_take (n : nat) (s : string) :
  String.length (PyStr.take n s) = Nat.min n (String.length s).
Proof.
  revert s. induction n as [|n IH]; intros s; [reflexivity|].
  destruct s as [|c s]; [reflexivity|]. cbn. now rewrite IH.
Qed.

Lemma len_slice_to (n : Z) (s : string) :
  0 <= n -> PyStr.len (PyStr.slice_to n s) = Z.min n (PyStr.len s).
Proof.
  intros Hn. unfold PyStr.slice_to, PyStr.len.
  replace (0 <=? n) with true by (symmetry; now apply Z.leb_le).
  rewrite length_take. lia.
Qed.

(** [_apply_truncate] never raises.  On a mapping output and a rule
    that names a field holding a text, it writes the first [truncate_to]
    characters followed by the suffix into the field, whatever the length of
    the text, and records the two details; the store keeps its objects, the
    field reads as the written text afterwards, and when the output holds no
    object of the store the write is [_set_nested] on its value and changes
    the output alone.  The written text has
    [min(truncate_to, length) + len(suffix)] characters for a limit that is
    not negative, so a text no longer than the limit grows by the suffix.
    When the field holds no text the call changes nothing. *)
Theorem truncate_appends_suffix (h : store) (output : loc)
  (g : GuardrailConfig) (r : GuardrailResult) :
  (exists l, snd (_apply_truncate h output g r) = Ok l)
  /\ (forall n path d,
      cfg_truncate_to g = Some n ->
      _extract_field_from_rule (cfg_rule g) "output." = Some path ->
      deref h output = VDict d ->
      (forall s,
          _get_nested (VDict d) path = VStr s ->
          let text := PyStr.slice_to n s ++ cfg_suffix g in
          exists h',
            _apply_truncate h output g r
            = (h',
               set_detail (set_detail r "original_length" (VInt (PyStr.len s)))
                 "truncated_to" (VInt n),
               Ok output)
            /\ length h' = length h
            /\ _get_nested (deref h' output) path = VStr text
            /\ (h !! output = Some (Plain (VDict d)) ->
                exists out',
                  _set_nested (VDict d) path (VStr text) = Ok out'
                  /\ h' = <[output := Plain out']> h
                  /\ deref h' output = out')
            /\ (0 <= n ->
                PyStr.len text = Z.min n (PyStr.len s) + PyStr.len (cfg_suffix g)))
      /\ (is_str (_get_nested (VDict d) path) = false ->
          _apply_truncate h output g r = (h, r, Ok output))).
Proof.
  split.
  - unfold _apply_truncate.
    destruct (cfg_truncate_to g) as [n|]; [|cbn; eauto].
    destruct (_extract_field_from_rule _ _) as [path|];
      destruct (deref h output) as [| | | |s0|l0|d| |] eqn:Hd;
      try (cbn; eauto; fail).
    destruct (_get_nested (VDict d) path) as [| | | |s| | | |] eqn:Hg;
      try (cbn; eauto; fail).
    destruct (set_nested_at_read h output path
                (VStr (PyStr.slice_to n s ++ cfg_suffix g)) d Hd)
      as (h' & Hset & _); [rewrite Hg; discriminate|].
    rewrite Hset. cbn. eauto.
  - intros n path d Hn Hpath Hd. split.
    + intros s Hg text.
      destruct (set_nested_at_read h output path (VStr text) d Hd)
        as (h' & Hset & Hlen & Hread); [rewrite Hg; discriminate|].
      exists h'. unfold _apply_truncate. rewrite Hn, Hpath, Hd, Hg.
      fold text. rewrite Hset. split; [reflexivity|].
      split; [exact Hlen|]. split; [exact Hread|]. split.
      * intros Hcell. rewrite (set_nested_at_plain _ _ _ _ _ Hcell) in Hset.
        destruct (_set_nested (VDict d) path (VStr text)) as [out'|e];
          [|discriminate].
        injection Hset as <-. exists out'. split; [reflexivity|].
        split; [reflexivity|]. apply deref_plain.
        unfold store, loc in *. apply list_lookup_insert_eq.
        eapply lookup_lt_Some. exact Hcell.
      * intros Hpos. subst text. now rewrite len_append, len_slice_to.
    + intros Hs. unfold _apply_truncate. rewrite Hn, Hpath, Hd.
      destruct (_get_nested (VDict d) path); try reflexivity. discriminate.
Qed.

Lemma split_no_sep (sep : ascii) (s : string) :
  PyStr.contains_char sep s = false -> PyStr.split sep s = [s].
Proof.
  induction s as [|c s IH]; [reflexivity|].
  cbn. intros H. apply orb_false_iff in H as [Hc Hs].
  rewrite Hc, (IH Hs). reflexivity.
Qed.

Lemma set_nested_through_scalar (d : list (string * value)) (k rest : string)
  (x v : value) :
  dict_get k d = Some x -> is_dict x = false ->
  PyStr.contains_char "." k = false ->
  exists m, _set_nested (VDict d) (k ++ String "." rest) v = Raise (TypeError m).
Proof.
  intros Hk Hx Hdot. unfold _set_nested.
  rewrite split_app, (split_no_sep _ _ Hdot).
  destruct (split_cons "." rest) as (p & ps & ->).
  cbn [app]. rewrite set_nested_loop_unfold. rewrite Hk. cbv zeta.
  destruct (set_nested_loop_not_dict (p :: ps) v x ltac:(discriminate) Hx)
    as [m ->].
  cbn. eauto.
Qed.

Section FallbackError.

Variable rt : runtime.
Variable _rules : gmap string rule_fn.

(** A fallback on a field whose path runs through a value that is no
    mapping ends [check_output] with the [TypeError] of the assignment: the
    error is raised outside the guarded evaluation, so the fail-open setting
    does not turn it into a result.  The store is as before the call to the
    remediation, and the summary of the engine has gained the result of the
    guardrail with the two details. *)
Theorem fallback_error_is_not_caught (self : GuardrailEngine) (h : store)
  (request : value) (output : loc) (g : GuardrailConfig)
  (rest : list GuardrailConfig) (results : list GuardrailResult)
  (path : string) (e : exn) :
  cfg_enabled g = true ->
  cfg_response g = Fallback ->
  evaluate_rule rt _rules (cfg_rule g)
    (VDict [("request", request); ("output", deref h output)]) = Ok false ->
  _extract_field_from_rule (cfg_rule g) "output." = Some path ->
  is_dict (deref h output) = true ->
  _set_nested (deref h output) path (deref h (cfg_fallback_value g)) = Raise e ->
  let r := set_detail
             (set_detail (triggered_result g) "original_value"
                (_get_nested (deref h output) path))
             "fallback_value" (deref h (cfg_fallback_value g)) in
  let after := check_output_loop rt _rules self h request output (g :: rest)
                 results in
  after = (with_summary self (add_result (_summary self) r), h, Raise e)
  /\ _summary (fst (fst after)) = add_result (_summary self) r
  /\ (cfg_stage g = Output ->
      sum_output (_summary (fst (fst after)))
      = (sum_output (_summary self) ++ [r])%list)
  /\ (exists m, e = TypeError m)
  /\ (forall d k x more v,
      dict_get k d = Some x -> is_dict x = false ->
      PyStr.contains_char "." k = false ->
      exists m, _set_nested (VDict d) (k ++ String "." more) v
                = Raise (TypeError m)).
Proof.
  intros Hen Hresp Heval Hpath Hd Hset r after.
  assert (Hafter : after
                   = (with_summary self (add_result (_summary self) r), h,
                      Raise e)).
  { subst after. cbn [check_output_loop]. rewrite Hen. cbn [negb].
    rewrite (evaluate_guardrail_ok rt _rules self g _ false Heval).
    cbv beta iota zeta.
    change (res_triggered (triggered_result g)) with true. cbv iota.
    change (res_response (triggered_result g)) with (Some (cfg_response g)).
    rewrite Hresp. cbv iota.
    unfold _apply_fallback. rewrite Hpath.
    destruct (deref h output) as [| | | | | |d| |] eqn:Ho; try discriminate.
    rewrite (set_nested_at_raises h output path
               (Ref (cfg_fallback_value g))
               (deref h (cfg_fallback_value g)) e);
      [reflexivity|rewrite Ho; discriminate|rewrite Ho; exact Hset]. }
  split; [exact Hafter|]. rewrite Hafter. cbn [fst].
  split; [reflexivity|]. split; [|split].
  - intros Hstage. cbn [with_summary _summary]. unfold add_result.
    replace (res_stage r) with Output by (symmetry; exact Hstage).
    reflexivity.
  - unfold _set_nested in Hset. now apply set_nested_loop_raises in Hset.
  - intros d k x more v. apply set_nested_through_scalar.
Qed.

End FallbackError.

(** ** An output that no remediation touches *)

Section Untriggered.

Variable rt : runtime.
Variable _rules : gmap string rule_fn.

(** While no guardrail other than a blocking one triggers, the loop of
    [check_output] changes no object and keeps the object it works on. *)
Lemma check_output_loop_untriggered (request v : value)
  (guardrails : list GuardrailConfig) :
  forall (self : GuardrailEngine) (h : store) (l : loc)
         (results : list GuardrailResult),
    deref h l = v ->
    (forall g, In g guardrails -> cfg_enabled g = true ->
               cfg_response g <> Block ->
               evaluate_rule rt _rules (cfg_rule g)
                 (VDict [("request", request); ("output", v)]) <> Ok false) ->
    let '(_, h', out) :=
      check_output_loop rt _rules self h request l guardrails results in
    h' = h /\ (forall l' rs, out = Ok (l', rs) -> l' = l).
Proof.
  induction guardrails as [|g rest IH]; intros self h l results Hv Hquiet.
  - cbn. split; [reflexivity|]. now intros l' rs [= <- _].
  - cbn [check_output_loop].
    assert (Hrest : forall g', In g' rest -> cfg_enabled g' = true ->
                               cfg_response g' <> Block ->
                               evaluate_rule rt _rules (cfg_rule g')
                                 (VDict [("request", request); ("output", v)])
                               <> Ok false).
    { intros g' Hin. apply Hquiet. now right. }
    destruct (cfg_enabled g) eqn:Hen; cbn [negb]; [|now apply IH].
    rewrite Hv. unfold _evaluate_guardrail.
    specialize (Hquiet g (or_introl eq_refl) Hen).
    destruct (evaluate_rule rt _rules (cfg_rule g) _) as [[|]|e].
    + cbn. now apply IH.
    + cbn. destruct (cfg_response g);
        try (exfalso; apply Hquiet; [discriminate|reflexivity]).
      split; [reflexivity|]. discriminate.
    + assert (Hraise : forall e',
                 (let '(_, h', out) :=
                    (self, h, @Raise (loc * list GuardrailResult) e') in
                  h' = h /\ (forall l' rs, out = Ok (l', rs) -> l' = l))).
      { intros e'. split; [reflexivity|]. discriminate. }
      destruct e; destruct (fail_open self);
        first [apply Hraise | cbn; now apply IH].
Qed.

(** When no enabled output guardrail with a response other than [block]
    triggers, [check_output] changes no object of the store: it only adds
    the objects of the copy, and the output it returns, if it returns one,
    is the copy of the output it was given, equal to it in value. *)
Theorem untriggered_output_is_equal (self : GuardrailEngine) (h : store)
  (agent : string) (request : value) (output : loc) :
  (forall g, In g (_get_guardrails self agent "output") ->
             cfg_enabled g = true -> cfg_response g <> Block ->
             evaluate_rule rt _rules (cfg_rule g)
               (VDict [("request", request); ("output", deref h output)])
             <> Ok false) ->
  let '(_, h', out) := check_output rt _rules self h agent request output in
  h' = (h ++ map (relocate (Nat.add (length h))) h)%list
  /\ (forall l rs, out = Ok (l, rs) ->
                   l = (length h + output)%nat
                   /\ deref h' l = deref h output).
Proof.
  intros Hquiet. unfold check_output.
  pose proof (deref_deepcopy h output) as Hcopy.
  unfold deepcopy in *. cbn [fst snd] in Hcopy.
  pose proof (check_output_loop_untriggered request (deref h output)
                (_get_guardrails self agent "output") self
                (h ++ map (relocate (Nat.add (length h))) h)%list
                (length h + output)%nat [] Hcopy Hquiet) as H.
  destruct (check_output_loop _ _ _ _ _ _ _ _) as [[self' h'] out].
  destruct H as [-> Hl]. split; [reflexivity|].
  intros l rs Hout. rewrite (Hl l rs Hout). split; [reflexivity|exact Hcopy].
Qed.

End Untriggered.

Lemma untriggered_output_is_equal_witness :
  let '(_, h', out) :=
    check_output Sample.rt Examples.rules
      (Examples.engine false [] [Examples.label]) Examples.objects "writer"
      (Examples.allowing "draft") 2%nat in
  h' = (Examples.objects ++ Examples.objects)%list
  /\ (forall l rs, out = Ok (l, rs) ->
                   l = 5%nat /\ deref h' l = VDict [("x", VStr "draft")]).
Proof.
  apply (untriggered_output_is_equal Sample.rt Examples.rules
           (Examples.engine false [] [Examples.label]) Examples.objects
           "writer" (Examples.allowing "draft") 2%nat).
  intros g [<-|[]] _ _. vm_compute. discriminate.
Defined.

(** ** What the output stage writes *)

Lemma refs_relocate (f : loc -> loc) (o : object) :
  refs (relocate f o) = map f (refs o).
Proof.
  induction o as [v|l|items IHo|items IHo|cls fields IHo]
    using object_induction; cbn [relocate refs]; try reflexivity.
  - induction IHo as [|[k x] r Hx _ IH]; [reflexivity|].
    cbn in *. now rewrite map_app, Hx, IH.
  - induction IHo as [|x r Hx _ IH]; [reflexivity|].
    cbn in *. now rewrite map_app, Hx, IH.
  - induction IHo as [|[k x] r Hx _ IH]; [reflexivity|].
    cbn in *. now rewrite map_app, Hx, IH.
Qed.

Lemma content_app_l (h more : store) (a : loc) :
  (a < length h)%nat -> content (h ++ more)%list a = content h a.
Proof.
  intros Ha. unfold content, store, loc in *. now rewrite lookup_app_l.
Qed.

Lemma content_alloc (h : store) (v : value) (a : loc) :
  content (h ++ [Plain v])%list a
  = if (a <? length h)%nat then content h a
    else if Nat.eqb a (length h) then Plain v else Plain VNone.
Proof.
  destruct (a <? length h)%nat eqn:Ha.
  - apply Nat.ltb_lt in Ha. now apply content_app_l.
  - apply Nat.ltb_ge in Ha. unfold content, store, loc in *.
    destruct (Nat.eqb a (length h)) eqn:E.
    + apply Nat.eqb_eq in E. subst a. now rewrite list_lookup_middle.
    + apply Nat.eqb_neq in E. rewrite lookup_ge_None_2; [reflexivity|].
      rewrite length_app. cbn. lia.
Qed.

(** The footprint of a remediation, for a set [U] of objects that holds
    what its objects hold, the object the remediation is given, the
    fallback object and every object still to come: the objects that are
    not in [U] stay as they are, [U] still holds what its objects hold, and
    the object returned is in [U]. *)
Lemma apply_truncate_region (U : loc -> Prop) (h : store) (l : loc)
  (g : GuardrailConfig) (r : GuardrailResult) :
  (forall a, U a -> Forall U (refs (content h a))) ->
  U l -> (forall a, (length h <= a)%nat -> U a) ->
  let '(h', _, out) := _apply_truncate h l g r in
  (length h <= length h')%nat
  /\ (forall a, U a -> Forall U (refs (content h' a)))
  /\ (forall a, ~ U a -> h' !! a = h !! a)
  /\ (forall l', out = Ok l' -> U l').
Proof.
  intros Hclosed Hl Hfresh. unfold _apply_truncate, alloc.
  assert (Hsame : forall (r0 : GuardrailResult) (out : result loc),
             (forall l', out = Ok l' -> U l') ->
             let '(h', _, out) := (h, r0, out) in
             (length h <= length h')%nat
             /\ (forall a, U a -> Forall U (refs (content h' a)))
             /\ (forall a, ~ U a -> h' !! a = h !! a)
             /\ (forall l', out = Ok l' -> U l')).
  { intros r0 out Hout. repeat split; auto. }
  assert (Hok : forall l', @Ok loc l = Ok l' -> U l') by now intros l' [= <-].
  destruct (cfg_truncate_to g) as [n|]; [|exact (Hsame r _ Hok)].
  assert (Hnew : forall (s : string) (r0 : GuardrailResult),
             let '(h', _, out) :=
               ((h ++ [Plain (VStr s)])%list, r0, @Ok loc (length h)) in
             (length h <= length h')%nat
             /\ (forall a, U a -> Forall U (refs (content h' a)))
             /\ (forall a, ~ U a -> h' !! a = h !! a)
             /\ (forall l', out = Ok l' -> U l')).
  { intros s r0. split; [rewrite length_app; lia|]. split; [|split].
    - intros a Ha. rewrite content_alloc.
      destruct (a <? length h)%nat; [now apply Hclosed|].
      destruct (Nat.eqb a (length h)); constructor.
    - intros a Ha. unfold store, loc in *.
      destruct (Nat.lt_ge_cases a (length h)) as [Hlt|Hge].
      + now rewrite lookup_app_l.
      + exfalso. apply Ha. now apply Hfresh.
    - intros l' [= <-]. now apply Hfresh. }
  destruct (_extract_field_from_rule _ _) as [path|];
    destruct (deref h l) eqn:Hd;
    try exact (Hsame r _ Hok);
    try exact (Hnew _ (set_detail
                         (set_detail r "original_length" (VInt (PyStr.len s)))
                         "truncated_to" (VInt n))).
  match goal with
  | |- context [_get_nested ?a ?b] => destruct (_get_nested a b)
  end; try exact (Hsame r _ Hok).
  match goal with
  | |- context [set_nested_at ?a ?b ?c ?d] =>
      destruct (set_nested_at a b c d) as [h'|e] eqn:Hset
  end.
  - pose proof (fun Hn => set_nested_at_region U h h' l path _ Hclosed Hn Hl
                            Hset) as Hreg.
    destruct Hreg as (Hlen & Hc & Hkeep); [constructor|].
    repeat split; auto. lia.
  - repeat split; auto. intros l' H. discriminate H.
Qed.

Lemma apply_fallback_region (U : loc -> Prop) (h : store) (l : loc)
  (g : GuardrailConfig) (r : GuardrailResult) :
  (forall a, U a -> Forall U (refs (content h a))) ->
  U l -> U (cfg_fallback_value g) ->
  let '(h', _, out) := _apply_fallback h l g r in
  (length h <= length h')%nat
  /\ (forall a, U a -> Forall U (refs (content h' a)))
  /\ (forall a, ~ U a -> h' !! a = h !! a)
  /\ (forall l', out = Ok l' -> U l').
Proof.
  intros Hclosed Hl Hfb. unfold _apply_fallback.
  assert (Hroot : forall r0 : GuardrailResult,
             let '(h', _, out) := (h, r0, @Ok loc (cfg_fallback_value g)) in
             (length h <= length h')%nat
             /\ (forall a, U a -> Forall U (refs (content h' a)))
             /\ (forall a, ~ U a -> h' !! a = h !! a)
             /\ (forall l', out = Ok l' -> U l')).
  { intros r0. repeat split; auto. now intros l' [= <-]. }
  destruct (_extract_field_from_rule _ _) as [path|];
    destruct (deref h l) eqn:Hd; try exact (Hroot r).
  match goal with
  | |- context [set_nested_at ?a ?b ?c ?d] =>
      destruct (set_nested_at a b c d) as [h'|e] eqn:Hset
  end.
  - pose proof (fun Hn => set_nested_at_region U h h' l path _ Hclosed Hn Hl
                            Hset) as Hreg.
    destruct Hreg as (Hlen & Hc & Hkeep);
      [cbn; apply List.Forall_cons; [exact Hfb|constructor]|].
    repeat split; auto; [lia|]. now intros l' [= <-].
  - repeat split; auto. intros l' H. discriminate H.
Qed.

Section Frame.

Variable rt : runtime.
Variable _rules : gmap string rule_fn.

(** The loop of [check_output] writes into the objects of a set [U] that
    holds the object the loop works on, the fallback objects of the
    guardrails still to run, the objects these hold and every object still
    to come: it leaves the other objects as they are. *)
Lemma check_output_loop_region (U : loc -> Prop) (request : value)
  (guardrails : list GuardrailConfig) :
  (forall g, In g guardrails -> U (cfg_fallback_value g)) ->
  forall (self : GuardrailEngine) (h : store) (l : loc)
         (results : list GuardrailResult),
    (forall a, U a -> Forall U (refs (content h a))) ->
    U l -> (forall a, (length h <= a)%nat -> U a) ->
    let '(_, h', _) :=
      check_output_loop rt _rules self h request l guardrails results in
    (length h <= length h')%nat /\ (forall a, ~ U a -> h' !! a = h !! a).
Proof.
  induction guardrails as [|g rest IH]; intros Hfb self h l results Hclosed Hl Hfresh.
  - cbn. auto.
  - assert (Hrest : forall g', In g' rest -> U (cfg_fallback_value g')).
    { intros g' Hin. apply Hfb. now right. }
    specialize (IH Hrest).
    cbn [check_output_loop].
    destruct (cfg_enabled g); cbn [negb]; [|now apply IH].
    destruct (_evaluate_guardrail rt _rules self g _) as [r|e]; [|auto].
    cbv zeta.
    assert (Hstep : forall step : store * GuardrailResult * result loc,
               (let '(h', _, out) := step in
                (length h <= length h')%nat
                /\ (forall a, U a -> Forall U (refs (content h' a)))
                /\ (forall a, ~ U a -> h' !! a = h !! a)
                /\ (forall l', out = Ok l' -> U l')) ->
               let '(_, h', _) :=
                 (let '(h', r', out) := step in
                  match out with
                  | Ok l0 =>
                      check_output_loop rt _rules
                        (with_summary self (add_result (_summary self) r')) h'
                        request l0 rest (results ++ [r'])%list
                  | Raise e =>
                      (with_summary self (add_result (_summary self) r'), h',
                       Raise e)
                  end) in
               (length h <= length h')%nat
               /\ (forall a, ~ U a -> h' !! a = h !! a)).
    { intros [[h' r'] [l'|e]] (Hlen & Hc & Hkeep & Hout); [|auto].
      pose proof (IH (with_summary self (add_result (_summary self) r')) h' l'
                    (results ++ [r'])%list Hc (Hout l' eq_refl)
                    ltac:(intros a Ha; apply Hfresh; lia)) as Hrec.
      destruct (check_output_loop _ _ _ _ _ _ _ _) as [[s2 h2] o2].
      destruct Hrec as [Hlen2 Hkeep2]. split; [lia|].
      intros a Ha. rewrite (Hkeep2 a Ha). now apply Hkeep. }
    destruct (res_triggered r); [|now apply IH].
    destruct (res_response r) as [[| | |]|]; try (now apply IH).
    + auto.
    + apply Hstep. apply apply_fallback_region; auto. apply Hfb. now left.
    + apply Hstep. now apply apply_truncate_region.
Qed.

(** An output keeps its value through [check_output] when the objects it
    is made of are apart from those the fallback objects are made of:
    [kept] holds the output and what its objects hold, [shared] holds the
    fallback objects of the agent's output guardrails and what its objects
    hold, and no object is in both. *)
Theorem separate_output_is_preserved (self : GuardrailEngine) (h : store)
  (agent : string) (request : value) (output : loc) (kept shared : list loc) :
  In output kept ->
  (forall l, In l kept ->
             (l < length h)%nat
             /\ Forall (fun a => In a kept) (refs (content h l))) ->
  (forall g, In g (_get_guardrails self agent "output") ->
             In (cfg_fallback_value g) shared) ->
  (forall l, In l shared -> Forall (fun a => In a shared) (refs (content h l))) ->
  (forall l, In l kept -> ~ In l shared) ->
  let '(_, h', _) := check_output rt _rules self h agent request output in
  deref h' output = deref h output.
Proof.
  intros Hout Hkept Hfb Hshared Hapart. unfold check_output, deepcopy.
  set (n := length h).
  set (U := fun a : loc => In a shared \/ (n <= a)%nat).
  pose proof (check_output_loop_region U request
                (_get_guardrails self agent "output")
                ltac:(intros g Hg; left; now apply Hfb) self
                (h ++ map (relocate (Nat.add n)) h)%list (n + output)%nat [])
    as Hloop.
  destruct (check_output_loop _ _ _ _ _ _ _ _) as [[self' h'] out].
  destruct Hloop as [Hlen Hkeep].
  - intros a Ha.
    destruct (Nat.lt_ge_cases a n) as [Hlt|Hge].
    + rewrite content_app_l by exact Hlt.
      destruct Ha as [Ha|Ha]; [|lia].
      eapply Forall_impl; [apply (Hshared a Ha)|]. intros x Hx. now left.
    + unfold content, store, loc in *.
      rewrite lookup_app_r by exact Hge. rewrite list_lookup_fmap.
      destruct (h !! (a - length h)%nat) as [c|]; cbn; [|constructor].
      assert (Hc : Forall U (refs (relocate (Nat.add n) c))).
      { rewrite refs_relocate. apply Forall_forall. intros x Hx.
        apply list_elem_of_In, in_map_iff in Hx as (y & <- & _).
        right. lia. }
      destruct c; cbn [relocate] in *; try exact Hc. constructor.
  - right. lia.
  - intros a Ha. right. rewrite length_app, length_map in Ha. fold n in Ha. lia.
  - unfold deref.
    apply (view_region (fun a => In a kept) h h').
    + intros l Hl. destruct (Hkept l Hl) as [Hlt Hrefs].
      split; [exact Hlt|]. split; [|exact Hrefs].
      rewrite Hkeep.
      * unfold store, loc in *. now rewrite lookup_app_l.
      * intros [Hs|Hge]; [now apply (Hapart l Hl)|fold n in Hlt; lia].
    + rewrite length_app in Hlen. lia.
    + cbn. now constructor.
Qed.

End Frame.

Lemma separate_output_is_preserved_witness :
  let '(_, h', _) :=
    check_output Sample.rt Examples.rules
      (Examples.engine false [] [Cases.outer; Cases.inner])
      Cases.apart_objects "writer" (Examples.allowing "other") 2%nat in
  deref h' 2%nat = VDict [("x", VDict [("y", VStr "abc")])].
Proof.
  apply (separate_output_is_preserved Sample.rt Examples.rules
           (Examples.engine false [] [Cases.outer; Cases.inner])
           Cases.apart_objects "writer" (Examples.allowing "other") 2%nat
           [2; 3]%nat [0; 1]%nat).
  - now left.
  - intros l [<-|[<-|[]]]; (split; [cbn; lia|]); cbn;
      repeat (apply List.Forall_cons || apply List.Forall_nil); cbn; auto.
  - intros g [<-|[<-|[]]]; cbn; auto.
  - intros l [<-|[<-|[]]]; cbn; constructor.
  - intros l [<-|[<-|[]]] [H|[H|[]]]; discriminate.
Defined.

(** An output that holds the fallback object of a guardrail, as the output
    an earlier call returned does: [check_output] copies it, the first
    guardrail puts the fallback object itself into the copy, the second
    writes through the copy into that object, and the output the caller
    gave, [{"x": {"y": "abc"}}] before the call, is [{"x": {"y": "Z"}}]
    after it, as is the fallback object the configuration holds. *)
Example check_output_writes_through_shared_fallback :
  let '(_, h', out) :=
    check_output Sample.rt Examples.rules
      (Examples.engine false [] [Cases.outer; Cases.inner])
      Cases.shared_objects "writer" (Examples.allowing "other") 2%nat in
  deref Cases.shared_objects 2%nat = VDict [("x", VDict [("y", VStr "abc")])]
  /\ deref h' 2%nat = VDict [("x", VDict [("y", VStr "Z")])]
  /\ deref h' 0%nat = VDict [("y", VStr "Z")]
  /\ match out with
     | Ok (l, _) =>
         l = 5%nat /\ deref h' l = VDict [("x", VDict [("y", VStr "Z")])]
     | Raise _ => False
     end.
Proof.
  vm_compute. repeat split.
Qed.

(** ** The stages as loops *)

Section Stages.

Variable rt : runtime.
Variable _rules : gmap string rule_fn.

Lemma check_input_loop_enabled (request : value)
  (guardrails : list GuardrailConfig) :
  forall self results,
    check_input_loop rt _rules self request guardrails results
    = check_input_loop rt _rules self request
        (List.filter cfg_enabled guardrails) results.
Proof.
  induction guardrails as [|g rest IH]; intros self results; [reflexivity|].
  cbn [List.filter]. destruct (cfg_enabled g) eqn:Hen.
  - cbn [check_input_loop]. rewrite Hen. cbn [negb].
    destruct (_evaluate_guardrail _ _ _ _ _); [|reflexivity].
    destruct (is_block _); [reflexivity|]. apply IH.
  - cbn [check_input_loop]. rewrite Hen. cbn [negb]. apply IH.
Qed.

Lemma check_behavioral_loop_enabled (ctx : GuardrailContext)
  (guardrails : list GuardrailConfig) :
  forall self results,
    check_behavioral_loop rt _rules self ctx guardrails results
    = check_behavioral_loop rt _rules self ctx
        (List.filter cfg_enabled guardrails) results.
Proof.
  induction guardrails as [|g rest IH]; intros self results; [reflexivity|].
  cbn [List.filter]. destruct (cfg_enabled g) eqn:Hen.
  - cbn [check_behavioral_loop]. rewrite Hen. cbn [negb].
    destruct (_evaluate_guardrail _ _ _ _ _); [|reflexivity].
    cbv zeta. destruct (is_block _); [reflexivity|]. apply IH.
  - cbn [check_behavioral_loop]. rewrite Hen. cbn [negb]. apply IH.
Qed.

Lemma check_output_loop_enabled (request : value)
  (guardrails : list GuardrailConfig) :
  forall self h output results,
    check_output_loop rt _rules self h request output guardrails results
    = check_output_loop rt _rules self h request output
        (List.filter cfg_enabled guardrails) results.
Proof.
  induction guardrails as [|g rest IH]; intros self h output results;
    [reflexivity|].
  cbn [List.filter]. destruct (cfg_enabled g) eqn:Hen.
  - cbn [check_output_loop]. rewrite Hen. cbn [negb].
    destruct (_evaluate_guardrail _ _ _ _ _) as [r|e]; [|reflexivity].
    cbv zeta.
    destruct (res_triggered r); [|apply IH].
    destruct (res_response r) as [[| | |]|]; try apply IH; try reflexivity.
    + destruct (_apply_fallback h output g r) as [[h' r'] [l|e]];
        [apply IH|reflexivity].
    + destruct (_apply_truncate h output g r) as [[h' r'] [l|e]];
        [apply IH|reflexivity].
  - cbn [check_output_loop]. rewrite Hen. cbn [negb]. apply IH.
Qed.

End Stages.

(** ** The input stage, guardrail by guardrail *)

Section InputRuns.

Variable rt : runtime.
Variable _rules : gmap string rule_fn.

Lemma evaluate_guardrail_summary (self : GuardrailEngine) (s : GuardrailSummary)
  (g : GuardrailConfig) (context : value) :
  _evaluate_guardrail rt _rules (with_summary self s) g context
  = _evaluate_guardrail rt _rules self g context.
Proof.
  reflexivity.
Qed.

Lemma with_summary_twice (self : GuardrailEngine) (s t : GuardrailSummary) :
  with_summary (with_summary self s) t = with_summary self t.
Proof.
  reflexivity.
Qed.

Lemma with_summary_same (self : GuardrailEngine) :
  with_summary self (_summary self) = self.
Proof.
  now destruct self.
Qed.

(** Guardrails that evaluate to results that do not block are run through
    in order. *)
Lemma check_input_loop_prefix (self : GuardrailEngine) (request : value)
  (more : list GuardrailConfig) (pre : list GuardrailConfig)
  (rs : list GuardrailResult) :
  Forall2 (fun g r =>
             cfg_enabled g = true
             /\ _evaluate_guardrail rt _rules self g
                  (VDict [("request", request)]) = Ok r
             /\ is_block r = false) pre rs ->
  forall s results,
    check_input_loop rt _rules (with_summary self s) request (pre ++ more) results
    = check_input_loop rt _rules (with_summary self (add_results s rs)) request
        more (results ++ rs)%list.
Proof.
  induction 1 as [|g r pre rs (Hen & Hev & Hnb) _ IH]; intros s results.
  - cbn. now rewrite app_nil_r.
  - cbn [app check_input_loop]. rewrite Hen. cbn [negb].
    rewrite evaluate_guardrail_summary, Hev, Hnb.
    rewrite with_summary_twice, IH. cbn [_summary with_summary].
    now rewrite <- app_assoc.
Qed.

(** The input stage runs the enabled guardrails of the agent in
    configuration order.  While they evaluate to results that do not block,
    it goes on; at the end it returns their results, one for each enabled
    guardrail, and the summary has gained exactly these.  At the first
    guardrail whose result blocks it raises the block error of that
    guardrail, whose status is 400, after adding the result to the summary;
    at the first whose evaluation raises it raises that exception, the
    summary holding the results before it.  What follows is not run.  A
    response other than block has no effect in this stage. *)
Theorem check_input_runs_in_order (self : GuardrailEngine) (agent : string)
  (request : value) (pre : list GuardrailConfig) (rs : list GuardrailResult) :
  let context := VDict [("request", request)] in
  let enabled := List.filter cfg_enabled (_get_guardrails self agent "input") in
  let summary := add_results (_summary self) rs in
  Forall2 (fun g r =>
             _evaluate_guardrail rt _rules self g context = Ok r
             /\ is_block r = false) pre rs ->
  let after := check_input rt _rules self agent request in
  (enabled = pre ->
   after = (with_summary self summary, Ok rs)
   /\ _summary (fst after) = add_results (_summary self) rs
   /\ fail_open (fst after) = fail_open self
   /\ config (fst after) = config self)
  /\ (forall g post r,
      enabled = (pre ++ g :: post)%list ->
      _evaluate_guardrail rt _rules self g context = Ok r ->
      is_block r = true ->
      after
      = (with_summary self (add_result summary r),
         Raise (GuardrailBlockError (cfg_name g) "input" (block_message g)
                  (res_details r)))
      /\ _summary (fst after)
         = add_result (add_results (_summary self) rs) r
      /\ to_http_status "input" = 400)
  /\ (forall g post e,
      enabled = (pre ++ g :: post)%list ->
      _evaluate_guardrail rt _rules self g context = Raise e ->
      after = (with_summary self summary, Raise e)
      /\ _summary (fst after) = add_results (_summary self) rs).
Proof.
  intros context enabled summary Hpre after. subst context after.
  assert (Hen : Forall (fun g => cfg_enabled g = true) enabled).
  { apply List.Forall_forall. intros g Hin.
    now apply List.filter_In in Hin as [_ Hin]. }
  assert (Hrun : forall more,
             enabled = (pre ++ more)%list ->
             check_input rt _rules self agent request
             = check_input_loop rt _rules (with_summary self summary) request
                 more rs).
  { intros more Heq. unfold check_input.
    rewrite check_input_loop_enabled. fold enabled. rewrite Heq.
    rewrite <- (with_summary_same self) at 1.
    rewrite (check_input_loop_prefix self request more pre rs); [reflexivity|].
    rewrite Heq in Hen. apply List.Forall_app in Hen as [Hen _].
    clear Heq. induction Hpre as [|g r pre rs [Hev Hnb] _ IH]; constructor.
    - inversion Hen; subst. repeat split; assumption.
    - apply IH. now inversion Hen. }
  split; [|split].
  - intros Heq. rewrite (Hrun []) by now rewrite app_nil_r.
    cbn [check_input_loop]. repeat split.
  - intros g post r Heq Hev Hb.
    rewrite (Hrun (g :: post) Heq). cbn [check_input_loop].
    rewrite Heq in Hen. apply List.Forall_app in Hen as [_ Hen].
    inversion Hen as [|? ? Hg _]; subst. rewrite Hg. cbn [negb].
    rewrite evaluate_guardrail_summary, Hev, Hb. repeat split.
  - intros g post e Heq Hev.
    rewrite (Hrun (g :: post) Heq). cbn [check_input_loop].
    rewrite Heq in Hen. apply List.Forall_app in Hen as [_ Hen].
    inversion Hen as [|? ? Hg _]; subst. rewrite Hg. cbn [negb].
    rewrite evaluate_guardrail_summary, Hev. repeat split.
Qed.

End InputRuns.

(** ** The summary *)

Lemma add_results_app (s : GuardrailSummary) (rs more : list GuardrailResult) :
  add_results s (rs ++ more) = add_results (add_results s rs) more.
Proof.
  unfold add_results. apply fold_left_app.
Qed.

Lemma add_results_fields (rs : list GuardrailResult) :
  forall s,
    sum_input (add_results s rs) = (sum_input s ++ of_stage Input rs)%list
    /\ sum_behavioral (add_results s rs)
       = (sum_behavioral s ++ of_stage Behavioral rs)%list
    /\ sum_output (add_results s rs) = (sum_output s ++ of_stage Output rs)%list
    /\ sum_blocked (add_results s rs) = sum_blocked s || existsb is_block rs
    /\ sum_stage_blocked (add_results s rs) = last_block (sum_stage_blocked s) rs.
Proof.
  induction rs as [|r rs IH]; intros s.
  - cbn. rewrite !app_nil_r, orb_false_r. repeat split.
  - change (add_results s (r :: rs)) with (add_results (add_result s r) rs).
    destruct (IH (add_result s r)) as (Hi & Hb & Ho & Hbl & Hst).
    rewrite Hi, Hb, Ho, Hbl, Hst. unfold of_stage.
    cbn [List.filter existsb last_block add_result sum_input sum_behavioral
           sum_output sum_blocked sum_stage_blocked].
    destruct (res_stage r); cbn [stage_eqb]; rewrite <- ?app_assoc;
      destruct (is_block r); cbn [orb]; rewrite ?orb_true_r; repeat split.
Qed.

(** The summary keeps the results of each stage apart and in the order
    they were added, whatever stage method added them; it is blocked exactly
    when it was before or one of the results blocks, and the stage it names
    is that of the last blocking result.  [reset] empties it. *)
Theorem summary_partitions_results (s : GuardrailSummary)
  (rs : list GuardrailResult) :
  sum_input (add_results s rs) = (sum_input s ++ of_stage Input rs)%list
  /\ sum_behavioral (add_results s rs)
     = (sum_behavioral s ++ of_stage Behavioral rs)%list
  /\ sum_output (add_results s rs) = (sum_output s ++ of_stage Output rs)%list
  /\ sum_blocked (add_results s rs) = sum_blocked s || existsb is_block rs
  /\ sum_stage_blocked (add_results s rs) = last_block (sum_stage_blocked s) rs
  /\ (forall self,
      get_summary (reset self)
      = VDict [("input", VList []); ("behavioral", VList []);
               ("output", VList []); ("blocked", VBool false);
               ("stage_blocked", VNone)]).
Proof.
  destruct (add_results_fields rs s) as (Hi & Hb & Ho & Hbl & Hst).
  repeat split; assumption.
Qed.

(** What [to_dict] reports of a result.  A result that is not
    triggered is reported by its name, stage, threat and flag only: its
    message and details are dropped, so a guardrail whose evaluation failed
    under fail-open is reported exactly like one that passed.  A triggered
    result also carries its response, its message when that is not empty and
    its details when there are any. *)
Theorem to_dict_drops_untriggered_fields :
  (forall r,
      res_triggered r = false ->
      result_to_dict r
      = VDict [("name", VStr (res_name r));
               ("stage", VStr (stage_text (res_stage r)));
               ("threat", VStr (threat_text (res_threat r)));
               ("triggered", VBool false)])
  /\ (forall g message,
      result_to_dict (error_result g message) = result_to_dict (passed_result g))
  /\ (forall r,
      res_triggered r = true ->
      exists rest,
        result_to_dict r
        = VDict ([("name", VStr (res_name r));
                  ("stage", VStr (stage_text (res_stage r)));
                  ("threat", VStr (threat_text (res_threat r)));
                  ("triggered", VBool true);
                  ("response", opt_response (res_response r))] ++ rest)%list
        /\ (dict_get "message" rest
            = match res_message r with
              | Some (String c m) => Some (VStr (String c m))
              | _ => None
              end)
        /\ (dict_get "details" rest
            = match res_details r with
              | [] => None
              | d => Some (VDict d)
              end)).
Proof.
  split; [|split].
  - intros r Hr. unfold result_to_dict. now rewrite Hr.
  - reflexivity.
  - intros r Hr. unfold result_to_dict. rewrite Hr.
    eexists. split; [reflexivity|].
    destruct (res_message r) as [[|c m]|]; destruct (res_details r);
      split; reflexivity.
Qed.

(** ** The behavioral stage *)

Section BehavioralRuns.

Variable rt : runtime.
Variable _rules : gmap string rule_fn.




(** *** The guards *)

Lemma check_behavioral_context (self : GuardrailEngine) (ctx : GuardrailContext)
  (tool_name : option string) :
  snd (fst (check_behavioral rt _rules self ctx tool_name))
  = match tool_name with
    | Some (String c name) => record_tool_call ctx (String c name)
    | _ => ctx
    end.
Proof.
  unfold check_behavioral. now destruct (check_behavioral_loop _ _ _ _ _ _).
Qed.

Lemma guard_enter_context (self : GuardrailEngine) (ctx : GuardrailContext)
  (op : guard_op) :
  snd (fst (guard_enter rt _rules self ctx op)) = ctx_run ctx (guard_effect op).
Proof.
  destruct op as [|[|c name]]; unfold guard_enter, iteration_enter, tool_call_enter;
    rewrite check_behavioral_context; reflexivity.
Qed.

Lemma ctx_run_app (ctx : GuardrailContext) (a b : list ctx_op) :
  ctx_run ctx (a ++ b) = ctx_run (ctx_run ctx a) b.
Proof.
  unfold ctx_run. apply fold_left_app.
Qed.

Lemma guard_run_context (ops : list guard_op) :
  forall self ctx,
    snd (fst (guard_run rt _rules self ctx ops))
    = ctx_run ctx (concat (map guard_effect ops))
    /\ length (snd (guard_run rt _rules self ctx ops)) = length ops.
Proof.
  induction ops as [|op ops IH]; intros self ctx; [split; reflexivity|].
  cbn [guard_run map concat]. rewrite ctx_run_app.
  pose proof (guard_enter_context self ctx op) as Hc.
  destruct (guard_enter rt _rules self ctx op) as [[self' ctx'] out].
  cbn [fst snd] in Hc. subst ctx'.
  destruct (IH self' (ctx_run ctx (guard_effect op))) as [Hctx Hlen].
  destruct (guard_run rt _rules self' _ ops) as [[self'' ctx''] outs].
  cbn [fst snd length] in *. now rewrite Hctx, Hlen.
Qed.

(** Entering the guards of an agent loop changes the context as the
    operations they stand for do, whether the checks pass, block or fail:
    an iteration guard increments the iteration counter before its check,
    a tool-call guard records its tool unless the name is empty.  From a
    fresh context the counters are the numbers of guards entered, and
    [tool_calls] lists the tool names in order. *)
Theorem guards_count_every_entry (self : GuardrailEngine)
  (ctx : GuardrailContext) (ops : list guard_op) :
  let effects := concat (map guard_effect ops) in
  let after := snd (fst (guard_run rt _rules self ctx ops)) in
  after = ctx_run ctx effects
  /\ length (snd (guard_run rt _rules self ctx ops)) = length ops
  /\ iteration_count after
     = iteration_count ctx + Z.of_nat (count_iterations effects)
  /\ tool_call_count after
     = tool_call_count ctx + Z.of_nat (count_tool_calls effects)
  /\ tool_calls after = (tool_calls ctx ++ recorded effects)%list.
Proof.
  intros effects after.
  destruct (guard_run_context ops self ctx) as [Hctx Hlen].
  fold effects in Hctx. fold after in Hctx.
  destruct (ctx_run_counts effects ctx) as (Ht & _ & Hi).
  rewrite Hctx. repeat split; try assumption.
  apply ctx_run_tool_calls.
Qed.

End BehavioralRuns.

(** ** Rule texts and the values they stand for *)

(** *** Integers *)

Lemma digit_char (k : Z) :
  0 <= k < 10 ->
  PyStr.is_digit (ascii_of_N (Z.to_N k + 48)) = true
  /\ PyStr.digit_val (ascii_of_N (Z.to_N k + 48)) = k.
Proof.
  intros Hk.
  assert (H : k = 0 \/ k = 1 \/ k = 2 \/ k = 3 \/ k = 4 \/ k = 5 \/ k = 6
              \/ k = 7 \/ k = 8 \/ k = 9) by lia.
  destruct H as [->|[->|[->|[->|[->|[->|[->|[->|[->| ->]]]]]]]]];
    split; reflexivity.
Qed.

Lemma pos_digits_S (fuel : nat) (n : Z) (acc : string) :
  pos_digits (S fuel) n acc
  = if n <? 10 then String (ascii_of_N (Z.to_N (n mod 10) + 48)) acc
    else pos_digits fuel (n / 10) (String (ascii_of_N (Z.to_N (n mod 10) + 48)) acc).
Proof.
  reflexivity.
Qed.

Lemma pos_digits_read (fuel : nat) :
  forall n s b,
    0 <= n < 10 ^ Z.of_nat (S fuel) ->
    PyStr.digits_from b 0 (pos_digits (S fuel) n s) = PyStr.digits_from true n s.
Proof.
  induction fuel as [|fuel IH]; intros n s b Hn;
    rewrite pos_digits_S;
    (destruct (digit_char (n mod 10)) as [Hd Hv];
      [apply Z.mod_pos_bound; lia|]);
    destruct (n <? 10) eqn:Hlt.
  - apply Z.ltb_lt in Hlt. rewrite Z.mod_small in Hd, Hv |- * by lia.
    cbn [PyStr.digits_from]. rewrite Hd, Hv. f_equal.
  - apply Z.ltb_ge in Hlt. change (10 ^ Z.of_nat 1) with 10 in Hn. lia.
  - apply Z.ltb_lt in Hlt. rewrite Z.mod_small in Hd, Hv |- * by lia.
    cbn [PyStr.digits_from]. rewrite Hd, Hv. f_equal.
  - apply Z.ltb_ge in Hlt. rewrite IH.
    + cbn [PyStr.digits_from]. rewrite Hd, Hv. f_equal.
      pose proof (Z.div_mod n 10). lia.
    + split; [apply Z.div_pos; lia|].
      apply Z.div_lt_upper_bound; [lia|].
      rewrite (Nat2Z.inj_succ (S fuel)), Z.pow_succ_r in Hn by lia. lia.
Qed.

Lemma pos_digits_all (fuel : nat) :
  forall n s,
    0 <= n -> all_chars PyStr.is_digit s = true ->
    all_chars PyStr.is_digit (pos_digits fuel n s) = true.
Proof.
  induction fuel as [|fuel IH]; intros n s Hn Hs; [exact Hs|].
  rewrite pos_digits_S.
  destruct (digit_char (n mod 10)) as [Hd _]; [apply Z.mod_pos_bound; lia|].
  destruct (n <? 10).
  - cbn [all_chars]. now rewrite Hd, Hs.
  - apply IH; [apply Z.div_pos; lia|]. cbn [all_chars]. now rewrite Hd, Hs.
Qed.

Lemma pos_digits_head (fuel : nat) :
  forall n s, exists c r, pos_digits (S fuel) n s = String c r.
Proof.
  induction fuel as [|fuel IH]; intros n s; rewrite pos_digits_S;
    destruct (n <? 10); eauto.
Qed.

Lemma log2_fuel (n : Z) :
  0 <= n -> n < 10 ^ Z.of_nat (Z.to_nat (Z.log2 n + 1)).
Proof.
  intros Hn. pose proof (Z.log2_nonneg n) as Hl.
  rewrite Z2Nat.id by lia.
  destruct (Z.eq_dec n 0) as [->|Hne]; [reflexivity|].
  destruct (Z.log2_spec n) as [_ Hub]; [lia|].
  rewrite <- Z.add_1_r in Hub.
  eapply Z.lt_le_trans; [exact Hub|].
  apply Z.pow_le_mono_l. lia.
Qed.

(** [str(n)] of an integer that is not negative: digits, which [int()]
    reads back. *)
Lemma str_of_int_digits (n : Z) :
  0 <= n ->
  all_chars PyStr.is_digit (str_of_int n) = true
  /\ (exists c r, str_of_int n = String c r)
  /\ PyStr.digits_from false 0 (str_of_int n) = Some n.
Proof.
  intros Hn. unfold str_of_int.
  replace (n <? 0) with false by (symmetry; apply Z.ltb_ge; lia).
  pose proof (log2_fuel n Hn) as Hfuel.
  destruct (Z.to_nat (Z.log2 n + 1)) as [|fuel] eqn:E.
  { pose proof (Z.log2_nonneg n). lia. }
  split; [|split].
  - now apply pos_digits_all.
  - apply pos_digits_head.
  - rewrite pos_digits_read by lia. reflexivity.
Qed.

Lemma digit_facts (c : ascii) :
  PyStr.is_digit c = true ->
  PyStr.is_space c = false
  /\ PyStr.lower_char c = c
  /\ Ascii.eqb c "." = false
  /\ is_plain_char c = true
  /\ Ascii.eqb c "n" = false /\ Ascii.eqb c "t" = false /\ Ascii.eqb c "f" = false
  /\ Ascii.eqb c "-" = false /\ Ascii.eqb c "+" = false.
Proof.
  destruct c as [[] [] [] [] [] [] [] []]; vm_compute; intros H;
    first [discriminate H | repeat split].
Qed.

Lemma lower_digits (s : string) :
  all_chars PyStr.is_digit s = true -> PyStr.lower s = s.
Proof.
  induction s as [|c s IH]; [reflexivity|].
  cbn. intros H. apply andb_true_iff in H as [Hc Hs].
  destruct (digit_facts c Hc) as (_ & -> & _). now rewrite (IH Hs).
Qed.

Lemma no_dot_in_digits (s : string) :
  all_chars PyStr.is_digit s = true -> PyStr.contains_char "." s = false.
Proof.
  induction s as [|c s IH]; [reflexivity|].
  cbn. intros H. apply andb_true_iff in H as [Hc Hs].
  destruct (digit_facts c Hc) as (_ & _ & -> & _). now rewrite (IH Hs).
Qed.

Lemma py_int_digits (c : ascii) (r : string) :
  PyStr.is_digit c = true ->
  PyStr.py_int (String c r)
  = PyStr.digits_from false 0 (String c r).
Proof.
  intros Hc. unfold PyStr.py_int.
  assert (Hs : PyStr.split_sign (String c r) = (false, String c r)).
  { destruct (digit_facts c Hc) as (_ & _ & _ & _ & _ & _ & _ & Hm & Hp).
    unfold PyStr.split_sign.
    destruct c as [[] [] [] [] [] [] [] []]; try reflexivity; discriminate. }
  rewrite Hs. now destruct (PyStr.digits_from _ _ _).
Qed.

(** The text of an integer that is not negative parses to that integer,
    when it has no more digits than [int()] converts. *)
Lemma parse_literal_int (rt : runtime) (n : Z) :
  0 <= n -> over_digit_limit rt (str_of_int n) = false ->
  _parse_literal rt (str_of_int n) = VInt n.
Proof.
  intros Hn Hlimit.
  destruct (str_of_int_digits n Hn) as (Hall & (c & r & Hcr) & Hread).
  rewrite parse_literal_unfold. unfold literal_body.
  assert (Hstrip : PyStr.strip (str_of_int n) = str_of_int n).
  { apply strip_no_space. revert Hall. apply all_chars_impl.
    intros x Hx. now destruct (digit_facts x Hx) as (-> & _). }
  rewrite Hstrip, (lower_digits _ Hall).
  assert (Hnum : parse_number rt (str_of_int n) = Some (VInt n)).
  { unfold parse_number, int_of_text. rewrite (no_dot_in_digits _ Hall), Hlimit.
    rewrite Hcr in Hall, Hread |- *. cbn in Hall.
    apply andb_true_iff in Hall as [Hc _].
    now rewrite (py_int_digits c r Hc), Hread. }
  rewrite Hnum. rewrite Hcr in Hall |- *. cbn in Hall.
  apply andb_true_iff in Hall as [Hc _].
  destruct (digit_facts c Hc) as (_ & _ & _ & _ & Hn' & Ht & Hf & _).
  rewrite !(eqb_first_char c) by assumption. reflexivity.
Qed.

(** *** Paths *)

Lemma path_char_facts (c : ascii) :
  is_path_char c = true ->
  PyStr.is_space c = false /\ is_plain_char c = true.
Proof.
  destruct c as [[] [] [] [] [] [] [] []]; vm_compute; intros H;
    first [discriminate H | repeat split].
Qed.

Lemma path_head_facts (c : ascii) :
  PyStr.is_word c = true -> PyStr.is_digit c = false ->
  is_path_char c = true
  /\ Ascii.eqb c "." = false
  /\ Ascii.eqb c squote = false /\ Ascii.eqb c dquote = false
  /\ Ascii.eqb c "[" = false
  /\ Ascii.eqb c "-" = false /\ Ascii.eqb c "+" = false.
Proof.
  destruct c as [[] [] [] [] [] [] [] []]; vm_compute; intros H H';
    first [discriminate H | discriminate H' | repeat split].
Qed.

Lemma lower_keeps_dot (s : string) :
  PyStr.contains_char "." s = true ->
  PyStr.contains_char "." (PyStr.lower s) = true.
Proof.
  induction s as [|c s IH]; [discriminate|].
  cbn. intros H. apply orb_true_iff in H as [H|H].
  - apply Ascii.eqb_eq in H. subst c. reflexivity.
  - rewrite (IH H). apply orb_true_r.
Qed.

Lemma read_decimal_path (c : ascii) (r : string) :
  PyStr.is_word c = true -> PyStr.is_digit c = false ->
  read_decimal (String c r) = None.
Proof.
  intros Hw Hd.
  destruct c as [[] [] [] [] [] [] [] []]; vm_compute in Hw, Hd;
    try discriminate; reflexivity.
Qed.

Lemma path_is_no_number (rt : runtime) (c : ascii) (r : string) :
  PyStr.is_word c = true -> PyStr.is_digit c = false ->
  PyStr.strip (String c r) = String c r ->
  parse_number rt (String c r) = None.
Proof.
  intros Hw Hd Hstrip.
  destruct (path_head_facts c Hw Hd) as (_ & Hdot & _ & _ & _ & Hm & Hp).
  assert (Hsign : PyStr.split_sign (String c r) = (false, String c r)).
  { unfold PyStr.split_sign.
    destruct c as [[] [] [] [] [] [] [] []]; try reflexivity; discriminate. }
  unfold parse_number.
  destruct (PyStr.contains_char "." (String c r)) eqn:Hc.
  - unfold float_of_text. rewrite Hstrip, Hsign.
    pose proof (lower_keeps_dot _ Hc) as Hl.
    assert (Hno : forall w, PyStr.contains_char "." w = false ->
                            String.eqb (PyStr.lower (String c r)) w = false).
    { intros w Hw'. destruct (String.eqb _ w) eqn:E; [|reflexivity].
      apply String.eqb_eq in E. rewrite E in Hl. congruence. }
    rewrite !Hno by reflexivity. cbn [orb].
    now rewrite (read_decimal_path c r Hw Hd).
  - unfold int_of_text, PyStr.py_int. rewrite Hsign.
    cbn [PyStr.digits_from]. rewrite Hd, andb_false_r. reflexivity.
Qed.

Lemma parse_literal_path (rt : runtime) (t : string) :
  is_path t = true ->
  _parse_literal rt t = path_marker t
  /\ PyStr.strip t = t
  /\ one_argument t = true
  /\ exists c r, t = String c r /\ PyStr.is_space c = false.
Proof.
  unfold is_path. intros H. apply andb_true_iff in H as [H Hkw].
  destruct t as [|c r]; [discriminate|].
  apply andb_true_iff in H as [H Hr]. apply andb_true_iff in H as [Hw Hd].
  apply negb_true_iff in Hd, Hkw.
  destruct (path_head_facts c Hw Hd) as (Hpc & _ & Hsq & Hdq & Hbr & _).
  assert (Hall : all_chars is_path_char (String c r) = true).
  { cbn. now rewrite Hpc, Hr. }
  assert (Hstrip : PyStr.strip (String c r) = String c r).
  { apply strip_no_space. revert Hall. apply all_chars_impl.
    intros x Hx. now destruct (path_char_facts x Hx) as (-> & _). }
  split; [|split; [exact Hstrip|split]].
  - rewrite parse_literal_unfold. unfold literal_body. rewrite Hstrip.
    unfold is_keyword in Hkw.
    apply orb_false_iff in Hkw as [Hkw K4]. apply orb_false_iff in Hkw as [Hkw K3].
    rewrite Hkw, K3, K4.
    rewrite (path_is_no_number rt c r Hw Hd Hstrip).
    unfold quoted, bracketed. cbn [PyStr.startswith].
    now rewrite Hsq, Hdq, Hbr.
  - apply plain_one_argument. revert Hall. apply all_chars_impl.
    intros x Hx. now destruct (path_char_facts x Hx) as (_ & ->).
  - exists c, r. split; [reflexivity|]. now apply word_not_space.
Qed.

(** *** Argument lists *)

Lemma strip_leading_space (sp : ascii) (s : string) :
  PyStr.is_space sp = true -> PyStr.strip (String sp s) = PyStr.strip s.
Proof.
  intros H. unfold PyStr.strip. cbn [PyStr.lstrip]. now rewrite H.
Qed.

Lemma tok_step_blank (sp : ascii) (st st' : tok_state) (c : ascii) :
  PyStr.is_space sp = true ->
  tok_blank sp st st' -> tok_blank sp (tok_step st c) (tok_step st' c).
Proof.
  intros Hsp (Ha & Hd & Hq & Hc).
  assert (Hstrip : PyStr.strip (tk_current st') = PyStr.strip (tk_current st)).
  { destruct Hc as [->| ->]; [reflexivity|now apply strip_leading_space]. }
  assert (Hpush : push (tk_current st') c = push (tk_current st) c
                  \/ push (tk_current st') c = String sp (push (tk_current st) c)).
  { destruct Hc as [->| ->]; [now left|now right]. }
  assert (Hblank : forall a d q x y,
             x = y \/ x = String sp y ->
             tok_blank sp {| tk_args := a; tk_current := y; tk_depth := d;
                             tk_in_string := q |}
               {| tk_args := a; tk_current := x; tk_depth := d;
                  tk_in_string := q |}).
  { intros a d q x y Hxy. unfold tok_blank. cbn. auto. }
  unfold tok_step. rewrite Ha, Hd, Hq, Hstrip.
  destruct (tk_in_string st) as [q|].
  - destruct (Ascii.eqb c q); apply Hblank, Hpush.
  - destruct (_ || _); [apply Hblank, Hpush|].
    destruct (Ascii.eqb c "["); [apply Hblank, Hpush|].
    destruct (Ascii.eqb c "]"); [apply Hblank, Hpush|].
    destruct (_ && _); apply Hblank; [now left|exact Hpush].
Qed.

Lemma tok_run_blank (sp : ascii) (s : string) :
  PyStr.is_space sp = true ->
  forall st st', tok_blank sp st st' ->
                 tok_blank sp (tok_run st s) (tok_run st' s).
Proof.
  intros Hsp. induction s as [|c s IH]; intros st st' H; [exact H|].
  cbn [tok_run]. apply IH. now apply tok_step_blank.
Qed.

Lemma tokenize_leading_space (sp : ascii) (s : string) :
  PyStr.is_space sp = true ->
  _tokenize_args (String sp s) = _tokenize_args s.
Proof.
  intros Hsp. rewrite !tokenize_args_unfold. cbv zeta.
  assert (H0 : tok_blank sp tok_start (tok_step tok_start sp)).
  { unfold tok_step, tok_start. cbn [tk_in_string tk_args tk_current tk_depth].
    destruct (_ || _) eqn:E0.
    { apply orb_true_iff in E0 as [E0|E0]; apply Ascii.eqb_eq in E0; subst sp;
        discriminate. }
    destruct (Ascii.eqb sp "[") eqn:E1.
    { apply Ascii.eqb_eq in E1; subst sp; discriminate. }
    destruct (Ascii.eqb sp "]") eqn:E2.
    { apply Ascii.eqb_eq in E2; subst sp; discriminate. }
    destruct (_ && _) eqn:E; [|unfold tok_blank; cbn; auto].
    apply andb_true_iff in E as [E _]. apply Ascii.eqb_eq in E. subst sp.
    discriminate. }
  cbn [tok_run].
  destruct (tok_run_blank sp s Hsp _ _ H0) as (Ha & _ & _ & Hc).
  rewrite Ha.
  assert (Hstrip : PyStr.strip (tk_current (tok_run (tok_step tok_start sp) s))
                   = PyStr.strip (tk_current (tok_run tok_start s))).
  { destruct Hc as [->| ->]; [reflexivity|now apply strip_leading_space]. }
  now rewrite Hstrip.
Qed.

Lemma is_argument_spec (a : string) :
  is_argument a = true ->
  one_argument a = true /\ PyStr.strip a = a /\ a <> "".
Proof.
  unfold is_argument. intros H.
  apply andb_true_iff in H as [H Hne]. apply andb_true_iff in H as [Ho Hs].
  apply String.eqb_eq in Hs. apply negb_true_iff, String.eqb_neq in Hne.
  auto.
Qed.

Lemma tokenize_joined (args : list string) :
  Forall (fun a => is_argument a = true) args ->
  _tokenize_args (str_join ", " args) = args.
Proof.
  induction 1 as [|a args Ha Hargs IH]; [reflexivity|].
  destruct (is_argument_spec a Ha) as (Ho & Hs & Hne).
  destruct (tokenize_args_at_comma_lemma a Ho) as [Hcomma Hone].
  destruct args as [|b args].
  - cbn [str_join]. rewrite Hone, Hs.
    apply String.eqb_neq in Hne. now rewrite Hne.
  - change (str_join ", " (a :: b :: args))
      with (a ++ String "," (String " " (str_join ", " (b :: args)))).
    rewrite Hcomma, Hs, (tokenize_leading_space " " _ eq_refl), IH.
    reflexivity.
Qed.

(** *** Calls *)

Lemma stripped_head (a : string) :
  PyStr.strip a = a -> a <> "" ->
  exists c r, a = String c r /\ PyStr.is_space c = false.
Proof.
  intros Hs Hne. destruct a as [|c r]; [congruence|].
  exists c, r. split; [reflexivity|].
  destruct (PyStr.is_space c) eqn:Hc; [|reflexivity].
  exfalso. unfold PyStr.strip in Hs. cbn [PyStr.lstrip] in Hs. rewrite Hc in Hs.
  pose proof (rstrip_length (PyStr.lstrip r)).
  pose proof (lstrip_length r).
  apply (f_equal String.length) in Hs. cbn [String.length] in Hs. lia.
Qed.

Lemma str_join_head (sep a : string) (rest : list string) :
  exists tail, str_join sep (a :: rest) = a ++ tail.
Proof.
  destruct rest as [|b rest].
  - exists "". cbn. now rewrite append_empty_r.
  - eexists. reflexivity.
Qed.

(** The argument text the function-call grammar finds in a call text. *)
Lemma func_match_call_text (func_name : string) (args : list string) :
  func_name <> "" -> all_chars PyStr.is_word func_name = true ->
  Forall (fun a => is_argument a = true) args ->
  PyStr.strip (call_text func_name args) = call_text func_name args
  /\ func_match (call_text func_name args)
     = Some (func_name, str_join ", " args).
Proof.
  intros Hne Hw Hargs.
  destruct (func_match_call func_name "" (str_join ", " args) Hne Hw eq_refl)
    as [Hstrip Hmatch].
  rewrite append_nil in Hstrip, Hmatch. unfold call_text.
  split; [exact Hstrip|]. rewrite Hmatch. do 2 f_equal.
  assert (Hl : PyStr.lstrip (str_join ", " args ++ ")")
               = str_join ", " args ++ ")").
  { destruct Hargs as [|a args Ha _]; [reflexivity|].
    destruct (is_argument_spec a Ha) as (_ & Hs & Hn).
    destruct (stripped_head a Hs Hn) as (c & r & -> & Hc).
    destruct (str_join_head ", " (String c r) args) as [tail ->].
    rewrite append_cons. now apply lstrip_nonspace. }
  rewrite Hl. apply drop_last_end.
Qed.

(** A call text evaluates to the registered function applied to the values
    its arguments stand for. *)
Lemma evaluate_call_text (rt : runtime) (_rules : gmap string rule_fn)
  (func_name : string) (rule_fn : rule_fn) (args : list string) (context : value) :
  _rules !! func_name = Some rule_fn ->
  func_name <> "" -> all_chars PyStr.is_word func_name = true ->
  Forall (fun a => is_argument a = true) args ->
  evaluate_rule rt _rules (call_text func_name args) context
  = as_parse_error func_name
      (rule_fn (map (fun a => operand rt a context) args)).
Proof.
  intros Hr Hne Hw Hargs. unfold evaluate_rule.
  destruct (func_match_call_text func_name args Hne Hw Hargs) as [-> ->].
  rewrite (evaluate_function_call rt _rules _ _ _ rule_fn Hr).
  now rewrite (tokenize_joined args Hargs).
Qed.

(** *** The arguments rule texts are written with *)

Lemma path_is_argument (rt : runtime) (t : string) :
  is_path t = true -> is_argument t = true.
Proof.
  intros H. destruct (parse_literal_path rt t H) as (_ & Hs & Ho & c & r & -> & _).
  unfold is_argument. rewrite Ho, Hs, String.eqb_refl. reflexivity.
Qed.

Lemma operand_of_path (rt : runtime) (t : string) (context : value) :
  is_path t = true -> operand rt t context = _get_nested_value rt context t.
Proof.
  intros H. destruct (parse_literal_path rt t H) as (Hp & Hs & _).
  rewrite <- Hs at 2. apply operand_path. now rewrite Hs.
Qed.

Lemma int_is_argument (n : Z) :
  0 <= n -> is_argument (str_of_int n) = true.
Proof.
  intros Hn. destruct (str_of_int_digits n Hn) as (Hall & (c & r & Hcr) & _).
  unfold is_argument.
  assert (Hplain : all_chars is_plain_char (str_of_int n) = true).
  { revert Hall. apply all_chars_impl. intros x Hx.
    now destruct (digit_facts x Hx) as (_ & _ & _ & -> & _). }
  assert (Hstrip : PyStr.strip (str_of_int n) = str_of_int n).
  { apply strip_no_space. revert Hall. apply all_chars_impl.
    intros x Hx. now destruct (digit_facts x Hx) as (-> & _). }
  rewrite (plain_one_argument _ Hplain), Hstrip, String.eqb_refl, Hcr.
  reflexivity.
Qed.

Lemma operand_of_int (rt : runtime) (n : Z) (context : value) :
  0 <= n -> over_digit_limit rt (str_of_int n) = false ->
  operand rt (str_of_int n) context = VInt n.
Proof.
  intros Hn Hl. unfold operand. now rewrite (parse_literal_int rt n Hn Hl).
Qed.

(** *** Lists of quoted words *)

Lemma quote_word_no_comma (w : string) :
  PyStr.contains_char "," w = false ->
  PyStr.contains_char "," (quote_word w) = false.
Proof.
  intros H. unfold quote_word. cbn [PyStr.contains_char].
  replace (Ascii.eqb squote ",") with false by reflexivity. cbn [orb].
  induction w as [|c w IH]; [reflexivity|].
  cbn in H. apply orb_false_iff in H as [Hc Hw].
  rewrite append_cons. cbn [PyStr.contains_char]. now rewrite Hc, (IH Hw).
Qed.

Lemma split_joined_words (w : string) (ws : list string) :
  Forall (fun w => PyStr.contains_char "," w = false) (w :: ws) ->
  PyStr.split "," (str_join ", " (map quote_word (w :: ws)))
  = quote_word w :: map (fun w => String " " (quote_word w)) ws.
Proof.
  revert w. induction ws as [|w' ws IH]; intros w Hall.
  - cbn [map str_join]. apply split_no_sep, quote_word_no_comma.
    now inversion Hall.
  - inversion Hall as [|? ? Hw Hrest]; subst.
    change (str_join ", " (map quote_word (w :: w' :: ws)))
      with (quote_word w
            ++ String "," (String " " (str_join ", " (map quote_word (w' :: ws))))).
    rewrite split_app, (split_no_sep _ _ (quote_word_no_comma w Hw)).
    cbn [app]. f_equal.
    assert (Hsp : forall s, PyStr.split "," (String " " s)
                            = match PyStr.split "," s with
                              | [] => [String " " ""]
                              | p :: ps => String " " p :: ps
                              end) by reflexivity.
    rewrite Hsp, (IH w' Hrest). reflexivity.
Qed.

Lemma joined_words_shape (w : string) (ws : list string) :
  exists s, str_join ", " (map quote_word (w :: ws))
            = String squote (s ++ String squote "").
Proof.
  revert w. induction ws as [|w' ws IH]; intros w.
  - exists w. reflexivity.
  - destruct (IH w') as [s Hs].
    change (str_join ", " (map quote_word (w :: w' :: ws)))
      with (quote_word w ++ ", " ++ str_join ", " (map quote_word (w' :: ws))).
    rewrite Hs. unfold quote_word.
    exists (w ++ String squote (", " ++ String squote s)).
    rewrite append_cons. f_equal. rewrite !append_assoc. reflexivity.
Qed.

(** A bracketed list of quoted words parses to the list of the words, when
    no word holds a comma. *)
Lemma parse_literal_list_text (rt : runtime) (ws : list string) :
  Forall (fun w => PyStr.contains_char "," w = false) ws ->
  _parse_literal rt (list_text ws) = VList (map VStr ws).
Proof.
  intros Hall. destruct ws as [|w ws]; [reflexivity|].
  destruct (joined_words_shape w ws) as [s Hshape].
  rewrite parse_literal_unfold. unfold literal_body, list_text.
  set (body := str_join ", " (map quote_word (w :: ws))) in *.
  rewrite (strip_fixed "[" "]" body eq_refl eq_refl).
  assert (Hnum : parse_number rt (String "[" (body ++ "]")) = None).
  { unfold parse_number, float_of_text, int_of_text.
    rewrite (strip_fixed "[" "]" body eq_refl eq_refl).
    destruct (PyStr.contains_char _ _); reflexivity. }
  rewrite Hnum.
  assert (Hb : bracketed (String "[" (body ++ "]")) = true).
  { unfold bracketed. rewrite <- append_cons, endswith_end. reflexivity. }
  replace (quoted (String "[" (body ++ "]"))) with false by reflexivity.
  rewrite Hb. cbn [PyStr.slice_1_m1]. rewrite drop_last_end.
  assert (Hstrip : PyStr.strip body = body).
  { rewrite Hshape. now apply strip_fixed. }
  rewrite Hstrip.
  replace (String.eqb body "") with false by now rewrite Hshape.
  cbn [PyStr.lower String.eqb Ascii.eqb PyStr.lower_char]. 
  replace (String.eqb (PyStr.lower (String "[" (body ++ "]"))) "none") with false
    by reflexivity.
  replace (String.eqb (PyStr.lower (String "[" (body ++ "]"))) "null") with false
    by reflexivity.
  replace (String.eqb (PyStr.lower (String "[" (body ++ "]"))) "true") with false
    by reflexivity.
  replace (String.eqb (PyStr.lower (String "[" (body ++ "]"))) "false") with false
    by reflexivity.
  cbn [orb]. f_equal. subst body. rewrite (split_joined_words w ws Hall).
  cbn [map]. f_equal.
  - unfold quote_word. rewrite strip_fixed by reflexivity.
    apply parse_literal_quoted. now left.
  - rewrite map_map. apply map_ext. intros x.
    rewrite (strip_leading_space " " _ eq_refl).
    unfold quote_word. rewrite strip_fixed by reflexivity.
    apply parse_literal_quoted. now left.
Qed.

Lemma list_text_is_argument (ws : list string) :
  Forall (fun w => PyStr.contains_char squote w = false) ws ->
  is_argument (list_text ws) = true.
Proof.
  intros H. unfold is_argument.
  rewrite (list_text_one_argument ws H). unfold list_text.
  rewrite (strip_fixed "[" "]" _ eq_refl eq_refl), String.eqb_refl.
  reflexivity.
Qed.

(** ** The builtin rules from their rule texts *)

(** *** Rule texts of the builtin rules *)

Lemma builtin_lookup (rt : runtime) :
  builtin_rules rt !! "max_length"
  = Some (call2 "max_length" "value" "limit" (max_length rt))
  /\ builtin_rules rt !! "min_length"
     = Some (call2 "min_length" "value" "limit" (min_length rt))
  /\ builtin_rules rt !! "valid_enum"
     = Some (call2 "valid_enum" "value" "allowed" valid_enum)
  /\ builtin_rules rt !! "required"
     = Some (call1 "required" "value" (fun v => Ok (required v)))
  /\ builtin_rules rt !! "max_tool_calls"
     = Some (call2 "max_tool_calls" "context" "limit" (max_tool_calls rt))
  /\ builtin_rules rt !! "max_iterations"
     = Some (call2 "max_iterations" "context" "limit" (max_iterations rt))
  /\ builtin_rules rt !! "allowed_tools"
     = Some (call2 "allowed_tools" "context" "allowed" (allowed_tools rt)).
Proof.
  repeat split.
Qed.

Lemma as_parse_error_ok (func_name : string) (b : bool) :
  as_parse_error func_name (Ok b) = Ok b.
Proof.
  reflexivity.
Qed.

Section RuleTexts.

Variable rt : runtime.

Lemma call2_text (func_name p1 p2 : string)
  (f : value -> value -> result bool) (a1 a2 : string) (context : value) :
  builtin_rules rt !! func_name = Some (call2 func_name p1 p2 f) ->
  func_name <> "" -> all_chars PyStr.is_word func_name = true ->
  is_argument a1 = true -> is_argument a2 = true ->
  evaluate_rule rt (builtin_rules rt) (call_text func_name [a1; a2]) context
  = as_parse_error func_name (f (operand rt a1 context) (operand rt a2 context)).
Proof.
  intros Hr Hne Hw H1 H2.
  rewrite (evaluate_call_text rt _ _ _ _ context Hr Hne Hw); [reflexivity|].
  apply List.Forall_cons; [exact H1|].
  apply List.Forall_cons; [exact H2|apply List.Forall_nil].
Qed.

Lemma max_length_text (path : string) (n : Z) (context : value) :
  is_path path = true -> 0 <= n -> over_digit_limit rt (str_of_int n) = false ->
  evaluate_rule rt (builtin_rules rt)
    (call_text "max_length" [path; str_of_int n]) context
  = as_parse_error "max_length"
      (max_length rt (_get_nested_value rt context path) (VInt n)).
Proof.
  intros Hp Hn Hl. destruct (builtin_lookup rt) as (Hr & _).
  rewrite (call2_text _ _ _ _ _ _ context Hr); try reflexivity;
    [|discriminate|now apply (path_is_argument rt)|now apply int_is_argument].
  now rewrite (operand_of_path rt path context Hp),
    (operand_of_int rt n context Hn Hl).
Qed.

Lemma min_length_text (path : string) (n : Z) (context : value) :
  is_path path = true -> 0 <= n -> over_digit_limit rt (str_of_int n) = false ->
  evaluate_rule rt (builtin_rules rt)
    (call_text "min_length" [path; str_of_int n]) context
  = as_parse_error "min_length"
      (min_length rt (_get_nested_value rt context path) (VInt n)).
Proof.
  intros Hp Hn Hl. destruct (builtin_lookup rt) as (_ & Hr & _).
  rewrite (call2_text _ _ _ _ _ _ context Hr); try reflexivity;
    [|discriminate|now apply (path_is_argument rt)|now apply int_is_argument].
  now rewrite (operand_of_path rt path context Hp),
    (operand_of_int rt n context Hn Hl).
Qed.

Lemma valid_enum_text (path : string) (ws : list string) (context : value) :
  is_path path = true ->
  Forall (fun w => PyStr.contains_char "," w = false) ws ->
  Forall (fun w => PyStr.contains_char squote w = false) ws ->
  evaluate_rule rt (builtin_rules rt)
    (call_text "valid_enum" [path; list_text ws]) context
  = Ok (existsb (py_eq (_get_nested_value rt context path)) (map VStr ws)).
Proof.
  intros Hp Hc Hq. destruct (builtin_lookup rt) as (_ & _ & Hr & _).
  rewrite (call2_text _ _ _ _ _ _ context Hr); try reflexivity;
    [|discriminate|now apply (path_is_argument rt)
     |now apply list_text_is_argument].
  rewrite (operand_of_path rt path context Hp).
  unfold operand. rewrite (parse_literal_list_text rt ws Hc). reflexivity.
Qed.

Lemma required_text (path : string) (context : value) :
  is_path path = true ->
  evaluate_rule rt (builtin_rules rt) (call_text "required" [path]) context
  = Ok (required (_get_nested_value rt context path)).
Proof.
  intros Hp. destruct (builtin_lookup rt) as (_ & _ & _ & Hr & _).
  rewrite (evaluate_call_text rt _ _ _ _ context Hr);
    [|discriminate|reflexivity|].
  - cbn [map call1]. now rewrite (operand_of_path rt path context Hp).
  - apply List.Forall_cons; [now apply (path_is_argument rt)|apply List.Forall_nil].
Qed.

(** What the rule texts of the builtin rules stand for.  With [v] the
    value the path resolves to in the context: the text
    [max_length(path, n)] is [max_length] of [v] and [n], true when [v] is
    [None] and, on a text, true exactly when it has at most [n] characters;
    [min_length(path, n)] is true on a text exactly when the stripped text
    has at least [n] characters, and false on [None];
    [valid_enum(path, ['a', 'b'])] is true exactly when [v] equals one of
    the words; [required(path)] is [required] of [v]. *)
Theorem builtin_rule_texts (path : string) (context : value) :
  is_path path = true ->
  let v := _get_nested_value rt context path in
  let eval text := evaluate_rule rt (builtin_rules rt) text context in
  (forall n,
      0 <= n -> over_digit_limit rt (str_of_int n) = false ->
      eval (call_text "max_length" [path; str_of_int n])
      = as_parse_error "max_length" (max_length rt v (VInt n))
      /\ (v = VNone -> eval (call_text "max_length" [path; str_of_int n]) = Ok true)
      /\ (forall s, v = VStr s ->
                    eval (call_text "max_length" [path; str_of_int n])
                    = Ok (PyStr.len s <=? n))
      /\ eval (call_text "min_length" [path; str_of_int n])
         = as_parse_error "min_length" (min_length rt v (VInt n))
      /\ (v = VNone -> eval (call_text "min_length" [path; str_of_int n]) = Ok false)
      /\ (forall s, v = VStr s ->
                    eval (call_text "min_length" [path; str_of_int n])
                    = Ok (n <=? PyStr.len (PyStr.strip s))))
  /\ (forall ws,
      Forall (fun w => PyStr.contains_char "," w = false) ws ->
      Forall (fun w => PyStr.contains_char squote w = false) ws ->
      eval (call_text "valid_enum" [path; list_text ws])
      = Ok (existsb (py_eq v) (map VStr ws))
      /\ (forall s, v = VStr s ->
                    eval (call_text "valid_enum" [path; list_text ws])
                    = Ok (existsb (String.eqb s) ws))
      /\ (v = VNone -> eval (call_text "valid_enum" [path; list_text ws]) = Ok false))
  /\ eval (call_text "required" [path]) = Ok (required v).
Proof.
  intros Hp v eval. subst eval. cbv beta. split; [|split].
  - intros n Hn Hl.
    rewrite (max_length_text path n context Hp Hn Hl),
      (min_length_text path n context Hp Hn Hl). fold v.
    split; [reflexivity|]. split; [now intros ->|]. split.
    { intros s ->. unfold max_length. cbn [is_none py_str bind].
      now rewrite py_order_ints, holds_le. }
    split; [reflexivity|]. split; [now intros ->|].
    intros s ->. unfold min_length. cbn [is_none py_str bind].
    now rewrite py_order_ints, holds_ge.
  - intros ws Hc Hq. rewrite (valid_enum_text path ws context Hp Hc Hq). fold v.
    split; [reflexivity|]. split.
    + intros s ->. now rewrite existsb_py_eq_text.
    + intros ->. f_equal. induction ws as [|w ws IH]; [reflexivity|].
      cbn [map existsb py_eq]. 
      inversion Hc; inversion Hq; subst. now apply IH.
  - now apply required_text.
Qed.

End RuleTexts.

(** ** Limits, from the rule text to the stage *)

Section Limits.

Variable rt : runtime.

(** An input guardrail whose rule is [max_length(path, n)] and whose
    response is block, alone in its stage: [check_input] returns its passed
    result when the path resolves to a text of at most [n] characters or to
    [None], a field that is absent included, and raises the block error of
    the guardrail, with status 400, when the text is longer. *)
Theorem input_length_limit (self : GuardrailEngine) (agent : string)
  (request : value) (g : GuardrailConfig) (path : string) (n : Z) :
  _get_guardrails self agent "input" = [g] ->
  cfg_enabled g = true ->
  cfg_response g = Block ->
  cfg_rule g = call_text "max_length" [path; str_of_int n] ->
  is_path path = true -> 0 <= n -> over_digit_limit rt (str_of_int n) = false ->
  let v := _get_nested_value rt (VDict [("request", request)]) path in
  let record r := with_summary self (add_result (_summary self) r) in
  let after := check_input rt (builtin_rules rt) self agent request in
  (v = VNone ->
   after = (record (passed_result g), Ok [passed_result g])
   /\ _summary (fst after) = add_result (_summary self) (passed_result g))
  /\ (forall s,
      v = VStr s ->
      after
      = (if PyStr.len s <=? n
         then (record (passed_result g), Ok [passed_result g])
         else (record (triggered_result g),
               Raise (GuardrailBlockError (cfg_name g) "input" (block_message g)
                        [])))
      /\ _summary (fst after)
         = add_result (_summary self)
             (if PyStr.len s <=? n then passed_result g
              else triggered_result g)
      /\ (cfg_stage g = Input ->
          sum_input (_summary (fst after))
          = (sum_input (_summary self)
               ++ [if PyStr.len s <=? n then passed_result g
                   else triggered_result g])%list
          /\ sum_blocked (_summary (fst after))
             = sum_blocked (_summary self) || negb (PyStr.len s <=? n))).
Proof.
  intros Hlist Hen Hresp Hrule Hp Hn Hl v record after. subst after.
  assert (Hrun : forall b,
             evaluate_rule rt (builtin_rules rt) (cfg_rule g)
               (VDict [("request", request)]) = Ok b ->
             check_input rt (builtin_rules rt) self agent request
             = if b then (record (passed_result g), Ok [passed_result g])
               else (record (triggered_result g),
                     Raise (GuardrailBlockError (cfg_name g) "input"
                              (block_message g) []))).
  { intros b Hev. unfold check_input. rewrite Hlist. cbn [check_input_loop].
    rewrite Hen. cbn [negb].
    rewrite (evaluate_guardrail_ok rt _ self g _ b Hev).
    destruct b; [reflexivity|].
    unfold is_block. cbn [triggered_result res_triggered res_response].
    now rewrite Hresp. }
  pose proof (max_length_text rt path n (VDict [("request", request)]) Hp Hn Hl)
    as Hev. fold v in Hev. rewrite <- Hrule in Hev.
  split.
  - intros Hv. rewrite (Hrun true) by now rewrite Hev, Hv. split; reflexivity.
  - intros s Hv.
    assert (Hb : evaluate_rule rt (builtin_rules rt) (cfg_rule g)
                   (VDict [("request", request)]) = Ok (PyStr.len s <=? n)).
    { rewrite Hev, Hv. unfold max_length. cbn [is_none py_str bind].
      now rewrite py_order_ints, holds_le. }
    rewrite (Hrun _ Hb). subst record.
    destruct (PyStr.len s <=? n); cbn [fst _summary with_summary negb].
    + split; [reflexivity|]. split; [reflexivity|]. intros Hstage.
      unfold add_result, is_block, passed_result. cbn. rewrite Hstage.
      now rewrite orb_false_r.
    + split; [reflexivity|]. split; [reflexivity|]. intros Hstage.
      unfold add_result, is_block, triggered_result. cbn.
      rewrite Hstage, Hresp. now rewrite orb_true_r.
Qed.

Lemma max_tool_calls_text (n : Z) (ctx : GuardrailContext) :
  0 <= n -> over_digit_limit rt (str_of_int n) = false ->
  evaluate_rule rt (builtin_rules rt)
    (call_text "max_tool_calls" ["context"; str_of_int n])
    (VDict [("context", context_value ctx); ("request", ctx_request ctx)])
  = Ok (tool_call_count ctx <=? n).
Proof.
  intros Hn Hl. destruct (builtin_lookup rt) as (_ & _ & _ & _ & Hr & _).
  rewrite (call2_text rt _ _ _ _ _ _ _ Hr); try reflexivity;
    [|discriminate|now apply int_is_argument].
  rewrite (operand_of_path rt "context" _ eq_refl),
    (operand_of_int rt n _ Hn Hl).
  change (_get_nested_value rt _ "context") with (context_value ctx).
  now rewrite max_tool_calls_context.
Qed.

Lemma check_behavioral_one (self : GuardrailEngine) (ctx : GuardrailContext)
  (tool_name : option string) (g : GuardrailConfig) (n : Z) :
  _get_guardrails self (ctx_agent ctx) "behavioral" = [g] ->
  cfg_enabled g = true ->
  cfg_response g = Block ->
  cfg_rule g = call_text "max_tool_calls" ["context"; str_of_int n] ->
  0 <= n -> over_digit_limit rt (str_of_int n) = false ->
  let ctx' := match tool_name with
              | Some (String c name) => record_tool_call ctx (String c name)
              | _ => ctx
              end in
  let passed := with_details (passed_result g) (behavioral_details rt ctx') in
  let blocked := with_details (triggered_result g) (behavioral_details rt ctx') in
  check_behavioral rt (builtin_rules rt) self ctx tool_name
  = if tool_call_count ctx' <=? n
    then (with_summary self (add_result (_summary self) passed), ctx', Ok [passed])
    else (with_summary self (add_result (_summary self) blocked), ctx',
          Raise (GuardrailBlockError (cfg_name g) "behavioral" (block_message g)
                   (behavioral_details rt ctx'))).
Proof.
  intros Hlist Hen Hresp Hrule Hn Hl ctx' passed blocked.
  assert (Hagent : ctx_agent ctx' = ctx_agent ctx).
  { subst ctx'. destruct tool_name as [[|c name]|]; reflexivity. }
  unfold check_behavioral. fold ctx'. rewrite Hagent, Hlist.
  cbn [check_behavioral_loop]. rewrite Hen. cbn [negb].
  pose proof (max_tool_calls_text n ctx' Hn Hl) as Hev. rewrite <- Hrule in Hev.
  rewrite (evaluate_guardrail_ok rt _ self g _ _ Hev). cbv zeta.
  destruct (tool_call_count ctx' <=? n); [reflexivity|].
  unfold is_block. cbn [triggered_result with_details res_triggered res_response].
  now rewrite Hresp.
Qed.

Lemma get_guardrails_summary (self : GuardrailEngine) (s : GuardrailSummary)
  (agent stage_name : string) :
  _get_guardrails (with_summary self s) agent stage_name
  = _get_guardrails self agent stage_name.
Proof.
  reflexivity.
Qed.

Lemma tool_call_limit_run (g : GuardrailConfig) (n : Z) (names : list string) :
  cfg_enabled g = true ->
  cfg_response g = Block ->
  cfg_rule g = call_text "max_tool_calls" ["context"; str_of_int n] ->
  0 <= n -> over_digit_limit rt (str_of_int n) = false ->
  Forall (fun name => name <> "") names ->
  forall self ctx,
    _get_guardrails self (ctx_agent ctx) "behavioral" = [g] ->
    let run := guard_run rt (builtin_rules rt) self ctx (map EnterToolCall names) in
    forall i out,
      snd run !! i = Some out ->
      if tool_call_count ctx + Z.of_nat i <? n
      then exists rs, out = Ok rs
      else exists details,
             out = Raise (GuardrailBlockError (cfg_name g) "behavioral"
                            (block_message g) details).
Proof.
  intros Hen Hresp Hrule Hn Hl. induction 1 as [|name names Hname _ IH];
    intros self ctx Hlist run i out Hout; subst run.
  - destruct i; discriminate.
  - destruct name as [|c name]; [congruence|].
    cbn [map guard_run] in Hout. unfold guard_enter, tool_call_enter in Hout.
    pose proof (check_behavioral_one self ctx (Some (String c name)) g n
                  Hlist Hen Hresp Hrule Hn Hl) as Hone. cbv zeta in Hone.
    set (ctx' := record_tool_call ctx (String c name)) in *.
    assert (Hcount : tool_call_count ctx' = tool_call_count ctx + 1) by reflexivity.
    destruct (check_behavioral rt (builtin_rules rt) self ctx
                (Some (String c name))) as [[self' ctx1] out1] eqn:Hcb.
    assert (Hstate : ctx1 = ctx'
                     /\ _get_guardrails self' (ctx_agent ctx') "behavioral" = [g]
                     /\ (if tool_call_count ctx' <=? n
                         then exists rs, out1 = Ok rs
                         else exists details,
                                out1 = Raise (GuardrailBlockError (cfg_name g)
                                                "behavioral" (block_message g)
                                                details))).
    { destruct (tool_call_count ctx' <=? n); injection Hone as -> -> ->;
        (split; [reflexivity|split; [exact Hlist|eauto]]). }
    destruct Hstate as (-> & Hlist' & Hout1).
    specialize (IH self' ctx' Hlist').
    destruct (guard_run rt (builtin_rules rt) self' ctx' (map EnterToolCall names))
      as [[self'' ctx''] outs] eqn:Hrun.
    cbn [snd] in *. destruct i as [|i].
    + cbn in Hout. injection Hout as <-. rewrite Z.add_0_r.
      replace (tool_call_count ctx <? n) with (tool_call_count ctx' <=? n);
        [exact Hout1|].
      rewrite Hcount. destruct (Z.leb_spec (tool_call_count ctx + 1) n);
        destruct (Z.ltb_spec (tool_call_count ctx) n); lia || reflexivity.
    + cbn in Hout. specialize (IH i out Hout). rewrite Hcount in IH.
      replace (tool_call_count ctx + Z.of_nat (S i))
        with (tool_call_count ctx + 1 + Z.of_nat i) by lia.
      exact IH.
Qed.

(** A behavioral guardrail whose rule is [max_tool_calls(context, n)]
    and whose response is block, alone in its stage.  A call of
    [check_behavioral] records the tool, then passes when the count of the
    context, the new call included, is at most [n], and raises the block
    error of the guardrail otherwise.  So in a loop that enters a tool-call
    guard for each tool on a fresh context, the first [n] guards pass and
    every later one raises the block error, while the context goes on
    counting the calls. *)
Theorem tool_call_limit_blocks_after_n (self : GuardrailEngine)
  (g : GuardrailConfig) (n : Z) :
  cfg_enabled g = true ->
  cfg_response g = Block ->
  cfg_rule g = call_text "max_tool_calls" ["context"; str_of_int n] ->
  0 <= n -> over_digit_limit rt (str_of_int n) = false ->
  (forall ctx tool_name,
      _get_guardrails self (ctx_agent ctx) "behavioral" = [g] ->
      let ctx' := match tool_name with
                  | Some (String c name) => record_tool_call ctx (String c name)
                  | _ => ctx
                  end in
      let passed := with_details (passed_result g) (behavioral_details rt ctx') in
      let blocked :=
        with_details (triggered_result g) (behavioral_details rt ctx') in
      check_behavioral rt (builtin_rules rt) self ctx tool_name
      = if tool_call_count ctx' <=? n
        then (with_summary self (add_result (_summary self) passed), ctx',
              Ok [passed])
        else (with_summary self (add_result (_summary self) blocked), ctx',
              Raise (GuardrailBlockError (cfg_name g) "behavioral"
                       (block_message g) (behavioral_details rt ctx'))))
  /\ (forall now agent request names,
      _get_guardrails self agent "behavioral" = [g] ->
      Forall (fun name => name <> "") names ->
      let run := guard_run rt (builtin_rules rt) self
                   (create_context now agent request)
                   (map EnterToolCall names) in
      tool_call_count (snd (fst run)) = Z.of_nat (length names)
      /\ length (snd run) = length names
      /\ forall i out,
           snd run !! i = Some out ->
           if Z.of_nat i <? n
           then exists rs, out = Ok rs
           else exists details,
                  out = Raise (GuardrailBlockError (cfg_name g) "behavioral"
                                 (block_message g) details)).
Proof.
  intros Hen Hresp Hrule Hn Hl. split.
  - intros ctx tool_name Hlist. now apply check_behavioral_one.
  - intros now agent request names Hlist Hnames run.
    destruct (guard_run_context rt (builtin_rules rt) (map EnterToolCall names)
                self (create_context now agent request)) as [Hctx Hlen].
    fold run in Hctx, Hlen. split; [|split].
    + rewrite Hctx.
      destruct (ctx_run_counts (concat (map guard_effect (map EnterToolCall names)))
                  (create_context now agent request)) as (Ht & _).
      rewrite Ht. cbn [create_context tool_call_count]. rewrite Z.add_0_l.
      f_equal. clear -Hnames. induction Hnames as [|name names Hname _ IH];
        [reflexivity|].
      destruct name as [|c name]; [congruence|].
      cbn [map concat guard_effect app count_tool_calls length]. now rewrite IH.
    + now rewrite Hlen, length_map.
    + intros i out Hout.
      apply (tool_call_limit_run g n names Hen Hresp Hrule Hn Hl Hnames self
               (create_context now agent request) Hlist i out Hout).
Qed.

End Limits.

(** ** The loader *)

Lemma py_eq_text (v : value) (t : string) :
  py_eq v (VStr t) = true -> v = VStr t.
Proof.
  destruct v as [|b|n|f|s|l|d|c fs|tn i]; cbn; try discriminate;
    try (destruct b; discriminate).
  intros H. apply String.eqb_eq in H. now subst.
Qed.

Lemma in_texts_spec (v : value) (texts : list string) :
  in_texts v texts = true -> exists t, In t texts /\ v = VStr t.
Proof.
  unfold in_texts. induction texts as [|t texts IH]; [discriminate|].
  cbn [map existsb]. intros H. apply orb_true_iff in H as [H|H].
  - exists t. split; [now left|now apply py_eq_text].
  - destruct (IH H) as (t' & Hin & ->). exists t'. split; [now right|reflexivity].
Qed.

Section LoaderFacts.

Variable rt : runtime.

Lemma check_required_dict (d : list (string * value)) (fields : list string) :
  check_required rt (VDict d) fields = Loaded tt ->
  Forall (fun f => exists v, dict_get f d = Some v) fields.
Proof.
  induction fields as [|f fields IH]; [constructor|].
  cbn [check_required py_in hashable lift load_bind].
  destruct (dict_get f d) as [v|] eqn:Hf.
  - intros H. constructor; [eauto|now apply IH].
  - destruct (py_str rt (VDict d)); discriminate.
Qed.

(** The first required field a mapping lacks is the one reported. *)
Lemma check_required_missing (d : list (string * value))
  (pre : list string) (f : string) (post : list string) (shown : string) :
  Forall (fun k => exists v, dict_get k d = Some v) pre ->
  dict_get f d = None ->
  py_str rt (VDict d) = Ok shown ->
  check_required rt (VDict d) (pre ++ f :: post)
  = Invalid (ConfigValidationError
               ("Guardrail missing required field '" ++ f ++ "': " ++ shown)).
Proof.
  intros Hpre Hf Hs. induction Hpre as [|k pre (v & Hk) _ IH].
  - cbn [app check_required py_in hashable lift load_bind]. now rewrite Hf, Hs.
  - cbn [app check_required py_in hashable lift load_bind]. now rewrite Hk.
Qed.

Lemma invalid_field_raises (what : string) (v : value) (valid : list string) :
  invalid_field rt what v valid <> Ok tt.
Proof.
  unfold invalid_field. destruct (py_str rt v); discriminate.
Qed.

Lemma post_init_ok (c : LoadedGuardrail) :
  __post_init__ rt c = Ok tt ->
  in_texts (ld_stage c) VALID_STAGES = true
  /\ in_texts (ld_threat c) VALID_THREATS = true
  /\ in_texts (ld_response c) VALID_RESPONSES = true
  /\ in_texts (ld_detection c) VALID_DETECTION = true
  /\ (ld_response c = VStr "truncate" -> ld_truncate_to c <> VNone).
Proof.
  unfold __post_init__.
  destruct (in_texts (ld_stage c) VALID_STAGES); cbn [negb];
    [|intros H; now apply invalid_field_raises in H].
  destruct (in_texts (ld_threat c) VALID_THREATS); cbn [negb];
    [|intros H; now apply invalid_field_raises in H].
  destruct (in_texts (ld_response c) VALID_RESPONSES); cbn [negb];
    [|intros H; now apply invalid_field_raises in H].
  destruct (in_texts (ld_detection c) VALID_DETECTION); cbn [negb];
    [|intros H; now apply invalid_field_raises in H].
  destruct (_ && _) eqn:E; [discriminate|]. intros _.
  repeat split. intros Hr Ht. rewrite Hr, Ht in E. discriminate.
Qed.

Lemma parse_guardrail_loaded (g_dict : value) (stage : string)
  (c : LoadedGuardrail) :
  _parse_guardrail rt g_dict stage = Loaded c ->
  exists d,
    g_dict = VDict d
    /\ dict_get "name" d = Some (ld_name c)
    /\ dict_get "threat" d = Some (ld_threat c)
    /\ dict_get "rule" d = Some (ld_rule c)
    /\ dict_get "response" d = Some (ld_response c)
    /\ ld_stage c = VStr stage
    /\ ld_detection c = default (VStr "deterministic") (dict_get "detection" d)
    /\ ld_enabled c = default (VBool true) (dict_get "enabled" d)
    /\ ld_error_message c = default VNone (dict_get "error_message" d)
    /\ ld_fallback_value c = default VNone (dict_get "fallback_value" d)
    /\ ld_truncate_to c = default VNone (dict_get "truncate_to" d)
    /\ ld_suffix c = default (VStr "...") (dict_get "suffix" d)
    /\ __post_init__ rt c = Ok tt.
Proof.
  unfold _parse_guardrail.
  destruct (check_required rt g_dict _) as [[]|e] eqn:Hreq; [|discriminate].
  cbn [load_bind].
  destruct g_dict as [| | | | | |d| |]; try discriminate.
  apply check_required_dict in Hreq.
  inversion Hreq as [|? ? (name & Hname) Hreq1]; subst.
  inversion Hreq1 as [|? ? (threat & Hthreat) Hreq2]; subst.
  inversion Hreq2 as [|? ? (rule & Hrule) Hreq3]; subst.
  inversion Hreq3 as [|? ? (response & Hresponse) _]; subst.
  cbn [py_getitem py_get]. rewrite Hthreat, Hresponse, Hname, Hrule.
  cbn [load_bind].
  destruct (negb (in_texts threat VALID_THREATS)).
  { unfold invalid_entry. destruct (py_str rt threat); cbn; [|discriminate].
    rewrite Hname. cbn. destruct (py_str rt name); discriminate. }
  destruct (negb (in_texts response VALID_RESPONSES)).
  { unfold invalid_entry. destruct (py_str rt response); cbn; [|discriminate].
    rewrite Hname. cbn. destruct (py_str rt name); discriminate. }
  cbv zeta.
  match goal with
  | |- context [__post_init__ rt ?g] => destruct (__post_init__ rt g) as [[]|e] eqn:Hpost
  end.
  - intros [= <-]. exists d. cbn. repeat split; try assumption;
      try (now destruct (dict_get _ d)).
  - destruct e; discriminate.
Qed.

Lemma check_required_no_key_error (g_dict : value) (fields : list string)
  (key : string) :
  check_required rt g_dict fields <> Invalid (KeyError key).
Proof.
  induction fields as [|f fields IH]; [discriminate|].
  cbn [check_required].
  destruct (py_in (VStr f) g_dict) as [[|]|e]; cbn [lift load_bind];
    [exact IH| |discriminate].
  destruct (py_str rt g_dict); discriminate.
Qed.

Lemma invalid_entry_no_key_error (what : string) (v g_dict : value)
  (valid : list string) (key : string) :
  invalid_entry rt what v g_dict valid <> Invalid (KeyError key).
Proof.
  unfold invalid_entry.
  destruct (py_str rt v); cbn [lift load_bind]; [|discriminate].
  destruct g_dict; cbn [py_get load_bind]; try discriminate.
  destruct (py_str rt _); discriminate.
Qed.

Lemma parse_guardrail_no_key_error (g_dict : value) (stage key : string) :
  _parse_guardrail rt g_dict stage <> Invalid (KeyError key).
Proof.
  unfold _parse_guardrail.
  destruct (check_required rt g_dict ["name"; "threat"; "rule"; "response"])
    as [[]|e] eqn:Hreq.
  - cbn [load_bind].
    destruct g_dict as [| | | | | |d| |]; try discriminate.
    apply check_required_dict in Hreq.
    inversion Hreq as [|? ? (name & Hname) Hreq1]; subst.
    inversion Hreq1 as [|? ? (threat & Hthreat) Hreq2]; subst.
    inversion Hreq2 as [|? ? (rule & Hrule) Hreq3]; subst.
    inversion Hreq3 as [|? ? (response & Hresponse) _]; subst.
    cbn [py_getitem py_get]. rewrite Hthreat, Hresponse, Hname, Hrule.
    cbn [load_bind].
    destruct (negb (in_texts threat VALID_THREATS));
      [apply invalid_entry_no_key_error|].
    destruct (negb (in_texts response VALID_RESPONSES));
      [apply invalid_entry_no_key_error|].
    cbv zeta.
    match goal with
    | |- context [__post_init__ rt ?g] => destruct (__post_init__ rt g) as [[]|[]]
    end; discriminate.
  - cbn [load_bind]. intros [= ->].
    now apply (check_required_no_key_error g_dict
                 ["name"; "threat"; "rule"; "response"] key).
Qed.

(** What [_parse_guardrail] accepts.  A guardrail it returns comes from
    a mapping that binds [name], [threat], [rule] and [response]; its stage
    is the stage of the list it stands in, whatever the entry itself says,
    and is a valid stage; its threat, response and detection are valid
    texts, the detection being [deterministic] when the entry names none;
    with the response [truncate] it has a [truncate_to]; [enabled] defaults
    to [True] and the suffix to three dots.  The name, the rule and the
    other fields are taken as they are.  [_parse_guardrail] never fails
    with a [KeyError]. *)
Theorem parsed_guardrail_is_valid (g_dict : value) (stage : string) :
  (forall c,
      _parse_guardrail rt g_dict stage = Loaded c ->
      exists d,
        g_dict = VDict d
        /\ dict_get "name" d = Some (ld_name c)
        /\ dict_get "rule" d = Some (ld_rule c)
        /\ ld_stage c = VStr stage /\ In stage VALID_STAGES
        /\ (exists t, In t VALID_THREATS /\ ld_threat c = VStr t
                      /\ dict_get "threat" d = Some (VStr t))
        /\ (exists r, In r VALID_RESPONSES /\ ld_response c = VStr r
                      /\ dict_get "response" d = Some (VStr r))
        /\ (exists k, In k VALID_DETECTION /\ ld_detection c = VStr k
                      /\ default (VStr "deterministic") (dict_get "detection" d)
                         = VStr k)
        /\ (ld_response c = VStr "truncate" -> ld_truncate_to c <> VNone)
        /\ ld_enabled c = default (VBool true) (dict_get "enabled" d)
        /\ ld_suffix c = default (VStr "...") (dict_get "suffix" d)
        /\ ld_error_message c = default VNone (dict_get "error_message" d)
        /\ ld_fallback_value c = default VNone (dict_get "fallback_value" d)
        /\ ld_truncate_to c = default VNone (dict_get "truncate_to" d))
  /\ (forall key, _parse_guardrail rt g_dict stage <> Invalid (KeyError key)).
Proof.
  split; [|intros key; apply parse_guardrail_no_key_error].
  intros c Hc.
  destruct (parse_guardrail_loaded g_dict stage c Hc)
    as (d & -> & Hname & Hthreat & Hrule & Hresponse & Hstage & Hdet & Hen
        & Herr & Hfb & Htr & Hsuf & Hpost).
  destruct (post_init_ok c Hpost) as (Vs & Vt & Vr & Vd & Htrunc).
  exists d. split; [reflexivity|]. split; [exact Hname|]. split; [exact Hrule|].
  split; [exact Hstage|]. split.
  { destruct (in_texts_spec _ _ Vs) as (t & Hin & Ht).
    rewrite Hstage in Ht. now injection Ht as ->. }
  split.
  { destruct (in_texts_spec _ _ Vt) as (t & Hin & Ht). exists t.
    rewrite Hthreat, Ht. auto. }
  split.
  { destruct (in_texts_spec _ _ Vr) as (t & Hin & Ht). exists t.
    rewrite Hresponse, Ht. auto. }
  split.
  { destruct (in_texts_spec _ _ Vd) as (t & Hin & Ht). exists t.
    rewrite <- Hdet, Ht. auto. }
  repeat split; assumption.
Qed.

(** What [_parse_guardrail] reports of an entry that is a mapping.  The
    first of [name], [threat], [rule] and [response] that the mapping does
    not bind is reported as the missing field, with the text of the
    mapping.  With the four bound, a threat that is none of the valid ones
    is reported before the response is looked at, and a [truncate] response
    without [truncate_to] is reported with the message of the
    dataclass. *)
Theorem invalid_guardrail_is_reported (d : list (string * value))
  (stage shown : string) :
  py_str rt (VDict d) = Ok shown ->
  (forall pre f post,
      ["name"; "threat"; "rule"; "response"] = (pre ++ f :: post)%list ->
      Forall (fun k => exists v, dict_get k d = Some v) pre ->
      dict_get f d = None ->
      _parse_guardrail rt (VDict d) stage
      = Invalid (ConfigValidationError
                   ("Guardrail missing required field '" ++ f ++ "': " ++ shown)))
  /\ (forall name threat rule response,
      dict_get "name" d = Some (VStr name) ->
      dict_get "threat" d = Some (VStr threat) ->
      dict_get "rule" d = Some rule ->
      dict_get "response" d = Some response ->
      ~ In threat VALID_THREATS ->
      _parse_guardrail rt (VDict d) stage
      = Invalid (ConfigValidationError
                   ("Invalid threat '" ++ threat ++ "' in guardrail '" ++ name
                    ++ "'. Must be one of: " ++ tuple_text VALID_THREATS)))
  /\ (forall name threat rule,
      dict_get "name" d = Some name ->
      dict_get "threat" d = Some (VStr threat) ->
      dict_get "rule" d = Some rule ->
      dict_get "response" d = Some (VStr "truncate") ->
      In threat VALID_THREATS -> In stage VALID_STAGES ->
      dict_get "detection" d = None ->
      default VNone (dict_get "truncate_to" d) = VNone ->
      _parse_guardrail rt (VDict d) stage
      = Invalid (ConfigValidationError
                   "truncate_to is required when response is 'truncate'")).
Proof.
  intros Hshown. split; [|split].
  - intros pre f post Hfields Hpre Hf. unfold _parse_guardrail.
    rewrite Hfields.
    now rewrite (check_required_missing d pre f post shown Hpre Hf Hshown).
  - intros name threat rule response Hname Hthreat Hrule Hresponse Hnot.
    unfold _parse_guardrail.
    cbn [check_required py_in hashable lift load_bind].
    rewrite Hname, Hthreat, Hrule, Hresponse. cbn [load_bind py_getitem].
    rewrite Hthreat. cbn [load_bind].
    assert (Hin : in_texts (VStr threat) VALID_THREATS = false).
    { apply not_true_is_false. intros H.
      destruct (in_texts_spec _ _ H) as (t & Hin & [= ->]). contradiction. }
    rewrite Hin. cbn [negb]. unfold invalid_entry.
    cbn [py_str lift load_bind py_get]. rewrite Hname. reflexivity.
  - intros name threat rule Hname Hthreat Hrule Hresponse Hin Hstage Hdet Htr.
    unfold _parse_guardrail.
    cbn [check_required py_in hashable lift load_bind].
    rewrite Hname, Hthreat, Hrule, Hresponse. cbn [load_bind py_getitem py_get].
    rewrite Hthreat, Hresponse, Hname, Hrule, Hdet. cbn [load_bind].
    assert (Ht : in_texts (VStr threat) VALID_THREATS = true).
    { unfold VALID_THREATS in *. cbn in Hin.
      destruct Hin as [<-|[<-|[<-|[<-|[]]]]]; reflexivity. }
    assert (Hs : in_texts (VStr stage) VALID_STAGES = true).
    { unfold VALID_STAGES in *. cbn in Hstage.
      destruct Hstage as [<-|[<-|[<-|[]]]]; reflexivity. }
    rewrite Ht. cbn [negb].
    replace (in_texts (VStr "truncate") VALID_RESPONSES) with true by reflexivity.
    cbn [negb]. cbv zeta. unfold __post_init__.
    cbn [ld_stage ld_threat ld_response ld_detection ld_truncate_to].
    rewrite Hs, Ht. cbn [negb].
    replace (in_texts (VStr "truncate") VALID_RESPONSES) with true by reflexivity.
    replace (in_texts (VStr "deterministic") VALID_DETECTION) with true
      by reflexivity.
    cbn [negb].
    destruct (dict_get "truncate_to" d) as [v|]; cbn in Htr; [subst v|];
      reflexivity.
Qed.

End LoaderFacts.

Lemma dict_set_present {A} (k : string) (v : A) (d : list (string * A)) :
  dict_get k d = Some v -> dict_set k v d = d.
Proof.
  induction d as [|[k' v'] d IH]; cbn; [discriminate|].
  destruct (String.eqb k k') eqn:E.
  - apply String.eqb_eq in E. now intros [= ->]; subst.
  - intros H. now rewrite IH.
Qed.

Lemma dict_set_fresh {A} (k : string) (v : A) (d : list (string * A)) :
  dict_get k d = None -> dict_set k v d = (d ++ [(k, v)])%list.
Proof.
  induction d as [|[k' v'] d IH]; cbn; [reflexivity|].
  destruct (String.eqb k k') eqn:E; [discriminate|].
  intros H. now rewrite IH.
Qed.

Lemma dict_get_fresh {A} (k : string) (d : list (string * A)) :
  ~ In k (map fst d) -> dict_get k d = None.
Proof.
  induction d as [|[k' v'] d IH]; cbn; [reflexivity|].
  intros H. destruct (String.eqb k k') eqn:E.
  - apply String.eqb_eq in E. subst. tauto.
  - apply IH. tauto.
Qed.

Section ConfigFacts.

Variable rt : runtime.

Lemma parse_stages_step (section : value) (stage : string) (rest : list string)
  (lists : stage_lists) (x : list LoadedGuardrail) :
  dict_get stage lists = Some x ->
  parse_stages rt section (stage :: rest) lists
  = let+ p := stage_guardrails rt section stage in
    parse_stages rt section rest (dict_set stage (x ++ p)%list lists).
Proof.
  intros Hx. cbn [parse_stages]. unfold stage_guardrails.
  destruct (py_in (VStr stage) section) as [[|]|e]; cbn [lift load_bind];
    [| |reflexivity].
  - destruct (py_getitem section stage) as [entries|e]; cbn [load_bind];
      [|reflexivity].
    destruct (py_iter entries) as [items|e]; cbn [lift load_bind];
      [|reflexivity].
    destruct (parse_each rt items stage) as [p|e]; cbn [load_bind];
      [|reflexivity].
    rewrite Hx. reflexivity.
  - rewrite app_nil_r, (dict_set_present _ _ _ Hx). reflexivity.
Qed.

Lemma parse_stages_valid (section : value) (i b o : list LoadedGuardrail) :
  parse_stages rt section VALID_STAGES (by_stage i b o)
  = let+ pi := stage_guardrails rt section "input" in
    let+ pb := stage_guardrails rt section "behavioral" in
    let+ po := stage_guardrails rt section "output" in
    Loaded (by_stage (i ++ pi) (b ++ pb) (o ++ po)).
Proof.
  unfold VALID_STAGES, by_stage.
  rewrite (parse_stages_step _ _ _ _ i) by reflexivity.
  destruct (stage_guardrails rt section "input") as [pi|e]; cbn [load_bind];
    [|reflexivity].
  rewrite (parse_stages_step _ _ _ _ b) by reflexivity.
  destruct (stage_guardrails rt section "behavioral") as [pb|e]; cbn [load_bind];
    [|reflexivity].
  rewrite (parse_stages_step _ _ _ _ o) by reflexivity.
  destruct (stage_guardrails rt section "output") as [po|e]; cbn [load_bind];
    reflexivity.
Qed.

Lemma parse_agents_spec (gi gb go : list LoadedGuardrail)
  (agents : list (string * value)) :
  forall acc result,
    NoDup (map fst agents) ->
    (forall k, In k (map fst agents) -> ~ In k (map fst acc)) ->
    parse_agents rt agents (by_stage gi gb go) acc = Loaded result ->
    exists new, result = (acc ++ new)%list
                /\ Forall2 (agent_entry rt gi gb go) agents new.
Proof.
  induction agents as [|[name acfg] agents IH]; intros acc result Hnd Hfresh.
  - cbn. intros [= <-]. exists []. rewrite app_nil_r. split; constructor.
  - cbn [parse_agents].
    change (map _ VALID_STAGES) with (by_stage gi gb go).
    rewrite parse_stages_valid.
    destruct (stage_guardrails rt acfg "input") as [oi|e] eqn:Hi;
      cbn [load_bind]; [|discriminate].
    destruct (stage_guardrails rt acfg "behavioral") as [ob|e] eqn:Hb;
      cbn [load_bind]; [|discriminate].
    destruct (stage_guardrails rt acfg "output") as [oo|e] eqn:Ho;
      cbn [load_bind]; [|discriminate].
    cbn [map fst] in Hnd, Hfresh. apply NoDup_cons in Hnd as [Hname Hnd].
    rewrite dict_set_fresh
      by (apply dict_get_fresh, Hfresh; now left).
    intros H. apply IH in H as (new & -> & Hnew); [|exact Hnd|].
    + eexists. rewrite <- app_assoc. split; [reflexivity|].
      constructor; [|exact Hnew].
      split; [reflexivity|]. exists oi, ob, oo. cbn [snd]. auto.
    + intros k Hk. rewrite map_app, in_app_iff. cbn.
      intros [Hacc|[<-|[]]].
      * apply (Hfresh k); [now right|exact Hacc].
      * apply Hname. now apply list_elem_of_In.
Qed.

Lemma parse_config_agents (gi gb go : list LoadedGuardrail)
  (agents : list (string * value)) (result : list (string * stage_lists)) :
  NoDup (map fst agents) ->
  (let+ result := parse_agents rt agents (by_stage gi gb go) [] in
   match result with
   | [] =>
       if existsb (fun kv => match snd kv with [] => false | _ => true end)
            (by_stage gi gb go)
       then Loaded [("default", by_stage gi gb go)]
       else Loaded []
   | _ => Loaded result
   end) = Loaded result ->
  (agents <> [] -> Forall2 (agent_entry rt gi gb go) agents result)
  /\ (agents = [] ->
      result = match gi, gb, go with
               | [], [], [] => []
               | _, _, _ => [("default", by_stage gi gb go)]
               end).
Proof.
  intros Hnd H.
  destruct (parse_agents rt agents (by_stage gi gb go) []) as [r|e] eqn:Hr;
    cbn [load_bind] in H; [|discriminate].
  apply parse_agents_spec in Hr as (new & -> & Hnew); [|exact Hnd|now intros].
  cbn [app] in H. split.
  - intros Hne. destruct Hnew as [|a n agents new Ha Hnew]; [contradiction|].
    injection H as <-. now constructor.
  - intros ->. inversion Hnew; subst.
    destruct gi, gb, go; cbn in H; now injection H as <-.
Qed.

(** What [_parse_config] returns for a mapping.  The guardrails of the
    [global] section are parsed stage by stage, a missing section giving
    none.  Every agent of the [agents] section gets, in the order of the
    document, an entry with the three stages, each holding the global
    guardrails of the stage first and then the agent's own, in the order
    they are written.  Without agents the result is empty when no global
    guardrail was given, and has the one agent [default] with the global
    guardrails otherwise. *)
Theorem parse_config_puts_global_first (d : list (string * value))
  (agents : list (string * value)) (result : list (string * stage_lists)) :
  default (VDict []) (dict_get "agents" d) = VDict agents ->
  NoDup (map fst agents) ->
  _parse_config rt (VDict d) = Loaded result ->
  exists gi gb go,
    match dict_get "global" d with
    | Some global_section =>
        stage_guardrails rt global_section "input" = Loaded gi
        /\ stage_guardrails rt global_section "behavioral" = Loaded gb
        /\ stage_guardrails rt global_section "output" = Loaded go
    | None => gi = [] /\ gb = [] /\ go = []
    end
    /\ (agents <> [] -> Forall2 (agent_entry rt gi gb go) agents result)
    /\ (agents = [] ->
        result = match gi, gb, go with
                 | [], [], [] => []
                 | _, _, _ => [("default", by_stage gi gb go)]
                 end).
Proof.
  intros Hagents Hnd. unfold _parse_config.
  cbn [py_in hashable lift load_bind py_getitem py_get].
  assert (Ha : match dict_get "agents" d with
               | Some v => v
               | None => VDict []
               end = VDict agents).
  { destruct (dict_get "agents" d); exact Hagents. }
  rewrite Ha. clear Ha Hagents.
  destruct (dict_get "global" d) as [gsec|]; cbn [load_bind].
  - change no_guardrails with (by_stage [] [] []).
    rewrite parse_stages_valid.
    destruct (stage_guardrails rt gsec "input") as [gi|e];
      cbn [load_bind]; [|discriminate].
    destruct (stage_guardrails rt gsec "behavioral") as [gb|e];
      cbn [load_bind]; [|discriminate].
    destruct (stage_guardrails rt gsec "output") as [go|e];
      cbn [load_bind]; [|discriminate].
    intros H. exists gi, gb, go. split; [auto|].
    now apply parse_config_agents.
  - intros H. exists [], [], []. split; [auto|].
    now apply (parse_config_agents [] [] []).
Qed.

End ConfigFacts.

(** ** The scanner, the literals and the disabled guardrails *)

(** [_tokenize_args] splits at the commas outside quotes and brackets.
    Where the text before a comma scans as one argument, the stripped text
    is the first token and the rest is tokenized on its own; so a comma at
    the head gives an empty first token, while a text that ends in a comma
    gives no empty last token, and a text of blanks gives no token at all.
    A text between two quotes of one kind, and a bracketed list of quoted
    words, scan as one argument whatever commas they hold. *)
Theorem tokenize_args_splits_at_commas :
  (forall a b, one_argument a = true ->
               _tokenize_args (a ++ String "," b)
               = PyStr.strip a :: _tokenize_args b)
  /\ (forall a, one_argument a = true ->
                _tokenize_args a
                = if String.eqb (PyStr.strip a) "" then [] else [PyStr.strip a])
  /\ (forall b, _tokenize_args (String "," b) = "" :: _tokenize_args b)
  /\ (forall a, one_argument a = true ->
                _tokenize_args (a ++ ",") = [PyStr.strip a])
  /\ (forall a, all_chars is_plain_char a = true -> one_argument a = true)
  /\ (forall q s, q = squote \/ q = dquote ->
                  PyStr.contains_char q s = false ->
                  one_argument (String q (s ++ String q "")) = true)
  /\ (forall ws, Forall (fun w => PyStr.contains_char squote w = false) ws ->
                 one_argument (list_text ws) = true).
Proof.
  split; [intros a b Ha; now apply tokenize_args_at_comma_lemma|].
  split; [intros a Ha; now apply tokenize_args_at_comma_lemma|].
  split.
  { intros b.
    exact (proj1 (tokenize_args_at_comma_lemma "" eq_refl) b). }
  split.
  { intros a Ha.
    exact (proj1 (tokenize_args_at_comma_lemma a Ha) ""). }
  split; [exact plain_one_argument|].
  split; [exact quoted_one_argument|exact list_text_one_argument].
Qed.

(** Writing arguments and reading them back: arguments that each scan
    as one argument, are not empty and have no blank at either end, joined
    by a comma and a blank, are tokenized into the same arguments. *)
Theorem tokenize_args_reads_back (args : list string) :
  Forall (fun a => is_argument a = true) args ->
  _tokenize_args (str_join ", " args) = args.
Proof.
  exact (tokenize_joined args).
Qed.

(** Texts that [_parse_literal] reads back: the decimal text of an
    integer that is not negative and within the digit limit of the
    interpreter is that integer; a bracketed list of quoted words without
    commas is the list of the words; a path is its own marker. *)
Theorem literal_texts_read_back (rt : runtime) :
  (forall n, 0 <= n -> over_digit_limit rt (str_of_int n) = false ->
             _parse_literal rt (str_of_int n) = VInt n)
  /\ (forall ws, Forall (fun w => PyStr.contains_char "," w = false) ws ->
                 _parse_literal rt (list_text ws) = VList (map VStr ws))
  /\ (forall t, is_path t = true -> _parse_literal rt t = path_marker t).
Proof.
  split; [exact (parse_literal_int rt)|].
  split; [exact (parse_literal_list_text rt)|].
  intros t Ht. now apply parse_literal_path.
Qed.

(** A guardrail that is not enabled is skipped by the three stages: it
    is not evaluated, leaves no result and applies no remediation, so each
    stage runs as on the list of the enabled guardrails.  With none enabled
    [check_input] returns no result and leaves the summary as it was. *)
Theorem disabled_guardrails_are_skipped (rt : runtime)
  (_rules : gmap string rule_fn) (request : value)
  (guardrails : list GuardrailConfig) (self : GuardrailEngine) :
  (forall results,
      check_input_loop rt _rules self request guardrails results
      = check_input_loop rt _rules self request
          (List.filter cfg_enabled guardrails) results)
  /\ (forall ctx results,
      check_behavioral_loop rt _rules self ctx guardrails results
      = check_behavioral_loop rt _rules self ctx
          (List.filter cfg_enabled guardrails) results)
  /\ (forall h output results,
      check_output_loop rt _rules self h request output guardrails results
      = check_output_loop rt _rules self h request output
          (List.filter cfg_enabled guardrails) results)
  /\ (forall agent,
      Forall (fun g => cfg_enabled g = false) (_get_guardrails self agent "input") ->
      check_input rt _rules self agent request = (self, Ok [])).
Proof.
  split; [intros; apply check_input_loop_enabled|].
  split; [intros; apply check_behavioral_loop_enabled|].
  split; [intros; apply check_output_loop_enabled|].
  intros agent Hall. unfold check_input.
  rewrite check_input_loop_enabled.
  replace (List.filter cfg_enabled (_get_guardrails self agent "input"))
    with (@nil GuardrailConfig); [reflexivity|].
  induction Hall as [|g l Hg _ IH]; [reflexivity|].
  cbn [List.filter]. now rewrite Hg.
Qed.

(** ** The properties on the example configurations *)

Lemma bare_word_is_no_rule_witness :
  evaluate_rule Sample.rt Examples.rules "enabled" (VDict [])
  = Raise (RuleParseError "Cannot parse rule: enabled").
Proof.
  apply (bare_word_is_no_rule Sample.rt Examples.rules "enabled" (VDict [])
           eq_refl).
Defined.

Lemma tokenize_args_reads_back_witness :
  _tokenize_args "request.text, ['a, b', 'c'], 10"
  = ["request.text"; "['a, b', 'c']"; "10"].
Proof.
  apply (tokenize_args_reads_back ["request.text"; "['a, b', 'c']"; "10"]).
  repeat constructor.
Defined.

Lemma fallback_error_is_not_caught_witness :
  let r := set_detail
             (set_detail (triggered_result Cases.deep) "original_value" VNone)
             "fallback_value" (VStr "unknown") in
  let after := check_output_loop Sample.rt Examples.rules
                 (Examples.engine true [] [Cases.deep]) Cases.flat_objects
                 (VDict []) 1%nat [Cases.deep] [] in
  snd after = Raise (TypeError "'str' object does not support item assignment")
  /\ snd (fst after) = Cases.flat_objects
  /\ sum_output (_summary (fst (fst after))) = [r].
Proof.
  destruct (fallback_error_is_not_caught Sample.rt Examples.rules
              (Examples.engine true [] [Cases.deep]) Cases.flat_objects
              (VDict []) 1%nat Cases.deep [] [] "a.b"
              (TypeError "'str' object does not support item assignment")
              eq_refl eq_refl eq_refl eq_refl eq_refl eq_refl)
    as (Hafter & _ & Hsum & _).
  cbv zeta. split; [|split].
  - now rewrite Hafter.
  - now rewrite Hafter.
  - exact (Hsum eq_refl).
Defined.

Lemma check_input_runs_in_order_witness :
  let after := check_input Sample.rt Examples.rules
                 (Examples.engine false
                    [Examples.long_enough; Examples.too_long] [])
                 "writer" Examples.request in
  snd after
  = Raise (GuardrailBlockError "max_length" "input"
             "Blocked by guardrail: max_length" [])
  /\ sum_input (_summary (fst after))
     = [passed_result Examples.long_enough;
        triggered_result Examples.too_long]
  /\ sum_blocked (_summary (fst after)) = true.
Proof.
  assert (Hpre : Forall2
                   (fun g r =>
                      _evaluate_guardrail Sample.rt Examples.rules
                        (Examples.engine false
                           [Examples.long_enough; Examples.too_long] [])
                        g (VDict [("request", Examples.request)]) = Ok r
                      /\ is_block r = false)
                   [Examples.long_enough]
                   [passed_result Examples.long_enough]).
  { repeat constructor. }
  destruct (proj1 (proj2 (check_input_runs_in_order Sample.rt Examples.rules
              (Examples.engine false [Examples.long_enough; Examples.too_long] [])
              "writer" Examples.request [Examples.long_enough]
              [passed_result Examples.long_enough] Hpre))
              Examples.too_long [] (triggered_result Examples.too_long)
              eq_refl eq_refl eq_refl) as (Hafter & Hsum & _).
  cbv zeta. split; [|split].
  - now rewrite Hafter.
  - now rewrite Hsum.
  - now rewrite Hsum.
Defined.


Lemma builtin_rule_texts_witness :
  evaluate_rule Sample.rt (builtin_rules Sample.rt)
    "max_length(request.text, 5)" (VDict [("request", Examples.request)])
  = Ok false.
Proof.
  destruct (builtin_rule_texts Sample.rt "request.text"
              (VDict [("request", Examples.request)]) eq_refl) as [Hlen _].
  destruct (Hlen 5 ltac:(lia) eq_refl) as (_ & _ & Htext & _).
  exact (Htext "hello world" eq_refl).
Defined.

Lemma input_length_limit_witness :
  let after := check_input Sample.rt (builtin_rules Sample.rt)
                 (Examples.engine false [Examples.too_long] []) "writer"
                 Examples.request in
  snd after
  = Raise (GuardrailBlockError "max_length" "input"
             "Blocked by guardrail: max_length" [])
  /\ sum_input (_summary (fst after)) = [triggered_result Examples.too_long]
  /\ sum_blocked (_summary (fst after)) = true.
Proof.
  destruct (proj2 (input_length_limit Sample.rt
              (Examples.engine false [Examples.too_long] []) "writer"
              Examples.request Examples.too_long "request.text" 5
              eq_refl eq_refl eq_refl eq_refl eq_refl ltac:(lia) eq_refl)
              "hello world" eq_refl) as (Hafter & _ & Hsum).
  destruct (Hsum eq_refl) as [Hin Hbl].
  cbv zeta. split; [|split].
  - now rewrite Hafter.
  - exact Hin.
  - exact Hbl.
Defined.

Lemma tool_call_limit_blocks_after_n_witness :
  let run := guard_run Sample.rt (builtin_rules Sample.rt)
               (Cases.behavioral_engine [Cases.tool_limit])
               (create_context (S754_zero false) "writer" Examples.request)
               (map EnterToolCall ["search"; "fetch"; "search"]) in
  tool_call_count (snd (fst run)) = 3 /\ length (snd run) = 3%nat.
Proof.
  destruct (tool_call_limit_blocks_after_n Sample.rt
              (Cases.behavioral_engine [Cases.tool_limit]) Cases.tool_limit 2
              eq_refl eq_refl eq_refl ltac:(lia) eq_refl) as [_ Hrun].
  destruct (Hrun (S754_zero false) "writer" Examples.request
              ["search"; "fetch"; "search"] eq_refl) as (Hcount & Hlen & _).
  { repeat constructor; discriminate. }
  split; [exact Hcount|exact Hlen].
Defined.

Lemma invalid_guardrail_is_reported_witness :
  _parse_guardrail Sample.rt (VDict Cases.no_threat) "input"
  = Invalid (ConfigValidationError
      "Guardrail missing required field 'threat': {'name': 'limit', 'rule': 'max_length(request.text, 5)', 'response': 'block'}").
Proof.
  refine (proj1 (invalid_guardrail_is_reported Sample.rt Cases.no_threat "input"
            "{'name': 'limit', 'rule': 'max_length(request.text, 5)', 'response': 'block'}"
            eq_refl) ["name"] "threat" ["rule"; "response"] eq_refl _ eq_refl).
  repeat constructor. now exists (VStr "limit").
Defined.

Lemma parse_config_puts_global_first_witness :
  _parse_config Sample.rt (VDict Cases.document)
  = Loaded [("writer", by_stage [Cases.limit_loaded] [] [Cases.shorten_loaded])]
  /\ exists gi gb go,
       (stage_guardrails Sample.rt (VDict [("input", VList [Cases.limit_entry])])
          "input" = Loaded gi
        /\ stage_guardrails Sample.rt
             (VDict [("input", VList [Cases.limit_entry])]) "behavioral"
           = Loaded gb
        /\ stage_guardrails Sample.rt
             (VDict [("input", VList [Cases.limit_entry])]) "output"
           = Loaded go)
       /\ Forall2 (agent_entry Sample.rt gi gb go)
            [("writer", VDict [("output", VList [Cases.shorten_entry])])]
            [("writer",
              by_stage [Cases.limit_loaded] [] [Cases.shorten_loaded])].
Proof.
  split; [reflexivity|].
  destruct (parse_config_puts_global_first Sample.rt Cases.document
              [("writer", VDict [("output", VList [Cases.shorten_entry])])]
              [("writer",
                by_stage [Cases.limit_loaded] [] [Cases.shorten_loaded])]
              eq_refl) as (gi & gb & go & Hglobal & Hagents & _).
  - repeat constructor. intros H. now apply list_elem_of_In in H.
  - reflexivity.
  - exists gi, gb, go. split; [exact Hglobal|]. now apply Hagents.
Defined.

Lemma parsed_guardrail_is_valid_witness :
  _parse_guardrail Sample.rt Cases.shorten_entry "output"
  = Loaded Cases.shorten_loaded
  /\ In "output" VALID_STAGES
  /\ ld_truncate_to Cases.shorten_loaded <> VNone.
Proof.
  split; [reflexivity|].
  destruct (proj1 (parsed_guardrail_is_valid Sample.rt Cases.shorten_entry
                     "output") Cases.shorten_loaded eq_refl)
    as (d & _ & _ & _ & _ & Hstage & _ & _ & _ & Htruncate & _).
  split; [exact Hstage|]. apply Htruncate. reflexivity.
Defined.

Lemma set_nested_then_get_nested_witness :
  _set_nested (VDict [("a", VDict [("b", VStr "x")]); ("c", VInt 1)]) "a.b"
    (VStr "y")
  = Ok (VDict [("a", VDict [("b", VStr "y")]); ("c", VInt 1)])
  /\ _get_nested (VDict [("a", VDict [("b", VStr "y")]); ("c", VInt 1)]) "a.b"
     = VStr "y".
Proof.
  split; [reflexivity|].
  apply (proj1 (proj1 (set_nested_then_get_nested
                         (VDict [("a", VDict [("b", VStr "x")]); ("c", VInt 1)])
                         "a.b" (VStr "y"))
                  (VDict [("a", VDict [("b", VStr "y")]); ("c", VInt 1)])
                  eq_refl)).
Defined.

Lemma truncate_appends_suffix_witness :
  exists h',
    _apply_truncate (Examples.with_output (VDict [("text", VStr "short")]))
      1%nat Examples.truncate_text (triggered_result Examples.truncate_text)
    = (h',
       set_detail
         (set_detail (triggered_result Examples.truncate_text)
            "original_length" (VInt 5))
         "truncated_to" (VInt 10),
       Ok 1%nat)
    /\ length h' = 2%nat
    /\ _get_nested (deref h' 1%nat) "text" = VStr "short...".
Proof.
  destruct (proj2 (truncate_appends_suffix
                     (Examples.with_output (VDict [("text", VStr "short")]))
                     1%nat Examples.truncate_text
                     (triggered_result Examples.truncate_text))
              10 "text" [("text", VStr "short")] eq_refl eq_refl eq_refl)
    as [Htext _].
  destruct (Htext "short" eq_refl) as (h' & Hrun & Hlen & Hget & _).
  exists h'. split; [exact Hrun|]. split; [exact Hlen|exact Hget].
Defined.
